(** * Pithos sqlite backend: the node store (pithos/backends/lib/sqlite/node.py)

    A shallow embedding of the [Node] class: the five tables of the
    schema as lists of rows (in rowid order), the statements the class
    issues as list operations, and the methods as computations in a state
    and error monad over the database. *)

From Stdlib Require Import ZArith List Bool Lia String Ascii Sorted.
Import ListNotations.
Local Open Scope Z_scope.

(* ===================================================================== *)
(** * Part I: the embedding                                               *)
(* ===================================================================== *)

(** ** Values *)

(** Python unicode strings, as lists of code points. *)
Definition ustring := list Z.

Definition u (s : string) : ustring :=
  map (fun a => Z.of_N (N_of_ascii a)) (list_ascii_of_string s).

Fixpoint ustr_eqb (a b : ustring) : bool :=
  match a, b with
  | [], [] => true
  | x :: a', y :: b' => (x =? y) && ustr_eqb a' b'
  | _, _ => false
  end.

(** Timestamps as returned by [time()], compared only. A time bound is a
    timestamp or [inf = float('inf')], the default of every [before]. *)
Inductive bound := Fin (t : Z) | Inf.

(** [mtime < before] and [mtime <= before]. *)
Definition lt_bound (mtime : Z) (before : bound) : bool :=
  match before with Fin t => mtime <? t | Inf => true end.

Definition le_bound (mtime : Z) (before : bound) : bool :=
  match before with Fin t => mtime <=? t | Inf => true end.

Definition ROOTNODE : Z := 0.

(** ** Tables *)

Record node_row := mk_node
  { n_node : Z; n_parent : Z; n_path : ustring }.

Record policy_row := mk_policy
  { p_node : Z; p_key : ustring; p_value : ustring }.

Record stat_row := mk_stat
  { s_node : Z; s_population : Z; s_size : Z; s_mtime : Z; s_cluster : Z }.

(** (SERIAL, NODE, HASH, SIZE, SOURCE, MTIME, MUSER, CLUSTER) *)
Record version_row := mk_version
  { v_serial : Z; v_node : Z; v_hash : ustring; v_size : Z;
    v_source : option Z; v_mtime : Z; v_muser : ustring; v_cluster : Z }.

Record attr_row := mk_attr
  { a_serial : Z; a_key : ustring; a_value : ustring }.

Record db := mk_db
  { nodes : list node_row;
    policy : list policy_row;
    statistics : list stat_row;
    versions : list version_row;
    attributes : list attr_row }.

(** [Node.__init__] on an empty database: the tables and the root row. *)
Definition init_db : db :=
  mk_db [mk_node ROOTNODE ROOTNODE []] [] [] [] [].

(** ** Outcomes and the monad of the methods *)

Inductive error :=
| IntegrityError    (* a foreign key or uniqueness constraint failed *)
| OperationalError  (* the engine rejected the statement text *)
| RuntimeError.     (* raised by strnextling *)

(** [Diverge]: a [while True] loop that did not leave within the fuel. *)
Inductive result (A : Type) :=
| Ok (a : A)
| Raise (e : error)
| Diverge.
Arguments Ok {A} a.
Arguments Raise {A} e.
Arguments Diverge {A}.

Definition M (A : Type) := db -> result (A * db).

Definition ret {A} (a : A) : M A := fun st => Ok (a, st).

Definition bind {A B} (m : M A) (k : A -> M B) : M B :=
  fun st =>
    match m st with
    | Ok (a, st') => k a st'
    | Raise e => Raise e
    | Diverge => Diverge
    end.

Definition get : M db := fun st => Ok (st, st).
Definition put (st : db) : M unit := fun _ => Ok (tt, st).
Definition raise {A} (e : error) : M A := fun _ => Raise e.

Declare Scope db_scope.
Delimit Scope db_scope with db.
Notation "x <- m ;; k" := (bind m (fun x => k))
  (at level 61, m at next level, right associativity) : db_scope.
Notation "m ;;; k" := (bind m (fun _ => k))
  (at level 61, right associativity) : db_scope.
Local Open Scope db_scope.

(** [for x in xs: body(x)] *)
Fixpoint for_each {A} (xs : list A) (body : A -> M unit) : M unit :=
  match xs with
  | [] => ret tt
  | x :: xs' => body x ;;; for_each xs' body
  end.

(** ** Helpers for the statements *)

Definition memZ (x : Z) (l : list Z) : bool := existsb (Z.eqb x) l.

Definition sumZ (l : list Z) : Z := fold_right Z.add 0 l.

Definition count {A} (l : list A) : Z := Z.of_nat (List.length l).

(** [select sum(f) from l where P] *)
Definition total {A} (f : A -> Z) (P : A -> bool) (l : list A) : Z :=
  sumZ (map f (filter P l)).

(** [select max(serial) ...]: NULL on no rows. *)
Definition max_serial (vs : list version_row) : option Z :=
  fold_right
    (fun v acc => match acc with
                  | None => Some (v_serial v)
                  | Some m => Some (Z.max (v_serial v) m)
                  end)
    None vs.

Definition node_exists (st : db) (node : Z) : bool :=
  existsb (fun r => n_node r =? node) (nodes st).

Definition version_exists (st : db) (serial : Z) : bool :=
  existsb (fun v => v_serial v =? serial) (versions st).

(** The rowid given to a row inserted without one: one more than the
    largest in the table, 1 in an empty table. *)
Definition next_rowid (ids : list Z) : Z :=
  fold_right Z.max 0 ids + 1.

(** [select node from nodes where parent = ?] *)
Definition children_of (st : db) (parent : Z) : list Z :=
  map n_node (filter (fun r => n_parent r =? parent) (nodes st)).

(** *** Deletion with [on delete cascade]

    Deleting node rows deletes the node rows that reference them as
    parent, and so on; then the policy, statistics and version rows of
    every deleted node, and the attribute rows of every deleted version. *)

Fixpoint cascade (k : nat) (ns : list node_row) (doomed : list Z) : list Z :=
  match k with
  | O => doomed
  | S k' =>
      cascade k' ns
        (doomed ++ map n_node
           (filter (fun r => memZ (n_parent r) doomed
                             && negb (memZ (n_node r) doomed)) ns))
  end.

Definition delete_versions (sel : version_row -> bool) (st : db) : db :=
  let gone := map v_serial (filter sel (versions st)) in
  mk_db (nodes st) (policy st) (statistics st)
        (filter (fun v => negb (sel v)) (versions st))
        (filter (fun a => negb (memZ (a_serial a) gone)) (attributes st)).

Definition delete_nodes (sel : node_row -> bool) (st : db) : db :=
  let doomed :=
    cascade (List.length (nodes st)) (nodes st)
            (map n_node (filter sel (nodes st))) in
  let st' := delete_versions (fun v => memZ (v_node v) doomed) st in
  mk_db (filter (fun r => negb (memZ (n_node r) doomed)) (nodes st'))
        (filter (fun r => negb (memZ (p_node r) doomed)) (policy st'))
        (filter (fun r => negb (memZ (s_node r) doomed)) (statistics st'))
        (versions st')
        (attributes st').

(** ** Node directory *)

(** [node_create]: the new row gets the next rowid; the parent must be a
    node (the new row itself counts) and the path must be new. *)
Definition node_create (parent : Z) (path : ustring) : M Z :=
  st <- get ;;
  let node := next_rowid (map n_node (nodes st)) in
  if existsb (fun r => ustr_eqb (n_path r) path) (nodes st) then
    raise IntegrityError
  else if node_exists st parent || (parent =? node) then
    put (mk_db (nodes st ++ [mk_node node parent path]) (policy st)
               (statistics st) (versions st) (attributes st)) ;;;
    ret node
  else raise IntegrityError.

(** [node_lookup]: the node of the path, None if not found. *)
Definition node_lookup (st : db) (path : ustring) : option Z :=
  match find (fun r => ustr_eqb (n_path r) path) (nodes st) with
  | Some r => Some (n_node r)
  | None => None
  end.

(** [node_get_properties]: the node's (parent, path), None if not found. *)
Definition node_get_properties (st : db) (node : Z) : option (Z * ustring) :=
  match find (fun r => n_node r =? node) (nodes st) with
  | Some r => Some (n_parent r, n_path r)
  | None => None
  end.

(** [node_count_children]:
    select count(node) from nodes where parent = ? and node != 0 *)
Definition node_count_children (st : db) (node : Z) : Z :=
  count (filter (fun r => (n_parent r =? node) && negb (n_node r =? 0))
                (nodes st)).

(** ** Statistics *)

Definition stat_at (node cluster : Z) (r : stat_row) : bool :=
  (s_node r =? node) && (s_cluster r =? cluster).

(** [statistics_get]: the row of (node, cluster), None if there is none. *)
Definition statistics_get (st : db) (node cluster : Z)
  : option (Z * Z * Z) :=
  match find (stat_at node cluster) (statistics st) with
  | Some r => Some (s_population r, s_size r, s_mtime r)
  | None => None
  end.

(** insert or replace into statistics (node, population, size, mtime, cluster) *)
Definition replace_statistics (row : stat_row) : M unit :=
  st <- get ;;
  if node_exists st (s_node row) then
    put (mk_db (nodes st) (policy st)
               (filter (fun r => negb (stat_at (s_node row) (s_cluster row) r))
                       (statistics st) ++ [row])
               (versions st) (attributes st))
  else raise IntegrityError.

Definition statistics_update (node population size mtime cluster : Z)
  : M unit :=
  st <- get ;;
  let '(prepopulation, presize) :=
    match find (stat_at node cluster) (statistics st) with
    | None => (0, 0)
    | Some r => (s_population r, s_size r)
    end in
  let population := population + prepopulation in
  let size := size + presize in
  replace_statistics (mk_stat node population size mtime cluster).

(** [statistics_update_ancestors]: update the parent of [node], then all
    parents up to the root; past the first hop the population is 0. *)
Fixpoint statistics_update_ancestors (fuel : nat)
    (node population size mtime cluster : Z) : M unit :=
  match fuel with
  | O => fun _ => Diverge
  | S fuel' =>
      if node =? 0 then ret tt
      else
        st <- get ;;
        match node_get_properties st node with
        | None => ret tt
        | Some (parent, path) =>
            statistics_update parent population size mtime cluster ;;;
            statistics_update_ancestors fuel' parent 0 size mtime cluster
        end
  end.

(** ** Version ledger *)

(** [version_create]: the clock reading [now] is the value of [time()]. *)
Definition version_create (fuel : nat) (now : Z)
    (node : Z) (hash : ustring) (size : Z) (source : option Z)
    (muser : ustring) (cluster : Z) : M (Z * Z) :=
  st <- get ;;
  let mtime := now in
  if node_exists st node then
    let serial := next_rowid (map v_serial (versions st)) in
    put (mk_db (nodes st) (policy st) (statistics st)
               (versions st ++
                  [mk_version serial node hash size source mtime muser cluster])
               (attributes st)) ;;;
    statistics_update_ancestors fuel node 1 size mtime cluster ;;;
    ret (serial, mtime)
  else raise IntegrityError.

(** [version_lookup]:
    select ... from versions
    where serial = (select max(serial) from versions
                    where node = ? and mtime < ?)
    and cluster = ? *)
Definition version_lookup (st : db) (node : Z) (before : bound) (cluster : Z)
  : option version_row :=
  match max_serial (filter (fun v => (v_node v =? node)
                                     && lt_bound (v_mtime v) before)
                           (versions st)) with
  | None => None
  | Some m =>
      find (fun v => (v_serial v =? m) && (v_cluster v =? cluster))
           (versions st)
  end.

(** [version_get_properties] with [keys=()]: the whole row. *)
Definition version_get_properties (st : db) (serial : Z)
  : option version_row :=
  find (fun v => v_serial v =? serial) (versions st).

Definition set_cluster (cluster : Z) (v : version_row) : version_row :=
  mk_version (v_serial v) (v_node v) (v_hash v) (v_size v) (v_source v)
             (v_mtime v) (v_muser v) cluster.

(** [version_recluster] *)
Definition version_recluster (fuel : nat) (now : Z) (serial cluster : Z)
  : M unit :=
  st <- get ;;
  match version_get_properties st serial with
  | None => ret tt
  | Some props =>
      let node := v_node props in
      let size := v_size props in
      let oldcluster := v_cluster props in
      if cluster =? oldcluster then ret tt
      else
        let mtime := now in
        statistics_update_ancestors fuel node (-1) (- size) mtime oldcluster ;;;
        statistics_update_ancestors fuel node 1 size mtime cluster ;;;
        st' <- get ;;
        put (mk_db (nodes st') (policy st') (statistics st')
                   (map (fun v => if v_serial v =? serial
                                  then set_cluster cluster v else v)
                        (versions st'))
                   (attributes st'))
  end.

(** [version_remove]: the hash of the removed version, None if not found. *)
Definition version_remove (fuel : nat) (now : Z) (serial : Z)
  : M (option ustring) :=
  st <- get ;;
  match version_get_properties st serial with
  | None => ret None
  | Some props =>
      let node := v_node props in
      let hash := v_hash props in
      let size := v_size props in
      let cluster := v_cluster props in
      let mtime := now in
      statistics_update_ancestors fuel node (-1) (- size) mtime cluster ;;;
      st' <- get ;;
      put (delete_versions (fun v => v_serial v =? serial) st') ;;;
      ret (Some hash)
  end.

(** ** Purging and removing nodes *)

(** where node in (select node from nodes where parent = ?)
    and cluster = ? and mtime <= ? *)
Definition purge_children_sel (st : db) (parent : Z) (before : bound)
    (cluster : Z) (v : version_row) : bool :=
  memZ (v_node v) (children_of st parent)
  && (v_cluster v =? cluster) && le_bound (v_mtime v) before.

(** where node = ? and cluster = ? and mtime <= ? *)
Definition purge_sel (node : Z) (before : bound) (cluster : Z)
    (v : version_row) : bool :=
  (v_node v =? node) && (v_cluster v =? cluster)
  && le_bound (v_mtime v) before.

(** (select count(serial) from versions where node = n.node) = 0 *)
Definition versionless (st : db) (node : Z) : bool :=
  count (filter (fun v => v_node v =? node) (versions st)) =? 0.

(** [node_purge_children]: the hashes of the versions deleted. *)
Definition node_purge_children (fuel : nat) (now : Z)
    (parent : Z) (before : bound) (cluster : Z) : M (list ustring) :=
  st <- get ;;
  let sel := purge_children_sel st parent before cluster in
  let nr := count (filter sel (versions st)) in
  let size := sumZ (map v_size (filter sel (versions st))) in
  if nr =? 0 then ret []
  else
    let mtime := now in
    statistics_update parent (- nr) (- size) mtime cluster ;;;
    statistics_update_ancestors fuel parent (- nr) (- size) mtime cluster ;;;
    st1 <- get ;;
    let sel1 := purge_children_sel st1 parent before cluster in
    let hashes := map v_hash (filter sel1 (versions st1)) in
    put (delete_versions sel1 st1) ;;;
    st2 <- get ;;
    put (delete_nodes (fun n => versionless st2 (n_node n)
                                && (n_parent n =? parent)) st2) ;;;
    ret hashes.

(** [node_purge]: the hashes of the versions deleted. *)
Definition node_purge (fuel : nat) (now : Z)
    (node : Z) (before : bound) (cluster : Z) : M (list ustring) :=
  st <- get ;;
  let sel := purge_sel node before cluster in
  let nr := count (filter sel (versions st)) in
  let size := sumZ (map v_size (filter sel (versions st))) in
  if nr =? 0 then ret []
  else
    let mtime := now in
    statistics_update_ancestors fuel node (- nr) (- size) mtime cluster ;;;
    st1 <- get ;;
    let hashes := map v_hash (filter sel (versions st1)) in
    put (delete_versions sel st1) ;;;
    st2 <- get ;;
    put (delete_nodes (fun n => versionless st2 (n_node n)
                                && (n_node n =? node)) st2) ;;;
    ret hashes.

(** The clusters of a list of versions, ascending and without repeats:
    the groups of [group by cluster]. *)
Fixpoint insert_cluster (c : Z) (l : list Z) : list Z :=
  match l with
  | [] => [c]
  | x :: l' => if c <? x then c :: l
               else if c =? x then l
               else x :: insert_cluster c l'
  end.

Definition clusters_of (vs : list version_row) : list Z :=
  fold_right (fun v acc => insert_cluster (v_cluster v) acc) [] vs.

(** select count(serial), sum(size), cluster from versions
    where node = ? group by cluster *)
Definition cluster_groups (st : db) (node : Z) : list (Z * Z * Z) :=
  let at_node := filter (fun v => v_node v =? node) (versions st) in
  map (fun c =>
         let g := filter (fun v => v_cluster v =? c) at_node in
         (count g, sumZ (map v_size g), c))
      (clusters_of at_node).

(** [node_remove] *)
Definition node_remove (fuel : nat) (now : Z) (node : Z) : M bool :=
  st <- get ;;
  if negb (node_count_children st node =? 0) then ret false
  else
    let mtime := now in
    for_each (cluster_groups st node)
      (fun '(population, size, cluster) =>
         statistics_update_ancestors fuel node (- population) (- size)
                                     mtime cluster) ;;;
    st' <- get ;;
    put (delete_nodes (fun n => n_node n =? node) st') ;;;
    ret true.

(** ** Attribute store *)

Definition attr_at (serial : Z) (key : ustring) (a : attr_row) : bool :=
  (a_serial a =? serial) && ustr_eqb (a_key a) key.

(** [attribute_get] with [keys=()] *)
Definition attribute_get (st : db) (serial : Z) : list (ustring * ustring) :=
  map (fun a => (a_key a, a_value a))
      (filter (fun a => a_serial a =? serial) (attributes st)).

(** insert or replace into attributes (serial, key, value), one row *)
Definition replace_attribute (row : attr_row) : M unit :=
  st <- get ;;
  if version_exists st (a_serial row) then
    put (mk_db (nodes st) (policy st) (statistics st) (versions st)
               (filter (fun a => negb (attr_at (a_serial row) (a_key row) a))
                       (attributes st) ++ [row]))
  else raise IntegrityError.

(** [attribute_set] *)
Definition attribute_set (serial : Z) (items : list (ustring * ustring))
  : M unit :=
  for_each items (fun '(k, v) => replace_attribute (mk_attr serial k v)).

(** [attribute_copy]:
    insert or replace into attributes
    select ?, key, value from attributes where serial = ? *)
Definition attribute_copy (source dest : Z) : M unit :=
  st <- get ;;
  for_each (filter (fun a => a_serial a =? source) (attributes st))
    (fun a => replace_attribute (mk_attr dest (a_key a) (a_value a))).

(** ** Query engine *)

(** Outcomes of the computations that do not write. *)
Definition result_bind {A B} (m : result A) (k : A -> result B) : result B :=
  match m with
  | Ok a => k a
  | Raise e => Raise e
  | Diverge => Diverge
  end.

Notation "x <~ m ;; k" := (result_bind m (fun x => k))
  (at level 61, m at next level, right associativity) : db_scope.

(** *** Strings *)

(** [a < b] on unicode strings, by code points. *)
Fixpoint ustr_ltb (a b : ustring) : bool :=
  match a, b with
  | _, [] => false
  | [], _ :: _ => true
  | x :: a', y :: b' => (x <? y) || ((x =? y) && ustr_ltb a' b')
  end.

Definition ulen (s : ustring) : Z := Z.of_nat (List.length s).

Definition is_empty {A} (s : list A) : bool :=
  match s with [] => true | _ => false end.

(** [strnextling]: the last character one up. *)
Definition strnextling (prefix : ustring) : result ustring :=
  match prefix with
  | [] => Ok [65535]
  | _ :: _ =>
      let s := removelast prefix in
      let c := last prefix 0 in
      if c >=? 65535 then Raise RuntimeError
      else Ok (s ++ [c + 1])
  end.

(** [strprevling]: the last character one down, then 0xffff. *)
Definition strprevling (prefix : ustring) : ustring :=
  match prefix with
  | [] => prefix
  | _ :: _ =>
      let s := removelast prefix in
      let c := last prefix 0 in
      if c >? 0 then s ++ [c - 1; 65535] else s
  end.

Fixpoint starts_with (sub s : ustring) : bool :=
  match sub, s with
  | [], _ => true
  | _ :: _, [] => false
  | x :: sub', y :: s' => (x =? y) && starts_with sub' s'
  end.

(** [s.find(sub, start)] for [0 <= start]; [i] is the position of [s] in
    the whole string. *)
Fixpoint find_from (i : Z) (s sub : ustring) (start : Z) : Z :=
  if (start <=? i) && starts_with sub s then i
  else match s with
       | [] => -1
       | _ :: s' => find_from (i + 1) s' sub start
       end.

Definition ufind (s sub : ustring) (start : Z) : Z := find_from 0 s sub start.

(** [s.split(sep)] for a separator of one character. *)
Fixpoint split_on (sep : Z) (s : ustring) : list ustring :=
  match s with
  | [] => [[]]
  | c :: s' =>
      if c =? sep then [] :: split_on sep s'
      else match split_on sep s' with
           | [] => [[c]]
           | t :: ts => (c :: t) :: ts
           end
  end.

(** *** Statements

    The text of the listing query, held as its FROM list and the pieces
    of its WHERE clause: conditions (with their arguments) and the [and]s
    written between them. *)

Inductive cmp_op := Op_eq | Op_ne | Op_le | Op_ge | Op_lt | Op_gt.

Inductive cond :=
| C_latest (before : bound)
    (* v.serial = (select max(serial) from versions
                   where node = v.node and mtime < ?) *)
| C_cluster_not (cluster : Z)       (* v.cluster != ? *)
| C_child_of (parent : Z)
    (* v.node in (select node from nodes where parent = ?) *)
| C_attr_of_version                 (* a.serial = v.serial *)
| C_node_of_version                 (* n.node = v.node *)
| C_path_gt (start : ustring)       (* n.path > ? *)
| C_path_lt (nextling : ustring)    (* n.path < ? *)
| C_paths (pathq : list ustring)    (* (n.path like ? escape '\' or ...) *)
| C_key_in (keys : list ustring)    (* a.key in (?, ...) *)
| C_key_not_in (keys : list ustring) (* a.key not in (?, ...) *)
| C_opers (opers : list (ustring * cmp_op * ustring)).
    (* ((a.key = ? and a.value OP ?) or ...) *)

Inductive sqltok := T_and | T_cond (c : cond).

(** [' and '.join(...)] *)
Fixpoint and_join (cs : list cond) : list sqltok :=
  match cs with
  | [] => []
  | [c] => [T_cond c]
  | c :: cs' => T_cond c :: T_and :: and_join cs'
  end.

Record statement := mk_statement
  { from_attributes : bool;        (* "attributes a, " in the FROM list *)
    where_clause : list sqltok;
    limit_clause : option Z }.     (* " limit ?" *)

Definition op_text (o : cmp_op) : string :=
  match o with
  | Op_eq => "==" | Op_ne => "!=" | Op_le => "<="
  | Op_ge => ">=" | Op_lt => "<" | Op_gt => ">"
  end.

Fixpoint join_text (sep : string) (l : list string) : string :=
  match l with
  | [] => ""
  | [x] => x
  | x :: l' => x ++ sep ++ join_text sep l'
  end.

(** The text of a piece of the WHERE clause, as the module writes it. *)
Definition tok_text (t : sqltok) : string :=
  match t with
  | T_and => "and"
  | T_cond (C_latest _) =>
      "v.serial = (select max(serial) from versions where node = v.node and mtime < ?)"
  | T_cond (C_cluster_not _) => "v.cluster != ?"
  | T_cond (C_child_of _) =>
      "v.node in (select node from nodes where parent = ?)"
  | T_cond C_attr_of_version => "a.serial = v.serial"
  | T_cond C_node_of_version => "n.node = v.node"
  | T_cond (C_path_gt _) => "n.path > ?"
  | T_cond (C_path_lt _) => "n.path < ?"
  | T_cond (C_paths pathq) =>
      "(" ++ join_text " or " (map (fun _ => "n.path like ? escape '\'") pathq)
          ++ ")"
  | T_cond (C_key_in keys) =>
      "a.key in (" ++ join_text "," (map (fun _ => "?") keys) ++ ")"
  | T_cond (C_key_not_in keys) =>
      "a.key not in (" ++ join_text "," (map (fun _ => "?") keys) ++ ")"
  | T_cond (C_opers opers) =>
      "(" ++ join_text " or "
               (map (fun '(_, o, _) =>
                       "(a.key = ? and a.value " ++ op_text o ++ " ?)")
                    opers)
          ++ ")"
  end%string.

Definition where_text (toks : list sqltok) : string :=
  join_text " " (map tok_text toks).

Section QueryEngine.

  (** What this module takes from elsewhere: the engine's match of
      [n.path like escape_like(x) + '%' escape '\'] ([escape_like] is
      DBWorker's), and the Unicode classes of the code points above 127
      that [\w] and [\s] consult under [re.UNICODE]. *)
Variable like_prefix : ustring -> ustring -> bool.
Variable uni_word : Z -> bool.
Variable uni_space : Z -> bool.

(** *** The filter terms

    [_regexfilter], matched from the start of the term: an optional '!',
    spaces, one or more characters that are word characters or '-',
    spaces, an optional operator among == != <= >= < >, spaces, and the
    rest up to the end. *)

Definition is_space (c : Z) : bool :=
  if c <? 128
  then ((9 <=? c) && (c <=? 13)) || ((28 <=? c) && (c <=? 32))
  else uni_space c.

Definition is_word (c : Z) : bool :=
  if c <? 128
  then ((48 <=? c) && (c <=? 57)) || ((65 <=? c) && (c <=? 90))
       || ((97 <=? c) && (c <=? 122)) || (c =? 95)
  else uni_word c.

(** The spaces. *)
Fixpoint skip_spaces (s : ustring) : ustring :=
  match s with
  | c :: s' => if is_space c then skip_spaces s' else s
  | [] => []
  end.

(** The longest run of word characters and '-', and what follows. *)
Fixpoint take_key (s : ustring) : ustring * ustring :=
  match s with
  | c :: s' =>
      if is_word c || (c =? 45)
      then let (k, rest) := take_key s' in (c :: k, rest)
      else ([], s)
  | [] => ([], [])
  end.

(** The operator, if there is one, tried in the order == != <= >= < >. *)
Definition take_op (s : ustring) : option cmp_op * ustring :=
  match s with
  | 61 :: 61 :: rest => (Some Op_eq, rest)
  | 33 :: 61 :: rest => (Some Op_ne, rest)
  | 60 :: 61 :: rest => (Some Op_le, rest)
  | 62 :: 61 :: rest => (Some Op_ge, rest)
  | 60 :: rest => (Some Op_lt, rest)
  | 62 :: rest => (Some Op_gt, rest)
  | _ => (None, s)
  end.

(** The rest up to the end: it holds no newline but a last one, which
    is left out of the group. *)
Definition take_value (s : ustring) : option ustring :=
  if memZ 10 s then
    if (last s 0 =? 10) && negb (memZ 10 (removelast s))
    then Some (removelast s) else None
  else Some s.

(** [_regexfilter.match(term)]: the groups (neg, key, op, value). *)
Definition match_term (term : ustring)
  : option (bool * ustring * option cmp_op * ustring) :=
  let (neg, s1) := match term with
                   | 33 :: rest => (true, rest)
                   | _ => (false, term)
                   end in
  let (key, s2) := take_key (skip_spaces s1) in
  if is_empty key then None
  else
    let (op, s3) := take_op (skip_spaces s2) in
    match take_value (skip_spaces s3) with
    | Some value => Some (neg, key, op, value)
    | None => None
    end.

(** [_parse_filters]: (included, excluded, opers) *)
Fixpoint parse_terms (preterms : list ustring)
  : list ustring * list ustring * list (ustring * cmp_op * ustring) :=
  match preterms with
  | [] => ([], [], [])
  | term :: rest =>
      let '(included, excluded, opers) := parse_terms rest in
      match match_term term with
      | None => (included, excluded, opers)
      | Some (neg, key, op, value) =>
          if neg then (included, key :: excluded, opers)
          else if is_empty value then (key :: included, excluded, opers)
          else match op with
               | Some o => (included, excluded, (key, o, value) :: opers)
               | None => (included, excluded, opers)
               end
      end
  end.

Definition _parse_filters (filterq : ustring)
  : list ustring * list ustring * list (ustring * cmp_op * ustring) :=
  parse_terms (split_on 44 filterq).

(** [_construct_filters]: None, or the text that is appended to the
    query: a space and the sub-queries joined by [' and ']. *)
Definition _construct_filters (filterq : option ustring)
  : option (list sqltok) :=
  match filterq with
  | None | Some [] => None
  | Some filterq =>
      let '(included, excluded, opers) := _parse_filters filterq in
      let subqlist :=
        (if is_empty included then [] else [C_key_in included])
        ++ (if is_empty excluded then [] else [C_key_not_in excluded])
        ++ (match opers with [] => [] | _ => [C_opers opers] end) in
      match subqlist with
      | [] => None
      | _ => Some (and_join subqlist)
      end
  end.

(** [_construct_paths]: None, or " and (... or ...)". *)
Definition _construct_paths (pathq : list ustring) : option (list sqltok) :=
  match pathq with
  | [] => None
  | _ => Some [T_and; T_cond (C_paths pathq)]
  end.

(** *** The engine on the listing statement *)

(** A WHERE clause is conditions with an [and] between each two. *)
Fixpoint parse_where (toks : list sqltok) : option (list cond) :=
  match toks with
  | [T_cond c] => Some [c]
  | T_cond c :: T_and :: rest =>
      match parse_where rest with
      | Some cs => Some (c :: cs)
      | None => None
      end
  | _ => None
  end.

Definition compare_text (o : cmp_op) (a b : ustring) : bool :=
  match o with
  | Op_eq => ustr_eqb a b
  | Op_ne => negb (ustr_eqb a b)
  | Op_le => negb (ustr_ltb b a)
  | Op_ge => negb (ustr_ltb a b)
  | Op_lt => ustr_ltb a b
  | Op_gt => ustr_ltb b a
  end.

Definition is_latest (st : db) (before : bound) (v : version_row) : bool :=
  match max_serial (filter (fun w => (v_node w =? v_node v)
                                     && lt_bound (v_mtime w) before)
                           (versions st)) with
  | Some m => v_serial v =? m
  | None => false
  end.

(** A condition on a row (a, v, n) of the join; there is no [a] when the
    FROM list has no attributes. *)
Definition eval_cond (st : db) (c : cond)
    (a : option attr_row) (v : version_row) (n : node_row) : bool :=
  match c with
  | C_latest before => is_latest st before v
  | C_cluster_not cluster => negb (v_cluster v =? cluster)
  | C_child_of parent => memZ (v_node v) (children_of st parent)
  | C_attr_of_version =>
      match a with Some a => a_serial a =? v_serial v | None => false end
  | C_node_of_version => n_node n =? v_node v
  | C_path_gt start => ustr_ltb start (n_path n)
  | C_path_lt nextling => ustr_ltb (n_path n) nextling
  | C_paths pathq => existsb (fun x => like_prefix x (n_path n)) pathq
  | C_key_in keys =>
      match a with
      | Some a => existsb (ustr_eqb (a_key a)) keys
      | None => false
      end
  | C_key_not_in keys =>
      match a with
      | Some a => negb (existsb (ustr_eqb (a_key a)) keys)
      | None => false
      end
  | C_opers opers =>
      match a with
      | Some a =>
          existsb (fun '(k, o, value) =>
                     ustr_eqb (a_key a) k && compare_text o (a_value a) value)
                  opers
      | None => false
      end
  end.

Definition join_rows (st : db) (with_attributes : bool)
  : list (option attr_row * version_row * node_row) :=
  if with_attributes then
    flat_map (fun a =>
                flat_map (fun v => map (fun n => (Some a, v, n)) (nodes st))
                         (versions st))
             (attributes st)
  else
    flat_map (fun v => map (fun n => (None, v, n)) (nodes st)) (versions st).

(** select distinct n.path, v.serial ... order by n.path *)
Fixpoint distinct_rows (l : list (ustring * Z)) : list (ustring * Z) :=
  match l with
  | [] => []
  | r :: l' =>
      if existsb (fun x => ustr_eqb (fst r) (fst x) && (snd r =? snd x)) l'
      then distinct_rows l'
      else r :: distinct_rows l'
  end.

Fixpoint insert_row (r : ustring * Z) (l : list (ustring * Z))
  : list (ustring * Z) :=
  match l with
  | [] => [r]
  | x :: l' => if ustr_ltb (fst x) (fst r) then x :: insert_row r l'
               else r :: l
  end.

Definition order_by_path (l : list (ustring * Z)) : list (ustring * Z) :=
  fold_right insert_row [] l.

(** [execute(q, args)] then [fetchall()]: the rows, or the engine's
    refusal of a text that is not a statement. *)
Definition execute_select (st : db) (q : statement)
  : result (list (ustring * Z)) :=
  match parse_where (where_clause q) with
  | None => Raise OperationalError
  | Some conds =>
      let rows :=
        filter (fun '(a, v, n) => forallb (fun c => eval_cond st c a v n) conds)
               (join_rows st (from_attributes q)) in
      let sorted :=
        order_by_path
          (distinct_rows (map (fun '(a, v, n) => (n_path n, v_serial v)) rows)) in
      Ok (match limit_clause q with
          | Some k => if k <? 0 then sorted else firstn (Z.to_nat k) sorted
          | None => sorted
          end)
  end.

(** *** [latest_version_list] *)

(** The statement that [latest_version_list] builds, with [start] as
    [args[3]]. *)
Definition listing_statement (parent : Z) (start nextling : ustring)
    (before : bound) (except_cluster : Z) (pathq : list ustring)
    (filterq : option ustring) (limit : option Z) : statement :=
  let paths := match _construct_paths pathq with
               | Some subq => subq
               | None => []
               end in
  match _construct_filters filterq with
  | Some subq =>
      mk_statement true
        (and_join [C_latest before; C_cluster_not except_cluster;
                   C_child_of parent; C_attr_of_version; C_node_of_version;
                   C_path_gt start; C_path_lt nextling]
         ++ paths ++ subq)
        limit
  | None =>
      mk_statement false
        (and_join [C_latest before; C_cluster_not except_cluster;
                   C_child_of parent; C_node_of_version;
                   C_path_gt start; C_path_lt nextling]
         ++ paths)
        limit
  end.

(** The loop over the cursor. [requery s] is [execute(q, args)] after
    [args[3] = s]; [cursor] holds the rows not yet fetched. *)
Fixpoint scan (fuel : nat) (requery : ustring -> result (list (ustring * Z)))
    (pfz : Z) (delimiter : ustring) (limit : Z)
    (cursor : list (ustring * Z)) (count : Z)
    (matches : list (ustring * Z)) (prefixes : list ustring)
  : result (list (ustring * Z) * list ustring) :=
  match fuel with
  | O => Diverge
  | S fuel' =>
      match cursor with
      | [] => Ok (matches, prefixes)
      | props :: cursor' =>
          let path := fst props in
          let dz := ulen delimiter in
          let idx := ufind path delimiter pfz in
          if idx <? 0 then
            let matches := matches ++ [props] in
            let count := count + 1 in
            if count >=? limit then Ok (matches, prefixes)
            else scan fuel' requery pfz delimiter limit cursor' count
                      matches prefixes
          else if idx + dz =? ulen path then
            scan fuel' requery pfz delimiter limit cursor' (count + 1)
                 (matches ++ [props]) prefixes
          else
            let pf := firstn (Z.to_nat (idx + dz)) path in
            let prefixes := prefixes ++ [pf] in
            if count >=? limit then Ok (matches, prefixes)
            else
              s <~ strnextling pf ;;
              rows <~ requery s ;;
              scan fuel' requery pfz delimiter limit rows count
                   matches prefixes
      end
  end.

Definition latest_version_list (fuel : nat) (st : db)
    (parent : Z) (prefix : ustring) (delimiter : option ustring)
    (start : ustring) (limit : Z) (before : bound) (except_cluster : Z)
    (pathq : list ustring) (filterq : option ustring)
  : result (list (ustring * Z) * list ustring) :=
  let start := if is_empty start || ustr_ltb start prefix
               then strprevling prefix else start in
  nextling <~ strnextling prefix ;;
  let q := fun start limit =>
             listing_statement parent start nextling before except_cluster
                               pathq filterq limit in
  match delimiter with
  | None | Some [] =>
      rows <~ execute_select st (q start (Some limit)) ;;
      Ok (rows, [])
  | Some delimiter =>
      rows <~ execute_select st (q start None) ;;
      scan fuel (fun s => execute_select st (q s None))
           (ulen prefix) delimiter limit rows 0 [] []
  end.

End QueryEngine.

(** ** The other methods of the class

    The rows of a select without ORDER BY come in an order that the
    engine chooses; the lists below take the order of the table, and
    what is proved of them does not depend on it. *)

(** *** Properties of versions by name *)

Inductive value := V_int (z : Z) | V_text (s : ustring) | V_null.

(** The row of a version as the cursor gives it. *)
Definition version_props (v : version_row) : list value :=
  [V_int (v_serial v); V_int (v_node v); V_text (v_hash v); V_int (v_size v);
   match v_source v with Some s => V_int s | None => V_null end;
   V_int (v_mtime v); V_text (v_muser v); V_int (v_cluster v)].

Definition _propnames : list (ustring * nat) :=
  [(u "serial", 0%nat); (u "node", 1%nat); (u "hash", 2%nat);
   (u "size", 3%nat); (u "source", 4%nat); (u "mtime", 5%nat);
   (u "muser", 6%nat); (u "cluster", 7%nat)].

(** [propnames[k]] when [k in propnames] *)
Definition propname (k : ustring) : option nat :=
  match find (fun p => ustr_eqb (fst p) k) _propnames with
  | Some p => Some (snd p)
  | None => None
  end.

(** [[p[propnames[k]] for k in keys if k in propnames]] *)
Definition select_props (keys : list ustring) (p : list value) : list value :=
  flat_map (fun k => match propname k with
                     | Some i => [nth i p V_null]
                     | None => []
                     end) keys.

(** [version_get_properties] with its [keys] (and the default
    [propnames]): None if the serial is not found. *)
Definition version_get_properties_keys (st : db) (serial : Z)
    (keys : list ustring) : option (list value) :=
  match version_get_properties st serial with
  | None => None
  | Some r => Some (if is_empty keys then version_props r
                    else select_props keys (version_props r))
  end.

(** [node_get_versions] *)
Definition node_get_versions (st : db) (node : Z) (keys : list ustring)
  : list (list value) :=
  let r := map version_props
               (filter (fun v => v_node v =? node) (versions st)) in
  if is_empty keys then r else map (select_props keys) r.

(** *** Policy *)

Definition policy_at (node : Z) (key : ustring) (r : policy_row) : bool :=
  (p_node r =? node) && ustr_eqb (p_key r) key.

(** [policy_get]: the items of [dict(fetchall())]. *)
Definition policy_get (st : db) (node : Z) : list (ustring * ustring) :=
  map (fun r => (p_key r, p_value r))
      (filter (fun r => p_node r =? node) (policy st)).

(** insert or replace into policy (node, key, value), one row *)
Definition replace_policy (row : policy_row) : M unit :=
  st <- get ;;
  if node_exists st (p_node row) then
    put (mk_db (nodes st)
               (filter (fun r => negb (policy_at (p_node row) (p_key row) r))
                       (policy st) ++ [row])
               (statistics st) (versions st) (attributes st))
  else raise IntegrityError.

(** [policy_set]: [policy] holds the items of the dict, as
    [iteritems()] gives them. *)
Definition policy_set (node : Z) (policy : list (ustring * ustring))
  : M unit :=
  for_each policy (fun '(k, v) => replace_policy (mk_policy node k v)).

(** *** Attributes by key *)

(** [attribute_get] with its [keys]:
    select key, value from attributes where key in (?, ...) and serial = ? *)
Definition attribute_get_keys (st : db) (serial : Z) (keys : list ustring)
  : list (ustring * ustring) :=
  if is_empty keys then attribute_get st serial
  else
    map (fun a => (a_key a, a_value a))
        (filter (fun a => existsb (ustr_eqb (a_key a)) keys
                          && (a_serial a =? serial))
                (attributes st)).

Definition delete_attributes (sel : attr_row -> bool) : M unit :=
  st <- get ;;
  put (mk_db (nodes st) (policy st) (statistics st) (versions st)
             (filter (fun a => negb (sel a)) (attributes st))).

(** [attribute_del] *)
Definition attribute_del (serial : Z) (keys : list ustring) : M unit :=
  if is_empty keys then
    delete_attributes (fun a => a_serial a =? serial)
  else
    for_each keys (fun key => delete_attributes (attr_at serial key)).

(** What [statistics_latest] gives: its result, or the TypeError of
    [None - int]. *)
Inductive outcome (A : Type) :=
| Returns (a : A)
| TypeError.
Arguments Returns {A} a.
Arguments TypeError {A}.

Section Latest.

Variable like_prefix : ustring -> ustring -> bool.

(** *** [latest_attribute_keys] *)

(** The WHERE clause of its statement. *)
Definition attribute_keys_where (parent : Z) (before : bound)
    (except_cluster : Z) (pathq : list ustring) : list sqltok :=
  and_join [C_latest before; C_cluster_not except_cluster;
            C_child_of parent; C_attr_of_version; C_node_of_version]
  ++ match _construct_paths pathq with
     | Some subq => subq
     | None => []
     end.

(** select distinct a.key *)
Fixpoint distinct_keys (l : list ustring) : list ustring :=
  match l with
  | [] => []
  | k :: l' => if existsb (ustr_eqb k) l' then distinct_keys l'
               else k :: distinct_keys l'
  end.

Definition latest_attribute_keys (st : db) (parent : Z) (before : bound)
    (except_cluster : Z) (pathq : list ustring) : result (list ustring) :=
  match parse_where (attribute_keys_where parent before except_cluster pathq)
  with
  | None => Raise OperationalError
  | Some conds =>
      let rows :=
        filter (fun '(a, v, n) =>
                  forallb (fun c => eval_cond like_prefix st c a v n) conds)
               (join_rows st true) in
      Ok (distinct_keys
            (flat_map (fun '(a, v, n) =>
                         match a with
                         | Some a => [a_key a]
                         | None => []
                         end) rows))
  end.

(** *** [statistics_latest] *)

(** The latest versions before [before] outside [except_cluster], at
    the nodes that [sel] takes. *)
Definition latest_at (st : db) (before : bound) (except_cluster : Z)
    (sel : Z -> bool) : list version_row :=
  filter (fun v => is_latest st before v
                   && negb (v_cluster v =? except_cluster)
                   && sel (v_node v))
         (versions st).

(** [max(mtime, r[2])] for [r[2] = max(mtime)] over the rows, which is
    None on no rows and then below every number. *)
Definition max_mtime (mtime : Z) (vs : list version_row) : Z :=
  fold_right (fun v m => Z.max (v_mtime v) m) mtime vs.

Definition statistics_latest (st : db) (node : Z) (before : bound)
    (except_cluster : Z) : outcome (option (Z * Z * Z)) :=
  match node_get_properties st node with
  | None => Returns None
  | Some (parent, path) =>
      match
        match max_serial (filter (fun v => (v_node v =? node)
                                           && lt_bound (v_mtime v) before)
                                 (versions st)) with
        | None => None
        | Some m =>
            find (fun v => (v_serial v =? m)
                           && negb (v_cluster v =? except_cluster))
                 (versions st)
        end
      with
      | None => Returns None
      | Some props =>
          let mtime := v_mtime props in
          let r := latest_at st before except_cluster
                     (fun x => memZ x (children_of st node)) in
          let count := count r in
          let mtime := max_mtime mtime r in
          if count =? 0 then Returns (Some (0, 0, mtime))
          else
            let r := latest_at st before except_cluster
                       (fun x => memZ x
                          (map n_node
                             (filter (fun n => like_prefix path (n_path n))
                                     (nodes st)))) in
            match r with
            | [] => TypeError
            | _ => Returns (Some (count, sumZ (map v_size r) - v_size props,
                                  max_mtime mtime r))
            end
      end
  end.

End Latest.

(** ** Vocabulary of the properties *)

(** The primary keys of [versions] and [nodes]. *)
Definition pk_versions (st : db) : Prop := NoDup (map v_serial (versions st)).
Definition pk_nodes (st : db) : Prop := NoDup (map n_node (nodes st)).

Fixpoint distinctZ (l : list Z) : bool :=
  match l with
  | [] => true
  | x :: l' => negb (memZ x l') && distinctZ l'
  end.

(** [v] is the current version of [node] as of [before]: the version of
    the largest serial among those at [node] with [mtime < before]. *)
Definition current_version (st : db) (node : Z) (before : bound)
    (v : version_row) : Prop :=
  In v (versions st) /\ v_node v = node /\ lt_bound (v_mtime v) before = true /\
  forall w, In w (versions st) -> v_node w = node ->
            lt_bound (v_mtime w) before = true -> v_serial w <= v_serial v.

(** *** The tree

    [ancestors fuel ns node]: the nodes that the walk of
    [statistics_update_ancestors] visits from [node], nearest first: the
    parent, the parent's parent, and so on until the root (or a missing
    row); None when the walk does not end within the fuel. *)
Fixpoint ancestors (fuel : nat) (ns : list node_row) (node : Z)
  : option (list Z) :=
  match fuel with
  | O => None
  | S fuel' =>
      if node =? 0 then Some []
      else match find (fun r => n_node r =? node) ns with
           | None => Some []
           | Some r =>
               match ancestors fuel' ns (n_parent r) with
               | Some l => Some (n_parent r :: l)
               | None => None
               end
           end
  end.

(** [node] lies strictly under [top]: [top] is one of its ancestors. *)
Definition under (fuel : nat) (ns : list node_row) (node top : Z) : bool :=
  match ancestors fuel ns node with
  | Some l => memZ top l
  | None => false
  end.

(** [node] is a direct child of [top]. *)
Definition child_of (st : db) (node top : Z) : bool :=
  negb (node =? 0) &&
  match node_get_properties st node with
  | Some (parent, _) => parent =? top
  | None => false
  end.

(** *** Stored and actual statistics *)

(** The stored size and population of (node, cluster); 0 without a row,
    as [statistics_update] reads it. *)
Definition stat_size (st : db) (node cluster : Z) : Z :=
  match statistics_get st node cluster with
  | Some (_, size, _) => size
  | None => 0
  end.

Definition stat_population (st : db) (node cluster : Z) : Z :=
  match statistics_get st node cluster with
  | Some (population, _, _) => population
  | None => 0
  end.

(** The sum of size over the versions in [cluster] at the nodes strictly
    under [top]. *)
Definition size_under (fuel : nat) (st : db) (top cluster : Z) : Z :=
  total v_size
        (fun v => (v_cluster v =? cluster)
                  && under fuel (nodes st) (v_node v) top)
        (versions st).

(** The same sum with the versions at [top] itself included. *)
Definition size_at_or_under (fuel : nat) (st : db) (top cluster : Z) : Z :=
  total v_size
        (fun v => (v_cluster v =? cluster)
                  && ((v_node v =? top)
                      || under fuel (nodes st) (v_node v) top))
        (versions st).

(** The number of versions in [cluster] at the direct children of [top]. *)
Definition population_of_children (st : db) (top cluster : Z) : Z :=
  count (filter (fun v => (v_cluster v =? cluster)
                          && child_of st (v_node v) top)
                (versions st)).

Definition size_invariant (fuel : nat) (st : db) : Prop :=
  forall top cluster, stat_size st top cluster = size_under fuel st top cluster.

(** *** Integrity of the database

    What the engine and the way rows are created maintain: the primary
    keys, the foreign keys of [nodes.parent] and [versions.node], the
    root as its own parent, and a parent chain from every node that ends
    within [fuel] steps. *)
Record integrity (fuel : nat) (st : db) : Prop := mk_integrity
  { int_tree : forall node, ancestors fuel (nodes st) node <> None;
    int_pk_nodes : pk_nodes st;
    int_pk_versions : pk_versions st;
    int_root :
      forall r, In r (nodes st) -> n_node r = 0 -> n_parent r = 0;
    int_fk_parent :
      forall r, In r (nodes st) -> node_exists st (n_parent r) = true;
    int_fk_versions :
      forall v, In v (versions st) -> node_exists st (v_node v) = true }.

Definition is_some {A} (o : option A) : bool :=
  match o with Some _ => true | None => false end.

Definition integrityb (fuel : nat) (st : db) : bool :=
  negb (Nat.eqb fuel 0)
  && forallb (fun r => is_some (ancestors fuel (nodes st) (n_node r)))
             (nodes st)
  && distinctZ (map n_node (nodes st))
  && distinctZ (map v_serial (versions st))
  && forallb (fun r => negb (n_node r =? 0) || (n_parent r =? 0)) (nodes st)
  && forallb (fun r => node_exists st (n_parent r)) (nodes st)
  && forallb (fun v => node_exists st (v_node v)) (versions st).

(** The tables other than [statistics] are the same. *)
Definition same_rows (st st' : db) : Prop :=
  nodes st' = nodes st /\ policy st' = policy st /\
  versions st' = versions st /\ attributes st' = attributes st.

(** The nodes of [doomed] are leaves: no row but the root's names one of
    them as its parent. *)
Definition leaves (st : db) (doomed : list Z) : Prop :=
  forall r, In r (nodes st) -> n_node r <> 0 ->
            memZ (n_parent r) doomed = false.

(** *** The mutating operations *)

Inductive mutation :=
| CreateVersion (node : Z) (hash : ustring) (size : Z) (source : option Z)
                (muser : ustring) (cluster : Z)
| RemoveVersion (serial : Z)
| ReclusterVersion (serial cluster : Z)
| RemoveNode (node : Z)
| PurgeNodeVersions (node : Z) (before : bound) (cluster : Z)
| PurgeChildrenVersions (parent : Z) (before : bound) (cluster : Z).

Definition discard {A} (m : M A) : M unit := _ <- m ;; ret tt.

Definition apply_mutation (fuel : nat) (now : Z) (m : mutation) : M unit :=
  match m with
  | CreateVersion node hash size source muser cluster =>
      discard (version_create fuel now node hash size source muser cluster)
  | RemoveVersion serial => discard (version_remove fuel now serial)
  | ReclusterVersion serial cluster =>
      version_recluster fuel now serial cluster
  | RemoveNode node => discard (node_remove fuel now node)
  | PurgeNodeVersions node before cluster =>
      discard (node_purge fuel now node before cluster)
  | PurgeChildrenVersions parent before cluster =>
      discard (node_purge_children fuel now parent before cluster)
  end.

(** The nodes that a purge prunes (those it leaves without versions)
    have no children, and the purged children are not those of the root,
    which is its own parent. *)
Definition prunes_leaves (st : db) (m : mutation) : Prop :=
  match m with
  | PurgeNodeVersions node before cluster =>
      (forall v, In v (versions st) -> v_node v = node ->
                 purge_sel node before cluster v = true) ->
      node_count_children st node = 0
  | PurgeChildrenVersions parent before cluster =>
      parent <> 0 /\
      forall child,
        In child (children_of st parent) ->
        (forall v, In v (versions st) -> v_node v = child ->
                   purge_children_sel st parent before cluster v = true) ->
        node_count_children st child = 0
  | _ => True
  end.

(** The value of the attribute [key] of version [serial], if it has it. *)
Definition attribute_value (st : db) (serial : Z) (key : ustring)
  : option ustring :=
  match find (attr_at serial key) (attributes st) with
  | Some a => Some (a_value a)
  | None => None
  end.

(** The primary key of [attributes]. *)
Definition pk_attributes (st : db) : Prop :=
  NoDup (map (fun a => (a_serial a, a_key a)) (attributes st)).

(** [v] resides at a direct child of [parent]: at a node whose row has
    [parent] in its parent column. *)
Definition resides_at_child (st : db) (parent : Z) (v : version_row) : Prop :=
  exists r, In r (nodes st) /\ n_node r = v_node v /\ n_parent r = parent.

(** *** Entries of a listing

    [r] = (path, serial) is an entry under [parent]: the path of a node
    whose row names [parent] as its parent, and the serial of the node's
    current version as of [before], which is outside [except_cluster];
    with [pathq], the path matches one of its patterns. *)
Definition latest_entry (like_prefix : ustring -> ustring -> bool) (st : db)
    (parent : Z) (before : bound) (except_cluster : Z)
    (pathq : list ustring) (r : ustring * Z) : Prop :=
  exists n v,
    In n (nodes st) /\ In v (versions st) /\
    r = (n_path n, v_serial v) /\ n_parent n = parent /\
    current_version st (n_node n) before v /\
    v_cluster v <> except_cluster /\
    (pathq = [] \/ exists x, In x pathq /\ like_prefix x (n_path n) = true).

(** *** Entries of a listing with a delimiter *)



(** The order of [order by n.path] on rows: [r1] is not after [r2]. *)
Definition path_le (r1 r2 : ustring * Z) : Prop :=
  ustr_ltb (fst r2) (fst r1) = false.

(** The conditions of the listing statement without a filter. *)
Definition unfiltered_conds (parent : Z) (start nextling : ustring)
    (before : bound) (except_cluster : Z) (pathq : list ustring)
  : list cond :=
  [C_latest before; C_cluster_not except_cluster; C_child_of parent;
   C_node_of_version; C_path_gt start; C_path_lt nextling]
  ++ match pathq with [] => [] | _ => [C_paths pathq] end.

(** The rows that the listing statement without a LIMIT gives for
    [args[3] = start] (none when the statement is refused). *)
Definition listing_rows (like_prefix : ustring -> ustring -> bool)
    (uni_word uni_space : Z -> bool) (st : db) (parent : Z)
    (nextling : ustring) (before : bound) (except_cluster : Z)
    (pathq : list ustring) (filterq : option ustring) (start : ustring)
  : list (ustring * Z) :=
  match execute_select like_prefix st
          (listing_statement uni_word uni_space parent start nextling before
                             except_cluster pathq filterq None) with
  | Ok rows => rows
  | _ => []
  end.

(** Code points above 127 taken as neither word characters nor spaces,
    and LIKE on a prefix as [starts_with]: enough for ASCII samples. *)
Definition ascii_only (c : Z) : bool := false.

(** The state a computation leaves (the start state when it fails). *)
Definition run {A} (m : M A) (st : db) : db :=
  match m st with Ok (_, st') => st' | _ => st end.

(** The stored population of (N, c) is the number of versions in cluster
    c at the direct children of N. *)
Definition population_invariant (st : db) : Prop :=
  forall top cluster,
    stat_population st top cluster = population_of_children st top cluster.

(** The foreign key and the primary key of [attributes] and [policy]. *)
Definition fk_attributes (st : db) : Prop :=
  forall a, In a (attributes st) -> version_exists st (a_serial a) = true.

Definition pk_policy (st : db) : Prop :=
  NoDup (map (fun r => (p_node r, p_key r)) (policy st)).

(** The unique index on [nodes.path]. *)
Definition unique_paths (st : db) : Prop := NoDup (map n_path (nodes st)).

(** The stores that the methods build from the initial one: nodes
    created under a node of the store, the operations on versions and
    nodes (the purges when they prune leaves only), and the methods that
    write attributes and policies. *)
Inductive reachable : db -> Prop :=
| reach_init : reachable init_db
| reach_node_create st parent path node st' :
    reachable st -> node_exists st parent = true ->
    node_create parent path st = Ok (node, st') -> reachable st'
| reach_mutation st fuel now m st' :
    reachable st -> prunes_leaves st m ->
    apply_mutation fuel now m st = Ok (tt, st') -> reachable st'
| reach_attribute_set st serial items st' :
    reachable st -> attribute_set serial items st = Ok (tt, st') ->
    reachable st'
| reach_attribute_del st serial keys st' :
    reachable st -> attribute_del serial keys st = Ok (tt, st') ->
    reachable st'
| reach_attribute_copy st source dest st' :
    reachable st -> attribute_copy source dest st = Ok (tt, st') ->
    reachable st'
| reach_policy_set st node policy st' :
    reachable st -> policy_set node policy st = Ok (tt, st') ->
    reachable st'.

(** ** Sample databases *)

(** Node 1 = "a" under the root. *)
Definition db_one_node : db := run (node_create 0 (u "a")) init_db.

(** A version of size 5 at node 1, cluster 0. *)
Definition db_one_version : db :=
  run (version_create 2 10 1 (u "h1") 5 None (u "user") 0) db_one_node.

(** Node 2 = "a/b" under node 1 = "a", with a version of size 10 in
    cluster 0: an object in a container of an account. *)
Definition db_nested : db :=
  run (node_create 0 (u "a") ;;;
       node_create 1 (u "a/b") ;;;
       version_create 3 10 2 (u "h1") 10 None (u "user") 0)
      init_db.

(** Two versions at node 1 with attributes: version 1 has color and
    size, version 2 has color and owner. *)
Definition db_attributes : db :=
  run (node_create 0 (u "a") ;;;
       version_create 2 10 1 (u "h1") 5 None (u "user") 0 ;;;
       version_create 2 20 1 (u "h2") 7 (Some 1) (u "user") 0 ;;;
       attribute_set 1 [(u "color", u "red"); (u "size", u "big")] ;;;
       attribute_set 2 [(u "color", u "blue"); (u "owner", u "me")])
      init_db.

(** A chain root - 1 - 2 - 3 with a version at node 2 and one at node 3. *)
Definition db_chain : db :=
  run (node_create 0 (u "a") ;;;
       node_create 1 (u "a/b") ;;;
       node_create 2 (u "a/b/c") ;;;
       version_create 4 10 2 (u "h1") 10 None (u "user") 0 ;;;
       version_create 4 11 3 (u "h2") 7 None (u "user") 0)
      init_db.

(** Two paths that end with the delimiter, each with a version. *)
Definition db_markers : db :=
  run (node_create 0 (u "a/") ;;;
       node_create 0 (u "b/") ;;;
       version_create 2 10 1 (u "h1") 1 None (u "user") 0 ;;;
       version_create 2 11 2 (u "h2") 1 None (u "user") 0)
      init_db.

(** A path that ends with the delimiter and a path below it. *)
Definition db_marker_and_entry : db :=
  run (node_create 0 (u "a/") ;;;
       node_create 0 (u "a/x") ;;;
       version_create 2 10 1 (u "h1") 1 None (u "user") 0 ;;;
       version_create 2 11 2 (u "h2") 1 None (u "user") 0)
      init_db.

(** Node 1 = "a" under the root, with a version in cluster 0 and a later
    one in cluster 1. *)
Definition db_two_clusters : db :=
  run (node_create 0 (u "a") ;;;
       version_create 2 10 1 (u "h1") 5 None (u "user") 0 ;;;
       version_create 2 20 1 (u "h2") 7 None (u "user") 1)
      init_db.

(* ===================================================================== *)
(** * Part II: properties                                                 *)
(* ===================================================================== *)

(** Unfolding the monad of the methods. *)
Ltac unmonad := unfold bind, get, put, ret, raise.

(** ** Primary keys *)

Lemma NoDup_map_inj {A B} (f : A -> B) (l : list A) (a b : A) :
  NoDup (map f l) -> In a l -> In b l -> f a = f b -> a = b.
Proof.
  induction l as [|x l IH]; simpl; intros Hnd Ha Hb Hf; [contradiction|].
  inversion Hnd as [|? ? Hnotin Hnd']; subst.
  destruct Ha as [Ha|Ha], Hb as [Hb|Hb]; subst; auto.
  - exfalso. apply Hnotin. rewrite Hf. now apply in_map.
  - exfalso. apply Hnotin. rewrite <- Hf. now apply in_map.
Qed.

(** ** The engine's aggregates *)

Lemma max_serial_nil_iff vs : max_serial vs = None <-> vs = [].
Proof.
  destruct vs as [|v vs]; simpl; [tauto|].
  split; [|discriminate]. now destruct (max_serial vs).
Qed.

Lemma max_serial_bound vs m :
  max_serial vs = Some m -> forall w, In w vs -> v_serial w <= m.
Proof.
  revert m. induction vs as [|v vs IH]; simpl; intros m Hm w Hw; [contradiction|].
  destruct (max_serial vs) as [m'|] eqn:E.
  - injection Hm as <-. destruct Hw as [<-|Hw]; [lia|].
    specialize (IH m' eq_refl w Hw). lia.
  - injection Hm as <-. apply max_serial_nil_iff in E. subst vs.
    destruct Hw as [<-|[]]. lia.
Qed.

Lemma max_serial_attained vs m :
  max_serial vs = Some m -> exists w, In w vs /\ v_serial w = m.
Proof.
  revert m. induction vs as [|v vs IH]; simpl; intros m Hm; [discriminate|].
  destruct (max_serial vs) as [m'|] eqn:E.
  - injection Hm as <-. destruct (IH m' eq_refl) as (w & Hw & Hs).
    destruct (Z.max_spec (v_serial v) m') as [[_ ->]|[_ ->]]; eauto.
  - injection Hm as <-. eauto.
Qed.

(** ** Time travel: [version_lookup] *)

Lemma current_version_unique st node before v w :
  pk_versions st ->
  current_version st node before v -> current_version st node before w -> v = w.
Proof.
  intros Hpk (Hv & Hvn & Hvt & Hvmax) (Hw & Hwn & Hwt & Hwmax).
  apply (NoDup_map_inj v_serial (versions st)); auto.
  specialize (Hvmax w Hw Hwn Hwt). specialize (Hwmax v Hv Hvn Hvt). lia.
Qed.

Lemma version_lookup_sound st node before cluster v :
  pk_versions st ->
  version_lookup st node before cluster = Some v ->
  current_version st node before v /\ v_cluster v = cluster.
Proof.
  intros Hpk. unfold version_lookup.
  destruct (max_serial _) as [m|] eqn:Hmax; [|discriminate].
  intros Hfind. apply find_some in Hfind. destruct Hfind as (Hin & Hb).
  apply andb_prop in Hb. destruct Hb as (Hs%Z.eqb_eq & Hc%Z.eqb_eq).
  destruct (max_serial_attained _ _ Hmax) as (w & Hw & Hws).
  apply filter_In in Hw. destruct Hw as (Hwin & Hwb).
  assert (v = w) as ->.
  { apply (NoDup_map_inj v_serial (versions st)); auto. congruence. }
  apply andb_prop in Hwb. destruct Hwb as (Hn%Z.eqb_eq & Ht).
  repeat split; auto.
  intros x Hx Hxn Hxt. rewrite Hws.
  apply (max_serial_bound _ _ Hmax). apply filter_In. split; auto.
  now rewrite Hxn, Z.eqb_refl.
Qed.

Lemma version_lookup_complete st node before cluster v :
  pk_versions st ->
  current_version st node before v -> v_cluster v = cluster ->
  version_lookup st node before cluster = Some v.
Proof.
  intros Hpk (Hin & Hn & Ht & Hmaxv) Hc. unfold version_lookup.
  set (cand := filter _ (versions st)).
  assert (Hcand : In v cand).
  { apply filter_In. split; auto. now rewrite Hn, Z.eqb_refl. }
  destruct (max_serial cand) as [m|] eqn:Hmax.
  2:{ apply max_serial_nil_iff in Hmax. rewrite Hmax in Hcand. contradiction. }
  assert (Hm : m = v_serial v).
  { pose proof (max_serial_bound _ _ Hmax v Hcand) as Hle.
    destruct (max_serial_attained _ _ Hmax) as (w & Hw & Hws).
    apply filter_In in Hw. destruct Hw as (Hwin & Hwb).
    apply andb_prop in Hwb. destruct Hwb as (Hwn%Z.eqb_eq & Hwt).
    specialize (Hmaxv w Hwin Hwn Hwt). lia. }
  subst m.
  destruct (find _ (versions st)) as [x|] eqn:Hfind.
  - apply find_some in Hfind. destruct Hfind as (Hx & Hb).
    apply andb_prop in Hb. destruct Hb as (Hs%Z.eqb_eq & _).
    f_equal. apply (NoDup_map_inj v_serial (versions st)); auto.
  - apply (find_none _ _ Hfind) in Hin.
    rewrite Z.eqb_refl, Hc, Z.eqb_refl in Hin. discriminate.
Qed.

Lemma memZ_In x l : memZ x l = true <-> In x l.
Proof.
  unfold memZ. rewrite existsb_exists. split.
  - intros (y & Hy & ->%Z.eqb_eq). exact Hy.
  - intros H. exists x. split; [exact H | apply Z.eqb_refl].
Qed.

Lemma distinctZ_NoDup l : distinctZ l = true -> NoDup l.
Proof.
  induction l as [|x l IH]; simpl; intros H; constructor.
  - apply andb_prop in H. destruct H as (H & _).
    intros Hin%memZ_In. rewrite Hin in H. discriminate.
  - apply IH. apply andb_prop in H. tauto.
Qed.

(** C1 (as amended): [version_lookup] returns the current version of the
    node as of [before], that is the version of the largest serial among
    ALL versions at the node with [mtime < before], whatever their
    cluster, when that version is in the requested cluster; it returns
    None exactly when the node has no current version in that cluster
    (no version before the bound, or the current one is in another
    cluster). *)
Theorem version_lookup_current st node before cluster
    (Hpk : pk_versions st) :
  (forall v, version_lookup st node before cluster = Some v <->
             current_version st node before v /\ v_cluster v = cluster) /\
  (version_lookup st node before cluster = None <->
   forall v, current_version st node before v -> v_cluster v <> cluster).
Proof.
  split.
  - intros v. split.
    + now apply version_lookup_sound.
    + intros (Hcur & Hc). now apply version_lookup_complete.
  - split.
    + intros Hnone v Hcur Hc.
      rewrite (version_lookup_complete st node before cluster v) in Hnone;
        auto; discriminate.
    + intros Hall.
      destruct (version_lookup st node before cluster) as [v|] eqn:E; auto.
      apply version_lookup_sound in E; auto. destruct E as (Hcur & Hc).
      now elim (Hall v Hcur).
Qed.

Lemma version_lookup_current_witness :
  pk_versions db_two_clusters /\
  exists v, version_lookup db_two_clusters 1 Inf 1 = Some v /\
            current_version db_two_clusters 1 Inf v /\ v_cluster v = 1.
Proof.
  assert (Hpk : pk_versions db_two_clusters)
    by (apply distinctZ_NoDup; reflexivity).
  split; [exact Hpk|].
  eexists. split; [reflexivity|].
  apply (version_lookup_current db_two_clusters 1 Inf 1 Hpk). reflexivity.
Defined.

(** C1 (as stated) fails: node 1 has a version in cluster 0 with a finite
    mtime, so the set of versions at node 1, cluster 0, before +infinity
    is not empty, and yet the lookup in cluster 0 finds nothing, because
    the newest version at the node is in cluster 1. *)
Lemma version_lookup_cluster_counterexample :
  pk_versions db_two_clusters /\
  (exists v, In v (versions db_two_clusters) /\ v_node v = 1 /\
             v_cluster v = 0 /\ lt_bound (v_mtime v) Inf = true /\
             forall w, In w (versions db_two_clusters) -> v_node w = 1 ->
                       v_cluster w = 0 -> lt_bound (v_mtime w) Inf = true ->
                       v_serial w <= v_serial v) /\
  version_lookup db_two_clusters 1 Inf 0 = None.
Proof.
  split; [apply distinctZ_NoDup; reflexivity|]. split; [|reflexivity].
  exists (mk_version 1 1 (u "h1") 5 None 10 (u "user") 0).
  repeat split; try (now left).
  intros w Hw _ Hc _. vm_compute in Hw.
  destruct Hw as [<-|[<-|[]]]; simpl in *; lia.
Qed.

(** ** The tree *)

Lemma ancestors_more fuel ns node l :
  ancestors fuel ns node = Some l ->
  forall fuel', (fuel <= fuel')%nat -> ancestors fuel' ns node = Some l.
Proof.
  revert node l. induction fuel as [|fuel IH]; simpl; intros node l H fuel' Hle;
    [discriminate|].
  destruct fuel' as [|fuel']; [lia|]. simpl.
  destruct (node =? 0); auto.
  destruct (find _ ns) as [r|]; auto.
  destruct (ancestors fuel ns (n_parent r)) as [l'|] eqn:E; [|discriminate].
  rewrite (IH _ _ E fuel') by lia. exact H.
Qed.

Lemma ancestors_cons fuel ns node p l :
  ancestors fuel ns node = Some (p :: l) ->
  node <> 0 /\
  (exists r, find (fun r => n_node r =? node) ns = Some r /\ n_parent r = p) /\
  ancestors fuel ns p = Some l.
Proof.
  destruct fuel as [|fuel]; simpl; [discriminate|].
  destruct (Z.eqb_spec node 0); [discriminate|].
  destruct (find _ ns) as [r|] eqn:Hr; [|discriminate].
  destruct (ancestors fuel ns (n_parent r)) as [l'|] eqn:E; [|discriminate].
  intros [= <- <-]. repeat split; eauto.
  exact (ancestors_more _ _ _ _ E (S fuel) (Nat.le_succ_diag_r fuel)).
Qed.

Lemma ancestors_suffix fuel ns a : forall node p b,
  ancestors fuel ns node = Some (a ++ p :: b) ->
  ancestors fuel ns p = Some b.
Proof.
  induction a as [|x a IH]; simpl; intros node p b H;
    apply ancestors_cons in H; destruct H as (_ & _ & H); eauto.
Qed.

Lemma ancestors_NoDup fuel ns l : forall node,
  ancestors fuel ns node = Some l -> NoDup l.
Proof.
  induction l as [|x l IH]; intros node H; constructor.
  - apply ancestors_cons in H. destruct H as (_ & _ & H).
    intros Hin. apply in_split in Hin. destruct Hin as (a & b & ->).
    pose proof (ancestors_suffix _ _ _ _ _ _ H) as H'.
    rewrite H in H'. injection H' as H'.
    apply (f_equal (@List.length Z)) in H'.
    rewrite length_app in H'. simpl in H'. lia.
  - apply ancestors_cons in H. destruct H as (_ & _ & H). eauto.
Qed.

Lemma ancestors_are_parents fuel ns l : forall node p,
  ancestors fuel ns node = Some l -> In p l ->
  exists r, In r ns /\ n_node r <> 0 /\ n_parent r = p.
Proof.
  induction l as [|x l IH]; intros node p H Hin; [contradiction|].
  apply ancestors_cons in H. destruct H as (Hn & (r & Hr & Hp) & H).
  destruct Hin as [<-|Hin]; [|eauto].
  apply find_some in Hr. destruct Hr as (Hr & He%Z.eqb_eq).
  exists r. rewrite He. auto.
Qed.

(** ** Statistics rows *)

Lemma same_rows_refl st : same_rows st st.
Proof. repeat split. Qed.

Lemma same_rows_trans st1 st2 st3 :
  same_rows st1 st2 -> same_rows st2 st3 -> same_rows st1 st3.
Proof. unfold same_rows. intuition congruence. Qed.

Lemma node_exists_same st st' node :
  same_rows st st' -> node_exists st' node = node_exists st node.
Proof. intros (Hn & _). unfold node_exists. now rewrite Hn. Qed.

Lemma stat_at_key node cluster r :
  stat_at node cluster r = true <-> s_node r = node /\ s_cluster r = cluster.
Proof. unfold stat_at. rewrite andb_true_iff, !Z.eqb_eq. tauto. Qed.

Lemma find_stat_replace l row top cluster :
  find (stat_at top cluster)
       (filter (fun r => negb (stat_at (s_node row) (s_cluster row) r)) l
        ++ [row]) =
  if stat_at top cluster row then Some row else find (stat_at top cluster) l.
Proof.
  induction l as [|r l IH]; simpl.
  - now destruct (stat_at top cluster row).
  - destruct (stat_at (s_node row) (s_cluster row) r) eqn:Er; simpl.
    + rewrite IH. destruct (stat_at top cluster row) eqn:Erow; auto.
      destruct (stat_at top cluster r) eqn:Etop; auto.
      apply stat_at_key in Er, Etop.
      assert (stat_at top cluster row = true) by (apply stat_at_key; intuition congruence).
      congruence.
    + destruct (stat_at top cluster r) eqn:Etop.
      * destruct (stat_at top cluster row) eqn:Erow; auto.
        apply stat_at_key in Erow, Etop.
        assert (stat_at (s_node row) (s_cluster row) r = true)
          by (apply stat_at_key; intuition congruence).
        congruence.
      * exact IH.
Qed.

Lemma find_stat_put l node population size mtime cluster top c :
  find (stat_at top c)
       (filter (fun r => negb (stat_at node cluster r)) l
        ++ [mk_stat node population size mtime cluster]) =
  if (top =? node) && (c =? cluster)
  then Some (mk_stat node population size mtime cluster)
  else find (stat_at top c) l.
Proof.
  rewrite (find_stat_replace l (mk_stat node population size mtime cluster)).
  unfold stat_at at 1. simpl.
  now rewrite (Z.eqb_sym node top), (Z.eqb_sym cluster c).
Qed.

Lemma statistics_update_spec st node population size mtime cluster :
  node_exists st node = true ->
  exists st',
    statistics_update node population size mtime cluster st = Ok (tt, st') /\
    same_rows st st' /\
    (forall top c, stat_size st' top c =
                   stat_size st top c +
                   (if (top =? node) && (c =? cluster) then size else 0)) /\
    (forall top c, stat_population st' top c =
                   stat_population st top c +
                   (if (top =? node) && (c =? cluster) then population else 0)).
Proof.
  intros Hex. unfold statistics_update, replace_statistics, bind, get, put, raise.
  destruct (find (stat_at node cluster) (statistics st)) as [r0|] eqn:Hfind;
    simpl; rewrite Hex; (eexists; split; [reflexivity|]);
    (split; [repeat split|]);
    (split; intros top c; unfold stat_size, stat_population, statistics_get;
     simpl; rewrite find_stat_put;
     destruct ((top =? node) && (c =? cluster)) eqn:Ek; simpl;
     try (apply andb_prop in Ek; destruct Ek as (->%Z.eqb_eq & ->%Z.eqb_eq);
          rewrite ?Hfind; lia);
     destruct (find (stat_at top c) (statistics st)) as [[]|]; simpl; lia).
Qed.

Lemma statistics_update_ancestors_spec fuel :
  forall st node population size mtime cluster l,
  ancestors fuel (nodes st) node = Some l ->
  (forall p, In p l -> node_exists st p = true) ->
  exists st',
    statistics_update_ancestors fuel node population size mtime cluster st
      = Ok (tt, st') /\
    same_rows st st' /\
    (forall top c, stat_size st' top c =
                   stat_size st top c +
                   (if c =? cluster
                    then size * count (filter (Z.eqb top) l) else 0)) /\
    (forall top c, stat_population st' top c =
                   stat_population st top c +
                   (if (c =? cluster)
                       && match l with p :: _ => top =? p | [] => false end
                    then population else 0)).
Proof.
  induction fuel as [|fuel IH]; intros st node population size mtime cluster l
    Hanc Hex; [discriminate|].
  simpl in Hanc. simpl.
  destruct (node =? 0).
  { injection Hanc as <-. exists st. split; [reflexivity|].
    split; [apply same_rows_refl|].
    split; intros top c; simpl; rewrite ?andb_false_r;
      destruct (c =? cluster); unfold count; simpl; lia. }
  unfold bind at 1, get at 1. unfold node_get_properties.
  destruct (find _ (nodes st)) as [r|] eqn:Hr.
  2:{ injection Hanc as <-. exists st. split; [reflexivity|].
      split; [apply same_rows_refl|].
      split; intros top c; simpl; rewrite ?andb_false_r;
        destruct (c =? cluster); unfold count; simpl; lia. }
  destruct (ancestors fuel (nodes st) (n_parent r)) as [l'|] eqn:E;
    [|discriminate].
  injection Hanc as <-.
  destruct (statistics_update_spec st (n_parent r) population size mtime cluster)
    as (st1 & Hrun1 & Hsame1 & Hsize1 & Hpop1).
  { apply Hex. now left. }
  destruct (IH st1 (n_parent r) 0 size mtime cluster l') as
    (st2 & Hrun2 & Hsame2 & Hsize2 & Hpop2).
  { destruct Hsame1 as (-> & _). exact E. }
  { intros p Hp. rewrite (node_exists_same st st1) by exact Hsame1.
    apply Hex. now right. }
  exists st2. unfold bind. rewrite Hrun1, Hrun2.
  split; [reflexivity|]. split; [eapply same_rows_trans; eauto|].
  split; intros top c.
  - rewrite Hsize2, Hsize1. simpl.
    destruct (Z.eqb_spec top (n_parent r)) as [->|Hne];
      destruct (c =? cluster); simpl; unfold count in *; simpl; lia.
  - rewrite Hpop2, Hpop1.
    rewrite (andb_comm (c =? cluster) (top =? n_parent r)).
    destruct ((top =? n_parent r) && (c =? cluster));
      match goal with |- context [if ?b then 0 else 0] => destruct b end; lia.
Qed.

(** ** Sums over selected rows *)

Lemma sumZ_app l1 l2 : sumZ (l1 ++ l2) = sumZ l1 + sumZ l2.
Proof. induction l1 as [|x l1 IH]; simpl; lia. Qed.

Lemma filter_all {A} (f : A -> bool) (l : list A) :
  (forall x, In x l -> f x = true) -> filter f l = l.
Proof.
  induction l as [|x l IH]; simpl; intros H; auto.
  rewrite (H x) by now left. f_equal. apply IH. intros y Hy. apply H. now right.
Qed.

Lemma find_absent {A} (f : A -> bool) (l : list A) :
  (forall x, In x l -> f x = false) -> find f l = None.
Proof.
  induction l as [|x l IH]; simpl; intros H; auto.
  rewrite (H x) by now left. apply IH. intros y Hy. apply H. now right.
Qed.

Lemma filter_none {A} (f : A -> bool) (l : list A) :
  (forall x, In x l -> f x = false) -> filter f l = [].
Proof.
  induction l as [|x l IH]; simpl; intros H; auto.
  rewrite (H x) by now left. apply IH. intros y Hy. apply H. now right.
Qed.

Section Sums.
Variable A : Type.
Variable f : A -> Z.
Variable P : A -> bool.

Lemma total_app l1 l2 : total f P (l1 ++ l2) = total f P l1 + total f P l2.
Proof. unfold total. now rewrite filter_app, map_app, sumZ_app. Qed.

Lemma total_split (sel : A -> bool) l :
  total f P l = total f P (filter sel l)
                + total f P (filter (fun x => negb (sel x)) l).
Proof.
  unfold total. induction l as [|x l IH]; simpl; auto.
  destruct (sel x), (P x) eqn:E; simpl; rewrite ?E; simpl; lia.
Qed.

Lemma total_none l : (forall x, In x l -> P x = false) -> total f P l = 0.
Proof. intros H. unfold total. now rewrite filter_none. Qed.

Lemma total_all l : (forall x, In x l -> P x = true) ->
                    total f P l = sumZ (map f l).
Proof. intros H. unfold total. now rewrite filter_all. Qed.
End Sums.
Arguments total_app {A} f P l1 l2.
Arguments total_split {A} f P sel l.
Arguments total_none {A} f P l.
Arguments total_all {A} f P l.

Lemma total_ext {A} (f : A -> Z) (P Q : A -> bool) l :
  (forall x, In x l -> P x = Q x) -> total f P l = total f Q l.
Proof. intros H. unfold total. now rewrite (filter_ext_in P Q l H). Qed.

(** Rows of a table with a primary key. *)
Lemma pk_filter_singleton {A} (key : A -> Z) (l : list A) (x : A) :
  NoDup (map key l) -> In x l ->
  filter (fun y => key y =? key x) l = [x].
Proof.
  induction l as [|y l IH]; simpl; intros Hnd Hin; [contradiction|].
  inversion Hnd as [|? ? Hnotin Hnd']; subst.
  destruct Hin as [->|Hin].
  - rewrite Z.eqb_refl. f_equal. apply filter_none.
    intros z Hz. apply Z.eqb_neq. intros He. apply Hnotin.
    rewrite <- He. now apply in_map.
  - destruct (Z.eqb_spec (key y) (key x)) as [He|Hne]; [|now apply IH].
    exfalso. apply Hnotin. rewrite He. now apply in_map.
Qed.

Lemma pk_find {A} (key : A -> Z) (l : list A) (x : A) :
  NoDup (map key l) -> In x l ->
  find (fun y => key y =? key x) l = Some x.
Proof.
  intros Hnd Hin.
  destruct (find _ l) as [y|] eqn:E.
  - apply find_some in E. destruct E as (Hy & He%Z.eqb_eq).
    f_equal. now apply (NoDup_map_inj key l).
  - apply (find_none _ _ E) in Hin. rewrite Z.eqb_refl in Hin. discriminate.
Qed.

Lemma NoDup_map_filter {A} (key : A -> Z) (g : A -> bool) (l : list A) :
  NoDup (map key l) -> NoDup (map key (filter g l)).
Proof.
  induction l as [|x l IH]; simpl; intros Hnd; auto.
  inversion Hnd as [|? ? Hnotin Hnd']; subst.
  destruct (g x); simpl; auto. constructor; auto.
  intros Hin. apply Hnotin. apply in_map_iff in Hin.
  destruct Hin as (y & Hy & Hin). apply filter_In in Hin.
  apply in_map_iff. exists y. tauto.
Qed.

Lemma next_rowid_fresh ids x : In x ids -> x < next_rowid ids.
Proof.
  unfold next_rowid. induction ids as [|y ids IH]; simpl; [contradiction|].
  intros [->|Hin]; [lia|]. specialize (IH Hin). lia.
Qed.

(** ** Integrity *)

Lemma integrity_fuel fuel st : integrity fuel st -> fuel <> O.
Proof. intros H ->. now apply (int_tree _ _ H 0). Qed.

Lemma node_exists_In st node :
  node_exists st node = true <-> exists r, In r (nodes st) /\ n_node r = node.
Proof.
  unfold node_exists. rewrite existsb_exists.
  split; intros (r & Hr & He); exists r; split; auto;
    now apply Z.eqb_eq.
Qed.

Lemma integrity_ancestors fuel st node :
  integrity fuel st ->
  exists l, ancestors fuel (nodes st) node = Some l /\ NoDup l /\
            forall p, In p l -> node_exists st p = true.
Proof.
  intros Hint.
  destruct (ancestors fuel (nodes st) node) as [l|] eqn:E.
  2:{ now elim (int_tree _ _ Hint node). }
  exists l. split; [reflexivity|]. split; [eapply ancestors_NoDup; eauto|].
  intros p Hp.
  destruct (ancestors_are_parents _ _ _ _ _ E Hp) as (r & Hr & _ & <-).
  now apply (int_fk_parent _ _ Hint).
Qed.

Lemma integrity_same_rows fuel st st' :
  same_rows st st' -> integrity fuel st -> integrity fuel st'.
Proof.
  intros (Hn & _ & Hv & _) [H1 H2 H3 H4 H5 H6].
  constructor; unfold pk_nodes, pk_versions, node_exists in *;
    rewrite ?Hn, ?Hv; auto.
Qed.

Create HintDb pithos.
#[local] Hint Resolve same_rows_refl same_rows_trans integrity_same_rows : pithos.

Lemma size_under_same fuel st st' top c :
  nodes st' = nodes st -> versions st' = versions st ->
  size_under fuel st' top c = size_under fuel st top c.
Proof. intros Hn Hv. unfold size_under. now rewrite Hn, Hv. Qed.

Lemma occurrences_NoDup top l :
  NoDup l -> count (filter (Z.eqb top) l) = if memZ top l then 1 else 0.
Proof.
  unfold count, memZ. induction l as [|x l IH]; simpl; intros Hnd; auto.
  inversion Hnd as [|? ? Hnotin Hnd']; subst.
  destruct (Z.eqb_spec top x) as [->|Hne]; simpl; [|now apply IH].
  rewrite filter_none; [reflexivity|].
  intros y Hy. apply Z.eqb_neq. intros ->. contradiction.
Qed.

(** The walk of [statistics_update_ancestors] ends and adds the size to
    the row of every node that [node] lies strictly under. *)
Lemma walk_size fuel st node population size mtime cluster :
  integrity fuel st ->
  exists st',
    statistics_update_ancestors fuel node population size mtime cluster st
      = Ok (tt, st') /\
    same_rows st st' /\
    forall top c, stat_size st' top c =
                  stat_size st top c +
                  (if (c =? cluster) && under fuel (nodes st) node top
                   then size else 0).
Proof.
  intros Hint.
  destruct (integrity_ancestors fuel st node Hint) as (l & Hl & Hnd & Hex).
  destruct (statistics_update_ancestors_spec fuel st node population size
              mtime cluster l Hl Hex) as (st' & Hrun & Hsame & Hsize & _).
  exists st'. split; [exact Hrun|]. split; [exact Hsame|].
  intros top c. rewrite Hsize. unfold under. rewrite Hl.
  rewrite (occurrences_NoDup top l Hnd).
  destruct (c =? cluster), (memZ top l); simpl; lia.
Qed.

(** ** [version_create] *)

Lemma version_create_spec fuel now st node hash size source muser cluster :
  integrity fuel st -> size_invariant fuel st ->
  node_exists st node = true ->
  exists serial st',
    version_create fuel now node hash size source muser cluster st
      = Ok ((serial, now), st') /\
    integrity fuel st' /\ size_invariant fuel st'.
Proof.
  intros Hint Hinv Hex.
  set (serial := next_rowid (map v_serial (versions st))).
  set (vnew := mk_version serial node hash size source now muser cluster).
  set (st0 := mk_db (nodes st) (policy st) (statistics st)
                    (versions st ++ [vnew]) (attributes st)).
  assert (Hint0 : integrity fuel st0).
  { destruct Hint as [H1 H2 H3 H4 H5 H6]. constructor; auto.
    - unfold pk_versions, st0. simpl. rewrite map_app. simpl.
      apply NoDup_app; auto.
      + repeat constructor. intros [].
      + intros x Hx [<-|[]]. apply next_rowid_fresh in Hx. fold serial in Hx. lia.
    - intros v Hv. unfold st0 in Hv. simpl in Hv. apply in_app_or in Hv.
      destruct Hv as [Hv|[<-|[]]]; [now apply H6 | exact Hex]. }
  destruct (walk_size fuel st0 node 1 size now cluster Hint0)
    as (st1 & Hrun & Hsame & Hsize).
  exists serial, st1. split.
  - unfold version_create, bind, get, put, ret. rewrite Hex.
    fold serial. fold vnew. fold st0. now rewrite Hrun.
  - split; [eapply integrity_same_rows; eauto|].
    intros top c. rewrite Hsize.
    destruct Hsame as (Hn & _ & Hv & _).
    rewrite (size_under_same fuel st0 st1 top c Hn Hv).
    change (stat_size st0 top c) with (stat_size st top c).
    rewrite (Hinv top c).
    unfold size_under, st0. simpl. rewrite total_app. f_equal.
    unfold total. simpl.
    destruct ((cluster =? c) && under fuel (nodes st) node top) eqn:E;
      rewrite (Z.eqb_sym c cluster), E; simpl; lia.
Qed.

(** ** Deleting and updating versions *)

Lemma integrity_delete_versions fuel sel st :
  integrity fuel st -> integrity fuel (delete_versions sel st).
Proof.
  intros [H1 H2 H3 H4 H5 H6]. constructor; auto.
  - unfold pk_versions. simpl. now apply NoDup_map_filter.
  - intros v Hv. simpl in Hv. apply filter_In in Hv. now apply H6.
Qed.

Lemma size_under_delete_versions fuel sel st top c :
  size_under fuel (delete_versions sel st) top c =
  size_under fuel st top c
  - total v_size
          (fun v => (v_cluster v =? c) && under fuel (nodes st) (v_node v) top)
          (filter sel (versions st)).
Proof.
  unfold size_under. simpl.
  rewrite (total_split v_size _ sel (versions st)). lia.
Qed.

Lemma total_update (f : version_row -> Z) P s g vs v :
  NoDup (map v_serial vs) -> In v vs -> v_serial v = s ->
  total f P (map (fun x => if v_serial x =? s then g x else x) vs) =
  total f P vs - (if P v then f v else 0) + (if P (g v) then f (g v) else 0).
Proof.
  intros Hnd Hin Hs. induction vs as [|x vs IH]; [contradiction|].
  inversion Hnd as [|? ? Hnotin Hnd']; subst.
  change (x :: vs) with ([x] ++ vs). rewrite map_app, !total_app.
  destruct Hin as [->|Hin].
  - rewrite (map_ext_in _ (fun x => x) vs).
    2:{ intros y Hy. destruct (Z.eqb_spec (v_serial y) (v_serial v)) as [He|]; auto.
        elim Hnotin. rewrite <- He. now apply in_map. }
    rewrite map_id. unfold total. simpl. rewrite Z.eqb_refl.
    destruct (P v), (P (g v)); simpl; lia.
  - rewrite (IH Hnd' Hin). unfold total at 1 3. simpl.
    destruct (Z.eqb_spec (v_serial x) (v_serial v)) as [He|]; [|lia].
    elim Hnotin. rewrite He. now apply in_map.
Qed.

(** ** [version_remove] *)

Lemma version_remove_spec fuel now st serial :
  integrity fuel st -> size_invariant fuel st ->
  exists hash st',
    version_remove fuel now serial st = Ok (hash, st') /\
    integrity fuel st' /\ size_invariant fuel st'.
Proof.
  intros Hint Hinv. unfold version_remove, bind at 1, get at 1.
  unfold version_get_properties.
  destruct (find _ (versions st)) as [v|] eqn:Hfind.
  2:{ exists None, st. split; [reflexivity | split; assumption]. }
  apply find_some in Hfind. destruct Hfind as (Hin & Hs%Z.eqb_eq).
  destruct (walk_size fuel st (v_node v) (-1) (- v_size v) now (v_cluster v) Hint)
    as (st1 & Hrun & Hsame & Hsize).
  exists (Some (v_hash v)), (delete_versions (fun x => v_serial x =? serial) st1).
  split; [unmonad; now rewrite Hrun|].
  assert (Hint1 : integrity fuel st1) by eauto with pithos.
  split; [now apply integrity_delete_versions|].
  intros top c. rewrite size_under_delete_versions.
  change (stat_size (delete_versions _ st1) top c) with (stat_size st1 top c).
  destruct Hsame as (Hn & _ & Hv & _).
  rewrite Hsize, (Hinv top c), (size_under_same fuel st st1 top c Hn Hv).
  rewrite Hn, Hv. subst serial.
  rewrite (pk_filter_singleton v_serial (versions st) v (int_pk_versions _ _ Hint) Hin).
  unfold total. simpl.
  destruct ((v_cluster v =? c) && under fuel (nodes st) (v_node v) top) eqn:E;
    rewrite (Z.eqb_sym c), E; simpl; lia.
Qed.

(** ** [version_recluster] *)

Lemma version_recluster_spec fuel now st serial cluster :
  integrity fuel st -> size_invariant fuel st ->
  exists st',
    version_recluster fuel now serial cluster st = Ok (tt, st') /\
    integrity fuel st' /\ size_invariant fuel st'.
Proof.
  intros Hint Hinv. unfold version_recluster, bind at 1, get at 1.
  unfold version_get_properties.
  destruct (find _ (versions st)) as [v|] eqn:Hfind.
  2:{ exists st. split; [reflexivity | split; assumption]. }
  destruct (cluster =? v_cluster v) eqn:Hc.
  { exists st. split; [reflexivity | split; assumption]. }
  apply find_some in Hfind. destruct Hfind as (Hin & Hs%Z.eqb_eq).
  destruct (walk_size fuel st (v_node v) (-1) (- v_size v) now (v_cluster v) Hint)
    as (st1 & Hrun1 & Hsame1 & Hsize1).
  assert (Hint1 : integrity fuel st1) by eauto with pithos.
  destruct (walk_size fuel st1 (v_node v) 1 (v_size v) now cluster Hint1)
    as (st2 & Hrun2 & Hsame2 & Hsize2).
  assert (Hint2 : integrity fuel st2) by eauto with pithos.
  pose proof (same_rows_trans _ _ _ Hsame1 Hsame2) as (Hn & _ & Hv & _).
  eexists. split; [unmonad; rewrite Hrun1, Hrun2; reflexivity|].
  split.
  - destruct Hint2 as [H1 H2 H3 H4 H5 H6]. constructor; auto.
    + unfold pk_versions. simpl. rewrite map_map.
      rewrite (map_ext _ v_serial); [exact H3|].
      intros x. now destruct (v_serial x =? serial).
    + intros x Hx. simpl in Hx. apply in_map_iff in Hx.
      destruct Hx as (y & <- & Hy). specialize (H6 y Hy).
      now destruct (v_serial y =? serial).
  - intros top c. unfold size_under. simpl.
    match goal with |- stat_size ?s top c = _ =>
      change (stat_size s top c) with (stat_size st2 top c) end.
    rewrite Hn, Hv.
    rewrite (total_update v_size _ serial (set_cluster cluster) (versions st) v
               (int_pk_versions _ _ Hint) Hin Hs).
    rewrite Hsize2, Hsize1, (Hinv top c). unfold size_under. simpl.
    destruct Hsame1 as (-> & _).
    rewrite (Z.eqb_sym c (v_cluster v)), (Z.eqb_sym c cluster).
    destruct (v_cluster v =? c), (cluster =? c),
      (under fuel (nodes st) (v_node v) top); simpl; lia.
Qed.

(** ** Deleting leaf nodes *)

Lemma cascade_leaves k st doomed :
  integrity (S k) st -> leaves st doomed ->
  forall j, cascade j (nodes st) doomed = doomed.
Proof.
  intros Hint Hleaves. induction j as [|j IH]; simpl; auto.
  rewrite filter_none; [now rewrite app_nil_r|].
  intros r Hr. destruct (Z.eq_dec (n_node r) 0) as [Hz|Hnz].
  - rewrite (int_root _ _ Hint r Hr Hz), Hz. now destruct (memZ 0 doomed).
  - now rewrite (Hleaves r Hr Hnz).
Qed.

Lemma find_filter_node (g : node_row -> bool) ns node :
  (forall r, In r ns -> n_node r = node -> g r = true) ->
  find (fun r => n_node r =? node) (filter g ns)
  = find (fun r => n_node r =? node) ns.
Proof.
  induction ns as [|r ns IH]; simpl; intros H; auto.
  destruct (Z.eqb_spec (n_node r) node) as [He|Hne].
  - rewrite (H r (or_introl eq_refl) He). simpl.
    destruct (Z.eqb_spec (n_node r) node); [reflexivity|contradiction].
  - destruct (g r); simpl.
    + destruct (Z.eqb_spec (n_node r) node); [contradiction|].
      apply IH. intros; apply H; auto.
    + apply IH. intros; apply H; auto.
Qed.

Lemma ancestors_delete_leaves st doomed fuel :
  leaves st doomed ->
  forall node, memZ node doomed = false ->
  ancestors fuel (filter (fun r => negb (memZ (n_node r) doomed)) (nodes st)) node
  = ancestors fuel (nodes st) node.
Proof.
  intros Hleaves. induction fuel as [|fuel IH]; intros node Hnode; simpl; auto.
  destruct (Z.eqb_spec node 0) as [|Hnz]; auto.
  rewrite find_filter_node.
  2:{ intros r _ ->. now rewrite Hnode. }
  destruct (find _ (nodes st)) as [r|] eqn:Hr; auto.
  apply find_some in Hr. destruct Hr as (Hr & He%Z.eqb_eq).
  rewrite IH; auto. apply Hleaves; auto. congruence.
Qed.

Lemma under_leaf fuel st doomed node top :
  leaves st doomed -> memZ top doomed = true ->
  under fuel (nodes st) node top = false.
Proof.
  intros Hleaves Htop. unfold under.
  destruct (ancestors fuel (nodes st) node) as [l|] eqn:E; auto.
  destruct (memZ top l) eqn:Hmem; auto.
  apply memZ_In in Hmem.
  destruct (ancestors_are_parents _ _ _ _ _ E Hmem) as (r & Hr & Hnz & Hp).
  rewrite <- Hp, (Hleaves r Hr Hnz) in Htop. discriminate.
Qed.

Lemma find_stat_filter doomed l top c :
  find (stat_at top c) (filter (fun r => negb (memZ (s_node r) doomed)) l)
  = if memZ top doomed then None else find (stat_at top c) l.
Proof.
  induction l as [|r l IH]; simpl; [now destruct (memZ top doomed)|].
  destruct (stat_at top c r) eqn:Ek.
  - apply stat_at_key in Ek. destruct Ek as (Hn & Hc). rewrite Hn.
    destruct (memZ top doomed) eqn:Hd; simpl.
    + exact IH.
    + assert (stat_at top c r = true) as -> by (apply stat_at_key; auto).
      reflexivity.
  - destruct (memZ (s_node r) doomed); simpl; rewrite ?Ek; exact IH.
Qed.

Lemma delete_nodes_leaves_eq k sel st :
  integrity (S k) st ->
  leaves st (map n_node (filter sel (nodes st))) ->
  let doomed := map n_node (filter sel (nodes st)) in
  delete_nodes sel st =
  mk_db (filter (fun r => negb (memZ (n_node r) doomed)) (nodes st))
        (filter (fun r => negb (memZ (p_node r) doomed)) (policy st))
        (filter (fun r => negb (memZ (s_node r) doomed)) (statistics st))
        (filter (fun v => negb (memZ (v_node v) doomed)) (versions st))
        (attributes (delete_versions (fun v => memZ (v_node v) doomed) st)).
Proof.
  intros Hint Hleaves doomed. unfold delete_nodes.
  rewrite (cascade_leaves k st _ Hint Hleaves). reflexivity.
Qed.

(** Deleting leaves keeps the invariant, when the statistics have been
    adjusted for the versions that go with them. *)
Lemma delete_nodes_leaves fuel sel st :
  integrity fuel st ->
  leaves st (map n_node (filter sel (nodes st))) ->
  (forall top c,
     stat_size st top c =
     size_under fuel st top c
     - total v_size
             (fun v => (v_cluster v =? c)
                       && under fuel (nodes st) (v_node v) top)
             (filter (fun v => memZ (v_node v)
                                    (map n_node (filter sel (nodes st))))
                     (versions st))) ->
  integrity fuel (delete_nodes sel st) /\
  size_invariant fuel (delete_nodes sel st).
Proof.
  intros Hint Hleaves Hstat.
  destruct fuel as [|k]; [now elim (integrity_fuel _ _ Hint)|].
  rewrite (delete_nodes_leaves_eq k sel st Hint Hleaves).
  set (doomed := map n_node (filter sel (nodes st))) in *.
  set (ns' := filter (fun r => negb (memZ (n_node r) doomed)) (nodes st)).
  assert (Hanc : forall node, memZ node doomed = false ->
                 ancestors (S k) ns' node = ancestors (S k) (nodes st) node)
    by (apply ancestors_delete_leaves; exact Hleaves).
  assert (Hex : forall node, memZ node doomed = false ->
                node_exists st node = true ->
                existsb (fun r => n_node r =? node) ns' = true).
  { intros node Hnode Hn. apply node_exists_In in Hn.
    destruct Hn as (r & Hr & He). apply existsb_exists. exists r.
    split; [|now apply Z.eqb_eq]. apply filter_In. split; auto.
    now rewrite He, Hnode. }
  split.
  - destruct Hint as [H1 H2 H3 H4 H5 H6].
    constructor; cbn [nodes versions]; fold ns'.
    + intros node. destruct (memZ node doomed) eqn:Hd.
      * simpl. destruct (node =? 0); [discriminate|].
        rewrite (find_absent _ ns'); [discriminate|].
        intros r Hr. apply filter_In in Hr. destruct Hr as (_ & Hr).
        apply Z.eqb_neq. intros He. rewrite He, Hd in Hr. discriminate.
      * rewrite Hanc; auto.
    + unfold pk_nodes. simpl. now apply NoDup_map_filter.
    + unfold pk_versions. simpl. now apply NoDup_map_filter.
    + intros r Hr. apply filter_In in Hr. destruct Hr as (Hr & _). auto.
    + intros r Hr. apply filter_In in Hr. destruct Hr as (Hr & Hd).
      unfold node_exists. simpl. fold ns'. apply Hex; auto.
      destruct (Z.eq_dec (n_node r) 0) as [Hz|Hnz].
      * rewrite (H4 r Hr Hz), <- Hz. now apply negb_true_iff.
      * now apply Hleaves.
    + intros v Hv. apply filter_In in Hv. destruct Hv as (Hv & Hd).
      unfold node_exists. simpl. fold ns'. apply Hex; auto.
      now apply negb_true_iff.
  - intros top c. unfold stat_size, statistics_get, size_under. simpl.
    fold ns'. rewrite find_stat_filter.
    rewrite (total_ext v_size _
               (fun v => (v_cluster v =? c)
                         && under (S k) (nodes st) (v_node v) top)).
    2:{ intros v Hv. apply filter_In in Hv. destruct Hv as (_ & Hd).
        unfold under. rewrite Hanc; auto. now apply negb_true_iff. }
    destruct (memZ top doomed) eqn:Hd.
    + symmetry. apply total_none. intros v _.
      rewrite (under_leaf (S k) st doomed (v_node v) top Hleaves Hd).
      apply andb_false_r.
    + specialize (Hstat top c). unfold stat_size, statistics_get in Hstat.
      rewrite Hstat. unfold size_under.
      rewrite (total_split v_size _ (fun v => memZ (v_node v) doomed) (versions st)).
      lia.
Qed.

(** ** The groups of [group by cluster] *)

Lemma insert_cluster_In c l x :
  In x (insert_cluster c l) <-> x = c \/ In x l.
Proof.
  induction l as [|y l IH]; simpl; [intuition|].
  destruct (Z.ltb_spec c y); simpl; [intuition|].
  destruct (Z.eqb_spec c y) as [->|]; simpl; [intuition|].
  rewrite IH. intuition.
Qed.

Lemma insert_cluster_sorted c l :
  StronglySorted Z.lt l -> StronglySorted Z.lt (insert_cluster c l).
Proof.
  induction l as [|y l IH]; simpl; intros Hs.
  - repeat constructor.
  - inversion Hs as [|? ? Hs' Hall]; subst.
    destruct (Z.ltb_spec c y).
    + constructor; auto. constructor; auto.
      eapply Forall_impl; [|exact Hall]. simpl. intros; lia.
    + destruct (Z.eqb_spec c y); auto.
      constructor; auto. apply Forall_forall. intros x Hx.
      apply insert_cluster_In in Hx. destruct Hx as [->|Hx]; [lia|].
      rewrite Forall_forall in Hall. auto.
Qed.

Lemma clusters_of_sorted vs : StronglySorted Z.lt (clusters_of vs).
Proof.
  induction vs as [|v vs IH]; simpl; [constructor|].
  now apply insert_cluster_sorted.
Qed.

Lemma clusters_of_In vs v : In v vs -> In (v_cluster v) (clusters_of vs).
Proof.
  induction vs as [|x vs IH]; simpl; [contradiction|].
  intros [->|Hin]; apply insert_cluster_In; auto.
Qed.

Lemma sorted_NoDup l : StronglySorted Z.lt l -> NoDup l.
Proof.
  induction 1 as [|x l Hs IH Hall]; constructor; auto.
  intros Hin. rewrite Forall_forall in Hall. specialize (Hall x Hin). lia.
Qed.

Lemma walks_by_cluster fuel now node (at_node : list version_row) cls :
  NoDup cls ->
  forall st, integrity fuel st ->
  exists st',
    for_each
      (map (fun c =>
              let g := filter (fun v => v_cluster v =? c) at_node in
              (count g, sumZ (map v_size g), c)) cls)
      (fun '(population, size, cluster) =>
         statistics_update_ancestors fuel node (- population) (- size)
                                     now cluster) st
    = Ok (tt, st') /\
    same_rows st st' /\
    forall top c,
      stat_size st' top c =
      stat_size st top c
      - (if memZ c cls && under fuel (nodes st) node top
         then total v_size (fun v => v_cluster v =? c) at_node else 0).
Proof.
  induction cls as [|c0 cls IH]; intros Hnd st Hint.
  - exists st. split; [reflexivity|]. split; [apply same_rows_refl|].
    intros top c. simpl. lia.
  - inversion Hnd as [|? ? Hnotin Hnd']; subst.
    set (g := filter (fun v => v_cluster v =? c0) at_node).
    destruct (walk_size fuel st node (- count g) (- sumZ (map v_size g))
                        now c0 Hint) as (st1 & Hrun1 & Hsame1 & Hsize1).
    assert (Hint1 : integrity fuel st1) by eauto with pithos.
    destruct (IH Hnd' st1 Hint1) as (st2 & Hrun2 & Hsame2 & Hsize2).
    exists st2. split.
    { cbn [map for_each]. unfold bind. cbv zeta. fold g. rewrite Hrun1.
      exact Hrun2. }
    split; [eapply same_rows_trans; eauto|].
    intros top c. rewrite Hsize2, Hsize1.
    destruct Hsame1 as (-> & _). simpl.
    destruct (Z.eqb_spec c c0) as [->|Hne]; simpl.
    + assert (memZ c0 cls = false) as ->.
      { destruct (memZ c0 cls) eqn:E; auto. apply memZ_In in E. contradiction. }
      simpl. destruct (under fuel (nodes st) node top); unfold total; fold g; lia.
    + lia.
Qed.

Lemma total_const {A} (f : A -> Z) (P Q : A -> bool) (b : bool) l :
  (forall x, In x l -> P x = Q x && b) ->
  total f P l = if b then total f Q l else 0.
Proof.
  intros H. destruct b.
  - apply total_ext. intros x Hx. rewrite (H x Hx). apply andb_true_r.
  - apply total_none. intros x Hx. rewrite (H x Hx). apply andb_false_r.
Qed.

Lemma under_missing fuel st node top :
  node_exists st node = false -> under fuel (nodes st) node top = false.
Proof.
  intros Hex. unfold under. destruct fuel as [|k]; simpl; auto.
  destruct (node =? 0); auto.
  rewrite find_absent; auto.
  intros r Hr. unfold node_exists in Hex.
  destruct (n_node r =? node) eqn:E; auto.
  assert (existsb (fun r => n_node r =? node) (nodes st) = true)
    by (apply existsb_exists; eauto).
  congruence.
Qed.

Lemma node_ids_selected (st : db) node x :
  In x (map n_node (filter (fun n => n_node n =? node) (nodes st))) <->
  x = node /\ node_exists st node = true.
Proof.
  rewrite in_map_iff. split.
  - intros (r & <- & Hr). apply filter_In in Hr. destruct Hr as (Hr & He%Z.eqb_eq).
    split; auto. apply node_exists_In. eauto.
  - intros (-> & Hex). apply node_exists_In in Hex. destruct Hex as (r & Hr & He).
    exists r. split; auto. apply filter_In. split; auto. now apply Z.eqb_eq.
Qed.

Lemma childless_leaves st doomed :
  (forall x, In x doomed -> node_count_children st x = 0) ->
  leaves st doomed.
Proof.
  intros Hd r Hr Hnz.
  destruct (memZ (n_parent r) doomed) eqn:E; auto.
  apply memZ_In in E. apply Hd in E.
  unfold node_count_children, count in E.
  assert (Hin : In r (filter (fun x => (n_parent x =? n_parent r)
                                       && negb (n_node x =? 0)) (nodes st))).
  { apply filter_In. split; auto. rewrite Z.eqb_refl. simpl.
    apply negb_true_iff. now apply Z.eqb_neq. }
  destruct (filter _ (nodes st)); [contradiction|simpl in E; lia].
Qed.

(** ** [node_remove] *)

Lemma node_remove_spec fuel now st node :
  integrity fuel st -> size_invariant fuel st ->
  exists b st',
    node_remove fuel now node st = Ok (b, st') /\
    integrity fuel st' /\ size_invariant fuel st'.
Proof.
  intros Hint Hinv. unfold node_remove, bind at 1, get at 1.
  destruct (Z.eqb_spec (node_count_children st node) 0) as [Hleaf|Hkids];
    cbn [negb].
  2:{ exists false, st. split; [reflexivity | split; assumption]. }
  set (at_node := filter (fun v => v_node v =? node) (versions st)).
  destruct (walks_by_cluster fuel now node at_node (clusters_of at_node)
              (sorted_NoDup _ (clusters_of_sorted at_node)) st Hint)
    as (st1 & Hrun & Hsame & Hsize).
  assert (Hint1 : integrity fuel st1) by eauto with pithos.
  destruct Hsame as (Hn & _ & Hv & _).
  set (sel := fun n : node_row => n_node n =? node).
  assert (Hleaves : leaves st1 (map n_node (filter sel (nodes st1)))).
  { apply (childless_leaves st1). intros x Hx.
    apply node_ids_selected in Hx. destruct Hx as (-> & _).
    unfold node_count_children. now rewrite Hn. }
  destruct (delete_nodes_leaves fuel sel st1 Hint1 Hleaves) as (Hint' & Hinv').
  { intros top c. rewrite Hsize, (Hinv top c).
    rewrite (size_under_same fuel st st1 top c Hn Hv). f_equal.
    rewrite Hn, Hv.
    destruct (node_exists st node) eqn:Hex.
    - rewrite (filter_ext_in _ (fun v => v_node v =? node) (versions st)).
      2:{ intros v _. destruct (Z.eqb_spec (v_node v) node) as [He|Hne].
          - apply memZ_In. apply (node_ids_selected st). auto.
          - destruct (memZ _ _) eqn:E; auto. apply memZ_In in E.
            apply (node_ids_selected st) in E. tauto. }
      fold at_node.
      rewrite (total_const v_size
                 (fun v => (v_cluster v =? c)
                           && under fuel (nodes st) (v_node v) top)
                 (fun v => v_cluster v =? c)
                 (under fuel (nodes st) node top) at_node).
      2:{ intros v Hv'. apply filter_In in Hv'.
          destruct Hv' as (_ & ->%Z.eqb_eq). reflexivity. }
      destruct (under fuel (nodes st) node top); rewrite ?andb_false_r; auto.
      rewrite andb_true_r. destruct (memZ c (clusters_of at_node)) eqn:E; auto.
      symmetry. apply total_none. intros v Hv'.
      destruct (Z.eqb_spec (v_cluster v) c) as [<-|]; auto.
      apply clusters_of_In, memZ_In in Hv'. congruence.
    - rewrite (under_missing fuel st node top Hex), andb_false_r.
      rewrite filter_none; [reflexivity|].
      intros v _. destruct (memZ _ _) eqn:E; auto. apply memZ_In in E.
      apply (node_ids_selected st) in E. destruct E; congruence. }
  exists true, (delete_nodes sel st1). split; [|split; assumption].
  unfold cluster_groups. fold at_node. unmonad.
  cbv zeta in Hrun. now rewrite Hrun.
Qed.

(** ** The purges *)

Lemma versionless_spec st node v :
  versionless st node = true -> In v (versions st) -> v_node v <> node.
Proof.
  unfold versionless, count. intros H Hv He.
  assert (Hin : In v (filter (fun v => v_node v =? node) (versions st)))
    by (apply filter_In; split; auto; now apply Z.eqb_eq).
  destruct (filter _ (versions st)); [contradiction|].
  apply Z.eqb_eq in H. simpl in H. lia.
Qed.

Lemma versionless_after_delete sel st x :
  versionless (delete_versions sel st) x = true <->
  forall v, In v (versions st) -> v_node v = x -> sel v = true.
Proof.
  unfold versionless, count. cbn [versions delete_versions]. split.
  - intros H v Hv Hx. destruct (sel v) eqn:Es; auto.
    assert (Hin : In v (filter (fun v => v_node v =? x)
                               (filter (fun v => negb (sel v)) (versions st)))).
    { apply filter_In. split; [|now apply Z.eqb_eq].
      apply filter_In. now rewrite Es. }
    destruct (filter (fun v => v_node v =? x) _); [contradiction|].
    apply Z.eqb_eq in H. simpl in H. lia.
  - intros H. rewrite filter_none; [reflexivity|].
    intros v Hv. apply filter_In in Hv. destruct Hv as (Hv & Hs).
    destruct (Z.eqb_spec (v_node v) x) as [He|]; auto.
    rewrite (H v Hv He) in Hs. discriminate.
Qed.

(** The last statement of both purges: deleting versionless leaves. *)
Lemma prune_spec fuel sel st :
  integrity fuel st -> size_invariant fuel st ->
  (forall r, In r (nodes st) -> sel r = true ->
             versionless st (n_node r) = true /\
             node_count_children st (n_node r) = 0) ->
  integrity fuel (delete_nodes sel st) /\
  size_invariant fuel (delete_nodes sel st).
Proof.
  intros Hint Hinv Hsel.
  assert (Hd : forall x, In x (map n_node (filter sel (nodes st))) ->
               exists r, In r (nodes st) /\ sel r = true /\ n_node r = x).
  { intros x Hx. apply in_map_iff in Hx. destruct Hx as (r & <- & Hr).
    apply filter_In in Hr. exists r. tauto. }
  apply delete_nodes_leaves; auto.
  - apply childless_leaves. intros x Hx.
    destruct (Hd x Hx) as (r & Hr & Hs & <-). now apply Hsel.
  - intros top c. rewrite (Hinv top c).
    rewrite filter_none; [unfold total; simpl; lia|].
    intros v Hv. destruct (memZ _ _) eqn:E; auto. apply memZ_In in E.
    destruct (Hd _ E) as (r & Hr & Hs & He).
    destruct (Hsel r Hr Hs) as (Hvl & _). rewrite He in Hvl.
    now elim (versionless_spec st (v_node v) v Hvl Hv).
Qed.

Lemma total_selected fuel ns (sel : version_row -> bool) vs c (b : bool) top cluster :
  (forall v, In v vs -> sel v = true ->
             v_cluster v = cluster /\ under fuel ns (v_node v) top = b) ->
  total v_size (fun v => (v_cluster v =? c) && under fuel ns (v_node v) top)
        (filter sel vs)
  = if (c =? cluster) && b then sumZ (map v_size (filter sel vs)) else 0.
Proof.
  intros H.
  rewrite (total_const v_size _ (fun _ => true) ((c =? cluster) && b)).
  - destruct ((c =? cluster) && b); auto. now apply total_all.
  - intros v Hv. apply filter_In in Hv. destruct Hv as (Hv & Hs).
    destruct (H v Hv Hs) as (-> & ->). now rewrite (Z.eqb_sym cluster c).
Qed.

Lemma node_purge_spec fuel now st node before cluster :
  integrity fuel st -> size_invariant fuel st ->
  ((forall v, In v (versions st) -> v_node v = node ->
              purge_sel node before cluster v = true) ->
   node_count_children st node = 0) ->
  exists hashes st',
    node_purge fuel now node before cluster st = Ok (hashes, st') /\
    integrity fuel st' /\ size_invariant fuel st'.
Proof.
  intros Hint Hinv Hleaf. unfold node_purge, bind at 1, get at 1.
  set (sel := purge_sel node before cluster).
  set (nr := count (filter sel (versions st))).
  set (size := sumZ (map v_size (filter sel (versions st)))).
  destruct (nr =? 0).
  { exists [], st. split; [reflexivity | split; assumption]. }
  destruct (walk_size fuel st node (- nr) (- size) now cluster Hint)
    as (st1 & Hrun & Hsame & Hsize).
  assert (Hint1 : integrity fuel st1) by eauto with pithos.
  destruct Hsame as (Hn & _ & Hv & _).
  set (st2 := delete_versions sel st1).
  assert (Hint2 : integrity fuel st2) by now apply integrity_delete_versions.
  assert (Hinv2 : size_invariant fuel st2).
  { intros top c. unfold st2. rewrite size_under_delete_versions.
    change (stat_size (delete_versions sel st1) top c) with (stat_size st1 top c).
    rewrite Hsize, (Hinv top c), (size_under_same fuel st st1 top c Hn Hv).
    rewrite Hn, Hv.
    rewrite (total_selected fuel (nodes st) sel (versions st) c
               (under fuel (nodes st) node top) top cluster).
    - fold size. destruct ((c =? cluster) && under fuel (nodes st) node top); lia.
    - intros v _ Hs. unfold sel, purge_sel in Hs.
      apply andb_prop in Hs. destruct Hs as (Hs & _).
      apply andb_prop in Hs. destruct Hs as (->%Z.eqb_eq & ->%Z.eqb_eq). auto. }
  set (selN := fun n : node_row => versionless st2 (n_node n) && (n_node n =? node)).
  destruct (prune_spec fuel selN st2 Hint2 Hinv2) as (Hint3 & Hinv3).
  { intros r Hr Hs. unfold selN in Hs. apply andb_prop in Hs.
    destruct Hs as (Hvl & He%Z.eqb_eq). rewrite He in *.
    split; [exact Hvl|].
    unfold node_count_children, st2. cbn [nodes delete_versions]. rewrite Hn.
    apply Hleaf. unfold st2 in Hvl. rewrite versionless_after_delete in Hvl.
    now rewrite Hv in Hvl. }
  exists (map v_hash (filter sel (versions st1))), (delete_nodes selN st2).
  split; [|split; assumption].
  unmonad. now rewrite Hrun.
Qed.

Lemma under_child fuel st r top :
  integrity fuel st -> In r (nodes st) -> n_node r <> 0 ->
  under fuel (nodes st) (n_node r) top
  = (top =? n_parent r) || under fuel (nodes st) (n_parent r) top /\
  (top =? n_parent r) && under fuel (nodes st) (n_parent r) top = false.
Proof.
  intros Hint Hr Hnz.
  destruct (integrity_ancestors fuel st (n_node r) Hint) as (l0 & Hl0 & Hnd & _).
  assert (Hcons : exists l, l0 = n_parent r :: l).
  { destruct fuel as [|k]; [discriminate|]. simpl in Hl0.
    destruct (Z.eqb_spec (n_node r) 0); [contradiction|].
    rewrite (pk_find n_node (nodes st) r (int_pk_nodes _ _ Hint) Hr) in Hl0.
    destruct (ancestors k (nodes st) (n_parent r)); [|discriminate].
    injection Hl0 as <-. eauto. }
  destruct Hcons as (l & ->).
  pose proof (ancestors_cons _ _ _ _ _ Hl0) as (_ & _ & Hl).
  unfold under. rewrite Hl0, Hl. split; [reflexivity|].
  inversion Hnd as [|? ? Hnotin _]; subst.
  destruct (Z.eqb_spec top (n_parent r)) as [->|]; auto. simpl.
  destruct (memZ (n_parent r) l) eqn:E; auto. apply memZ_In in E. contradiction.
Qed.

Lemma children_of_In st parent x :
  In x (children_of st parent) <->
  exists r, In r (nodes st) /\ n_parent r = parent /\ n_node r = x.
Proof.
  unfold children_of. rewrite in_map_iff. split.
  - intros (r & <- & Hr). apply filter_In in Hr.
    destruct Hr as (Hr & He%Z.eqb_eq). eauto.
  - intros (r & Hr & Hp & <-). exists r. split; auto.
    apply filter_In. split; auto. now apply Z.eqb_eq.
Qed.

Lemma node_purge_children_spec fuel now st parent before cluster :
  integrity fuel st -> size_invariant fuel st ->
  parent <> 0 ->
  (forall child,
     In child (children_of st parent) ->
     (forall v, In v (versions st) -> v_node v = child ->
                purge_children_sel st parent before cluster v = true) ->
     node_count_children st child = 0) ->
  exists hashes st',
    node_purge_children fuel now parent before cluster st = Ok (hashes, st') /\
    integrity fuel st' /\ size_invariant fuel st'.
Proof.
  intros Hint Hinv Hparent Hleaf.
  unfold node_purge_children, bind at 1, get at 1.
  set (sel := purge_children_sel st parent before cluster).
  set (nr := count (filter sel (versions st))).
  set (size := sumZ (map v_size (filter sel (versions st)))).
  destruct (Z.eqb_spec nr 0) as [|Hnr].
  { exists [], st. split; [reflexivity | split; assumption]. }
  (* every selected version sits at a child row of parent *)
  assert (Hsel : forall v, sel v = true ->
            v_cluster v = cluster /\
            exists r, In r (nodes st) /\ n_parent r = parent /\
                      n_node r = v_node v /\ n_node r <> 0).
  { intros v Hs. unfold sel, purge_children_sel in Hs.
    apply andb_prop in Hs. destruct Hs as (Hs & _).
    apply andb_prop in Hs. destruct Hs as (Hc%memZ_In & Hcl%Z.eqb_eq).
    split; auto. apply children_of_In in Hc.
    destruct Hc as (r & Hr & Hp & He). exists r. repeat split; auto.
    intros Hz. apply Hparent. rewrite <- Hp. now apply (int_root _ _ Hint). }
  assert (Hsome : exists v0, In v0 (versions st) /\ sel v0 = true).
  { unfold nr, count in Hnr. destruct (filter sel (versions st)) as [|v0 l] eqn:E;
      [simpl in Hnr; lia|].
    exists v0. apply filter_In. rewrite E. now left. }
  destruct Hsome as (v0 & Hv0 & Hs0).
  destruct (Hsel v0 Hs0) as (_ & r0 & Hr0 & Hp0 & He0 & Hnz0).
  assert (Hex : node_exists st parent = true).
  { rewrite <- Hp0. now apply (int_fk_parent _ _ Hint). }
  destruct (statistics_update_spec st parent (- nr) (- size) now cluster Hex)
    as (sta & Hruna & Hsamea & Hsizea & _).
  assert (Hinta : integrity fuel sta) by eauto with pithos.
  destruct (walk_size fuel sta parent (- nr) (- size) now cluster Hinta)
    as (st1 & Hrun & Hsame1 & Hsize).
  assert (Hint1 : integrity fuel st1) by eauto with pithos.
  pose proof (same_rows_trans _ _ _ Hsamea Hsame1) as (Hn & _ & Hv & _).
  assert (Hsel1 : purge_children_sel st1 parent before cluster = sel).
  { unfold sel, purge_children_sel, children_of. now rewrite Hn. }
  set (st2 := delete_versions sel st1).
  assert (Hint2 : integrity fuel st2) by now apply integrity_delete_versions.
  assert (Hinv2 : size_invariant fuel st2).
  { intros top c. unfold st2. rewrite size_under_delete_versions.
    change (stat_size (delete_versions sel st1) top c) with (stat_size st1 top c).
    rewrite Hsize, Hsizea, (Hinv top c), (size_under_same fuel st st1 top c Hn Hv).
    rewrite Hn, Hv. destruct Hsamea as (-> & _).
    destruct (under_child fuel st r0 top Hint Hr0 Hnz0) as (_ & Hdisj).
    rewrite Hp0 in Hdisj.
    rewrite (total_selected fuel (nodes st) sel (versions st) c
               ((top =? parent) || under fuel (nodes st) parent top) top cluster).
    - fold size.
      destruct (top =? parent), (c =? cluster),
        (under fuel (nodes st) parent top); simpl in *; try discriminate; lia.
    - intros v _ Hs. destruct (Hsel v Hs) as (Hc & r & Hr & Hp & He & Hnz).
      split; auto. rewrite <- He, <- Hp.
      now apply under_child. }
  set (selN := fun n : node_row =>
                 versionless st2 (n_node n) && (n_parent n =? parent)).
  destruct (prune_spec fuel selN st2 Hint2 Hinv2) as (Hint3 & Hinv3).
  { intros r Hr Hs. unfold selN in Hs. apply andb_prop in Hs.
    destruct Hs as (Hvl & Hp%Z.eqb_eq). split; auto.
    unfold node_count_children, st2. cbn [nodes delete_versions]. rewrite Hn.
    apply Hleaf.
    - apply children_of_In. exists r.
      unfold st2 in Hr. simpl in Hr. rewrite Hn in Hr. auto.
    - unfold st2 in Hvl. rewrite versionless_after_delete in Hvl.
      now rewrite Hv in Hvl. }
  exists (map v_hash (filter sel (versions st1))), (delete_nodes selN st2).
  split; [|split; assumption].
  unmonad. rewrite Hruna, Hrun, Hsel1. reflexivity.
Qed.

(** ** The size invariant *)

Lemma integrityb_sound fuel st : integrityb fuel st = true -> integrity fuel st.
Proof.
  unfold integrityb. rewrite !andb_true_iff, !forallb_forall.
  intros ((((((Hf & Htree) & Hpkn) & Hpkv) & Hroot) & Hfkp) & Hfkv).
  constructor.
  - intros node. destruct fuel as [|k]; [discriminate|].
    destruct (find (fun r => n_node r =? node) (nodes st)) as [r|] eqn:Hr.
    + apply find_some in Hr. destruct Hr as (Hr & <-%Z.eqb_eq).
      specialize (Htree r Hr). now destruct (ancestors (S k) (nodes st) (n_node r)).
    + simpl. rewrite Hr. now destruct (node =? 0).
  - now apply distinctZ_NoDup.
  - now apply distinctZ_NoDup.
  - intros r Hr Hz. specialize (Hroot r Hr). rewrite Hz in Hroot. simpl in Hroot.
    now apply Z.eqb_eq.
  - exact Hfkp.
  - exact Hfkv.
Qed.

(** C2 (as amended): the stored size of (N, c) is the sum of size over the
    versions in cluster c at the nodes strictly below N (a version at N
    itself is counted at N's ancestors, not at N). On a database that
    keeps its integrity constraints, every mutating operation ends and
    keeps this invariant (and the constraints): createVersion,
    removeVersion, reclusterVersion, removeNode, and the two purges when
    the nodes they prune have no children (and the parent whose children
    are purged is not the root). The one other outcome is createVersion
    at a node that does not exist, which raises and changes nothing. *)
Theorem size_invariant_preserved fuel now m st
    (Hint : integrity fuel st)
    (Hinv : size_invariant fuel st)
    (Hleaves : prunes_leaves st m) :
  (exists st', apply_mutation fuel now m st = Ok (tt, st') /\
               integrity fuel st' /\ size_invariant fuel st') \/
  (apply_mutation fuel now m st = Raise IntegrityError /\
   exists node hash size source muser cluster,
     m = CreateVersion node hash size source muser cluster /\
     node_exists st node = false).
Proof.
  destruct m as [node hash size source muser cluster | serial | serial cluster
                | node | node before cluster | parent before cluster];
    simpl in Hleaves; unfold apply_mutation, discard.
  - destruct (node_exists st node) eqn:Hex.
    + left.
      destruct (version_create_spec fuel now st node hash size source muser
                  cluster Hint Hinv Hex) as (serial & st' & Hrun & H).
      exists st'. split; [|exact H]. unfold bind, ret. now rewrite Hrun.
    + right. split.
      * unfold version_create, bind, get, raise. now rewrite Hex.
      * repeat eexists. exact Hex.
  - left. destruct (version_remove_spec fuel now st serial Hint Hinv)
      as (hash & st' & Hrun & H).
    exists st'. split; [|exact H]. unfold bind, ret. now rewrite Hrun.
  - left. exact (version_recluster_spec fuel now st serial cluster Hint Hinv).
  - left. destruct (node_remove_spec fuel now st node Hint Hinv)
      as (b & st' & Hrun & H).
    exists st'. split; [|exact H]. unfold bind, ret. now rewrite Hrun.
  - left. destruct (node_purge_spec fuel now st node before cluster
                      Hint Hinv Hleaves) as (hashes & st' & Hrun & H).
    exists st'. split; [|exact H]. unfold bind, ret. now rewrite Hrun.
  - left. destruct Hleaves as (Hparent & Hleaves).
    destruct (node_purge_children_spec fuel now st parent before cluster
                Hint Hinv Hparent Hleaves) as (hashes & st' & Hrun & H).
    exists st'. split; [|exact H]. unfold bind, ret. now rewrite Hrun.
Qed.

Lemma size_invariant_nested : size_invariant 3 db_nested.
Proof.
  assert (Hs : statistics db_nested
               = [mk_stat 1 1 10 10 0; mk_stat 0 0 10 10 0]) by reflexivity.
  assert (Hv : versions db_nested
               = [mk_version 1 2 (u "h1") 10 None 10 (u "user") 0])
    by reflexivity.
  assert (Hu : forall top, under 3 (nodes db_nested) 2 top
                           = (top =? 1) || (top =? 0)).
  { intros top. unfold under.
    replace (ancestors 3 (nodes db_nested) 2) with (Some [1; 0])
      by reflexivity.
    unfold memZ. cbn [existsb]. now rewrite orb_false_r. }
  intros top c. unfold stat_size, statistics_get, size_under, total.
  rewrite Hs, Hv. cbn -[Z.eqb under]. rewrite Hu. unfold stat_at.
  cbn -[Z.eqb].
  rewrite (Z.eqb_sym 1 top), (Z.eqb_sym 0 top).
  destruct (top =? 1); destruct (0 =? c); cbn -[Z.eqb];
    try reflexivity; destruct (top =? 0); reflexivity.
Qed.

Lemma size_invariant_preserved_witness :
  integrity 3 db_nested /\ size_invariant 3 db_nested /\
  prunes_leaves db_nested (PurgeChildrenVersions 1 Inf 0) /\
  exists st',
    apply_mutation 3 20 (PurgeChildrenVersions 1 Inf 0) db_nested
      = Ok (tt, st') /\
    integrity 3 st' /\ size_invariant 3 st'.
Proof.
  assert (Hint : integrity 3 db_nested)
    by (apply integrityb_sound; reflexivity).
  assert (Hleaves : prunes_leaves db_nested (PurgeChildrenVersions 1 Inf 0)).
  { split; [discriminate|]. intros child Hc _. vm_compute in Hc.
    destruct Hc as [<-|[]]. reflexivity. }
  split; [exact Hint|]. split; [exact size_invariant_nested|].
  split; [exact Hleaves|].
  destruct (size_invariant_preserved 3 20 (PurgeChildrenVersions 1 Inf 0)
              db_nested Hint size_invariant_nested Hleaves) as [H|(H & _)].
  - exact H.
  - discriminate H.
Defined.

(** C2 (as stated) fails: with the versions at N itself included in the
    sum, the equation holds on the database with node 1 and no version,
    and no longer after createVersion at node 1: the stored size of
    (1, 0) stays 0 (there is no row) and the sum is 5. *)
Lemma size_at_node_counterexample :
  integrity 2 db_one_node /\
  (forall top c, stat_size db_one_node top c
                 = size_at_or_under 2 db_one_node top c) /\
  apply_mutation 2 10 (CreateVersion 1 (u "h1") 5 None (u "user") 0)
                 db_one_node = Ok (tt, db_one_version) /\
  stat_size db_one_version 1 0 = 0 /\
  size_at_or_under 2 db_one_version 1 0 = 5.
Proof.
  split; [apply integrityb_sound; reflexivity|].
  split; [intros top c; reflexivity|].
  repeat split.
Qed.

(** ** Population *)

(** C3: on the database with an object (node 2) in a container (node 1)
    of the root, the stored populations are the numbers of versions at
    the direct children; [node_purge_children] on the container then
    passes the population delta to the ancestor walk that starts at the
    container, whose first hop is the root: the root's population becomes
    -1 while its children hold no version. *)
Theorem purge_children_population_of_grandparent :
  integrity 3 db_nested /\
  (forall top c, stat_population db_nested top c
                 = population_of_children db_nested top c) /\
  exists st',
    node_purge_children 3 20 1 Inf 0 db_nested = Ok ([u "h1"], st') /\
    integrity 3 st' /\
    stat_population st' 0 0 = -1 /\
    population_of_children st' 0 0 = 0.
Proof.
  split; [apply integrityb_sound; reflexivity|]. split.
  - intros top c.
    unfold stat_population, statistics_get, population_of_children, child_of,
      node_get_properties.
    replace db_nested with
      (mk_db [mk_node 0 0 []; mk_node 1 0 (u "a"); mk_node 2 1 (u "a/b")] []
             [mk_stat 1 1 10 10 0; mk_stat 0 0 10 10 0]
             [mk_version 1 2 (u "h1") 10 None 10 (u "user") 0] [])
      by reflexivity.
    cbn -[Z.eqb]. unfold stat_at. cbn -[Z.eqb].
    change (2 =? 0) with false. change (2 =? 2) with true.
    change (0 =? 2) with false. change (1 =? 2) with false. cbn -[Z.eqb].
    destruct (Z.eqb_spec 1 top) as [<-|]; destruct (Z.eqb_spec 0 c) as [<-|];
      cbn -[Z.eqb]; try reflexivity;
      destruct (Z.eqb_spec 0 top) as [<-|]; reflexivity.
  - eexists. split; [vm_compute; reflexivity|].
    split; [apply integrityb_sound; reflexivity|]. split; reflexivity.
Qed.

(** ** Reclustering twice *)

Lemma find_reclustered serial cluster vs :
  match find (fun v => v_serial v =? serial)
             (map (fun v => if v_serial v =? serial
                            then set_cluster cluster v else v) vs) with
  | Some x => v_cluster x = cluster
  | None => True
  end.
Proof.
  induction vs as [|v vs IH]; simpl; auto.
  destruct (v_serial v =? serial) eqn:E; simpl; rewrite E; auto.
Qed.

(** C5: [version_recluster] changes nothing when the serial is not found
    or the version is already in the cluster; so after a first call that
    returned, a second call with the same serial and cluster returns and
    leaves every table, the statistics included, as the first call left
    them. *)
Theorem version_recluster_idempotent fuel now now' st serial cluster :
  (version_get_properties st serial = None ->
   version_recluster fuel now serial cluster st = Ok (tt, st)) /\
  (forall v, version_get_properties st serial = Some v ->
             v_cluster v = cluster ->
             version_recluster fuel now serial cluster st = Ok (tt, st)) /\
  (forall st1, version_recluster fuel now serial cluster st = Ok (tt, st1) ->
               version_recluster fuel now' serial cluster st1 = Ok (tt, st1)).
Proof.
  split; [|split].
  - intros H. unfold version_recluster, bind, get, ret. now rewrite H.
  - intros v H Hc. unfold version_recluster, bind, get, ret.
    now rewrite H, Hc, Z.eqb_refl.
  - intros st1. unfold version_recluster at 1. unfold bind at 1, get at 1.
    destruct (version_get_properties st serial) as [v|] eqn:Hfind.
    2:{ intros [= <-]. unfold version_recluster, bind, get, ret.
        now rewrite Hfind. }
    destruct (cluster =? v_cluster v) eqn:Hc.
    { intros [= <-]. unfold version_recluster, bind, get, ret.
      now rewrite Hfind, Hc. }
    unfold bind, get, put.
    destruct (statistics_update_ancestors fuel (v_node v) (-1) (- v_size v)
                now (v_cluster v) st) as [[[] sta]| |]; try discriminate.
    destruct (statistics_update_ancestors fuel (v_node v) 1 (v_size v)
                now cluster sta) as [[[] stb]| |]; try discriminate.
    intros [= <-]. unfold version_recluster, version_get_properties, bind, get, ret.
    cbn [versions].
    pose proof (find_reclustered serial cluster (versions stb)) as H.
    destruct (find _ (map _ (versions stb))) as [x|]; auto.
    now rewrite H, Z.eqb_refl.
Qed.

Lemma version_recluster_idempotent_witness :
  exists st1,
    version_recluster 2 30 1 7 db_one_version = Ok (tt, st1) /\
    stat_size st1 0 7 = 5 /\ stat_size st1 0 0 = 0 /\
    version_recluster 2 40 1 7 st1 = Ok (tt, st1).
Proof.
  eexists. split; [vm_compute; reflexivity|].
  split; [reflexivity|]. split; [reflexivity|].
  apply (version_recluster_idempotent 2 30 40 db_one_version 1 7).
  vm_compute. reflexivity.
Defined.

(** ** Purges that match nothing *)

(** C8: when no version is at the node (for [node_purge]) or at a child
    of the parent (for [node_purge_children]) in the cluster with
    [mtime <= before], the purge returns the empty result without error
    and leaves the whole database as it was. *)
Theorem purge_nothing fuel now st before cluster :
  (forall node,
     (forall v, In v (versions st) -> v_node v = node ->
                v_cluster v = cluster ->
                le_bound (v_mtime v) before = true -> False) ->
     node_purge fuel now node before cluster st = Ok ([], st)) /\
  (forall parent,
     (forall v r, In v (versions st) -> In r (nodes st) ->
                  n_parent r = parent -> n_node r = v_node v ->
                  v_cluster v = cluster ->
                  le_bound (v_mtime v) before = true -> False) ->
     node_purge_children fuel now parent before cluster st = Ok ([], st)).
Proof.
  split.
  - intros node H. unfold node_purge, bind, get, ret.
    rewrite filter_none; [reflexivity|].
    intros v Hv. unfold purge_sel.
    destruct (Z.eqb_spec (v_node v) node); auto.
    destruct (Z.eqb_spec (v_cluster v) cluster); auto.
    destruct (le_bound (v_mtime v) before) eqn:E; auto.
    now elim (H v).
  - intros parent H. unfold node_purge_children, bind, get, ret.
    rewrite filter_none; [reflexivity|].
    intros v Hv. unfold purge_children_sel.
    destruct (memZ (v_node v) (children_of st parent)) eqn:Hc; auto.
    destruct (Z.eqb_spec (v_cluster v) cluster); auto.
    destruct (le_bound (v_mtime v) before) eqn:E; auto.
    apply memZ_In, children_of_In in Hc. destruct Hc as (r & Hr & Hp & Hn).
    now elim (H v r).
Qed.

Lemma purge_nothing_witness :
  node_purge 3 50 2 (Fin 9) 0 db_nested = Ok ([], db_nested) /\
  node_purge_children 3 50 1 Inf 1 db_nested = Ok ([], db_nested).
Proof.
  split.
  - apply (purge_nothing 3 50 db_nested (Fin 9) 0).
    intros v Hv. vm_compute in Hv. destruct Hv as [<-|[]]. discriminate.
  - apply (purge_nothing 3 50 db_nested Inf 1).
    intros v r Hv. vm_compute in Hv. destruct Hv as [<-|[]]. discriminate.
Defined.

(** ** Removing a node that is not there *)

Lemma cascade_nil k ns : cascade k ns [] = [].
Proof.
  induction k as [|k IH]; simpl; auto.
  rewrite filter_none; auto.
Qed.

Lemma delete_nodes_nothing sel st :
  (forall r, In r (nodes st) -> sel r = false) -> delete_nodes sel st = st.
Proof.
  intros H. unfold delete_nodes, delete_versions.
  rewrite (filter_none sel (nodes st) H). simpl. rewrite cascade_nil.
  destruct st as [ns ps ss vs ats]. simpl.
  rewrite (filter_none (fun _ : version_row => false) vs) by reflexivity.
  f_equal; apply filter_all; reflexivity.
Qed.

(** C9: [node_remove] of a node that is not in the store returns True
    and leaves the database, the statistics included, as it was; and the
    result is False exactly when the node has children, in which case
    nothing changes either. *)
Theorem node_remove_missing fuel now st node (Hint : integrity fuel st) :
  (node_get_properties st node = None ->
   node_remove fuel now node st = Ok (true, st)) /\
  (forall st', node_remove fuel now node st = Ok (false, st') <->
               node_count_children st node <> 0 /\ st' = st).
Proof.
  split.
  - intros Hnone.
    assert (Hmissing : forall r, In r (nodes st) -> (n_node r =? node) = false).
    { intros r Hr. apply Z.eqb_neq. intros He. unfold node_get_properties in Hnone.
      rewrite <- He, (pk_find n_node (nodes st) r (int_pk_nodes _ _ Hint) Hr)
        in Hnone. discriminate. }
    assert (Hex : node_exists st node = false).
    { unfold node_exists. destruct (existsb _ (nodes st)) eqn:E; auto.
      apply existsb_exists in E. destruct E as (r & Hr & He).
      rewrite (Hmissing r Hr) in He. discriminate. }
    unfold node_remove, bind at 1, get at 1.
    unfold node_count_children. rewrite filter_none.
    2:{ intros r Hr. destruct (Z.eqb_spec (n_parent r) node) as [He|]; auto.
        pose proof (int_fk_parent _ _ Hint r Hr) as Hp. congruence. }
    cbn [count List.length Z.of_nat Z.eqb negb].
    unfold cluster_groups. rewrite filter_none.
    2:{ intros v Hv. destruct (Z.eqb_spec (v_node v) node) as [He|]; auto.
        pose proof (int_fk_versions _ _ Hint v Hv) as Hp. congruence. }
    cbn [clusters_of fold_right map for_each]. unfold bind, ret, get, put.
    now rewrite (delete_nodes_nothing _ st Hmissing).
  - intros st'. unfold node_remove, bind at 1, get at 1.
    destruct (Z.eqb_spec (node_count_children st node) 0) as [Hz|Hnz]; cbn [negb].
    + split; [|tauto]. unmonad.
      destruct (for_each _ _ st) as [[[] st1]| |]; discriminate.
    + unfold ret. split; [intros [= <-]; auto | intros (_ & ->); reflexivity].
Qed.

Lemma node_remove_missing_witness :
  integrity 3 db_nested /\
  node_get_properties db_nested 7 = None /\
  node_remove 3 50 7 db_nested = Ok (true, db_nested) /\
  node_remove 3 50 1 db_nested = Ok (false, db_nested).
Proof.
  assert (Hint : integrity 3 db_nested) by (apply integrityb_sound; reflexivity).
  split; [exact Hint|]. split; [reflexivity|]. split.
  - apply (node_remove_missing 3 50 db_nested 7 Hint). reflexivity.
  - apply (node_remove_missing 3 50 db_nested 1 Hint).
    split; [discriminate | reflexivity].
Defined.

(** ** Attributes *)

Lemma ustr_eqb_eq a b : ustr_eqb a b = true <-> a = b.
Proof.
  revert b. induction a as [|x a IH]; intros [|y b]; simpl;
    try (split; [discriminate|discriminate]); [tauto|].
  rewrite andb_true_iff, Z.eqb_eq, IH. split.
  - intros (-> & ->). reflexivity.
  - intros [= -> ->]. auto.
Qed.

Lemma attr_at_key serial key a :
  attr_at serial key a = true <-> a_serial a = serial /\ a_key a = key.
Proof. unfold attr_at. now rewrite andb_true_iff, Z.eqb_eq, ustr_eqb_eq. Qed.

Lemma find_attr_replace l row serial key :
  find (attr_at serial key)
       (filter (fun a => negb (attr_at (a_serial row) (a_key row) a)) l
        ++ [row]) =
  if attr_at serial key row then Some row else find (attr_at serial key) l.
Proof.
  induction l as [|a l IH]; simpl.
  - now destruct (attr_at serial key row).
  - destruct (attr_at (a_serial row) (a_key row) a) eqn:Ea; simpl.
    + rewrite IH. destruct (attr_at serial key row) eqn:Erow; auto.
      destruct (attr_at serial key a) eqn:Ek; auto.
      apply attr_at_key in Ea, Ek.
      assert (attr_at serial key row = true)
        by (apply attr_at_key; intuition congruence).
      congruence.
    + destruct (attr_at serial key a) eqn:Ek.
      * destruct (attr_at serial key row) eqn:Erow; auto.
        apply attr_at_key in Erow, Ek.
        assert (attr_at (a_serial row) (a_key row) a = true)
          by (apply attr_at_key; intuition congruence).
        congruence.
      * exact IH.
Qed.

Lemma replace_attribute_value row st st' :
  replace_attribute row st = Ok (tt, st') ->
  versions st' = versions st /\
  forall serial key,
    attribute_value st' serial key =
    if attr_at serial key row then Some (a_value row)
    else attribute_value st serial key.
Proof.
  unfold replace_attribute, bind, get, put, raise.
  destruct (version_exists st (a_serial row)); [|discriminate].
  intros [= <-]. split; [reflexivity|]. intros serial key.
  unfold attribute_value. cbn [attributes]. rewrite find_attr_replace.
  now destruct (attr_at serial key row).
Qed.

Lemma copy_rows_value dest rows : forall st st',
  NoDup (map a_key rows) ->
  for_each rows
    (fun a => replace_attribute (mk_attr dest (a_key a) (a_value a))) st
  = Ok (tt, st') ->
  forall serial key,
    attribute_value st' serial key =
    if serial =? dest
    then match find (fun a => ustr_eqb (a_key a) key) rows with
         | Some a => Some (a_value a)
         | None => attribute_value st serial key
         end
    else attribute_value st serial key.
Proof.
  induction rows as [|a rows IH]; intros st st' Hnd Hrun serial key.
  - injection Hrun as <-. now destruct (serial =? dest).
  - inversion Hnd as [|? ? Hnotin Hnd']; subst.
    cbn [for_each] in Hrun. unfold bind in Hrun.
    destruct (replace_attribute _ st) as [[[] st1]| |] eqn:Hrep;
      try discriminate.
    apply replace_attribute_value in Hrep. destruct Hrep as (_ & Hval).
    rewrite (IH st1 st' Hnd' Hrun serial key), !Hval.
    unfold attr_at. cbn [a_serial a_key a_value find].
    rewrite (Z.eqb_sym dest serial).
    destruct (serial =? dest); [|reflexivity].
    cbn [andb]. destruct (ustr_eqb (a_key a) key) eqn:Ek; [|reflexivity].
    rewrite find_absent; [reflexivity|].
    intros x Hx. destruct (ustr_eqb (a_key x) key) eqn:Ex; auto.
    apply ustr_eqb_eq in Ek, Ex. elim Hnotin. rewrite Ek, <- Ex.
    now apply in_map.
Qed.

Lemma copy_rows_run dest rows : forall st,
  version_exists st dest = true ->
  exists st',
    for_each rows
      (fun a => replace_attribute (mk_attr dest (a_key a) (a_value a))) st
    = Ok (tt, st').
Proof.
  induction rows as [|a rows IH]; intros st Hex.
  - now exists st.
  - cbn [for_each]. unfold bind.
    destruct (replace_attribute _ st) as [[[] st1]| |] eqn:Hrep.
    + apply IH. apply replace_attribute_value in Hrep. destruct Hrep as (Hv & _).
      unfold version_exists in *. now rewrite Hv.
    + unfold replace_attribute, bind, get, put, raise in Hrep.
      cbn [a_serial] in Hrep. rewrite Hex in Hrep. discriminate.
    + unfold replace_attribute, bind, get, put, raise in Hrep.
      cbn [a_serial] in Hrep. rewrite Hex in Hrep. discriminate.
Qed.

Lemma find_attr_of_version source key l :
  find (fun a => ustr_eqb (a_key a) key)
       (filter (fun a => a_serial a =? source) l)
  = find (attr_at source key) l.
Proof.
  induction l as [|a l IH]; simpl; auto. unfold attr_at at 1.
  destruct (a_serial a =? source); simpl; auto.
  now destruct (ustr_eqb (a_key a) key).
Qed.

Lemma pk_attributes_keys source l :
  NoDup (map (fun a => (a_serial a, a_key a)) l) ->
  NoDup (map a_key (filter (fun a => a_serial a =? source) l)).
Proof.
  induction l as [|a l IH]; simpl; intros Hnd; [constructor|].
  inversion Hnd as [|? ? Hnotin Hnd']; subst.
  destruct (Z.eqb_spec (a_serial a) source) as [He|]; simpl; auto.
  constructor; auto. intros Hin. apply in_map_iff in Hin.
  destruct Hin as (x & Hk & Hx). apply filter_In in Hx.
  destruct Hx as (Hx & Hs%Z.eqb_eq). apply Hnotin.
  apply in_map_iff. exists x. split; auto. congruence.
Qed.

(** C10: [attribute_copy] ends whenever the destination version exists,
    and when it ends, every key of the source version has on the
    destination the source's value, every other key of the destination
    is as before, and the attributes of the source and of every version
    other than the destination are unchanged. *)
Theorem attribute_copy_upsert st source dest (Hpk : pk_attributes st) :
  (version_exists st dest = true ->
   exists st', attribute_copy source dest st = Ok (tt, st')) /\
  (forall st', attribute_copy source dest st = Ok (tt, st') ->
     (forall key value, attribute_value st source key = Some value ->
                        attribute_value st' dest key = Some value) /\
     (forall key, attribute_value st source key = None ->
                  attribute_value st' dest key = attribute_value st dest key) /\
     (forall key, attribute_value st' source key
                  = attribute_value st source key) /\
     (forall serial key, serial <> dest ->
                         attribute_value st' serial key
                         = attribute_value st serial key)).
Proof.
  unfold attribute_copy, bind, get. split.
  - intros Hex. now apply copy_rows_run.
  - intros st' Hrun.
    pose proof (copy_rows_value dest _ st st'
                  (pk_attributes_keys source _ Hpk) Hrun) as Hval.
    assert (Hdest : forall key,
              attribute_value st' dest key =
              match attribute_value st source key with
              | Some value => Some value
              | None => attribute_value st dest key
              end).
    { intros key. rewrite (Hval dest key), Z.eqb_refl, find_attr_of_version.
      unfold attribute_value at 2.
      now destruct (find (attr_at source key) (attributes st)). }
    assert (Hother : forall serial key, serial <> dest ->
              attribute_value st' serial key = attribute_value st serial key).
    { intros serial key Hne. rewrite (Hval serial key).
      destruct (Z.eqb_spec serial dest); [contradiction|reflexivity]. }
    repeat split; auto.
    + intros key value Hs. now rewrite Hdest, Hs.
    + intros key Hs. now rewrite Hdest, Hs.
    + intros key. destruct (Z.eq_dec source dest) as [->|Hne]; auto.
      rewrite Hdest. now destruct (attribute_value st dest key).
Qed.

Lemma attribute_copy_upsert_witness :
  pk_attributes db_attributes /\
  exists st',
    attribute_copy 1 2 db_attributes = Ok (tt, st') /\
    attribute_value st' 2 (u "color") = Some (u "red") /\
    attribute_value st' 2 (u "size") = Some (u "big") /\
    attribute_value st' 2 (u "owner") = Some (u "me") /\
    attribute_value st' 1 (u "owner") = None.
Proof.
  assert (Hpk : pk_attributes db_attributes).
  { unfold pk_attributes. vm_compute.
    repeat constructor; simpl; intuition discriminate. }
  split; [exact Hpk|].
  destruct (attribute_copy_upsert db_attributes 1 2 Hpk) as (Hrun & Hspec).
  destruct (Hrun eq_refl) as (st' & Hst'). exists st'.
  destruct (Hspec st' Hst') as (Hcopy & Hkeep & Hsrc & _).
  split; [exact Hst'|].
  split; [apply Hcopy; reflexivity|].
  split; [apply Hcopy; reflexivity|].
  split; [rewrite Hkeep; reflexivity|].
  rewrite Hsrc. reflexivity.
Defined.

(** ** What [node_purge_children] does *)

Lemma first_hop_child_of fuel st node top l :
  ancestors fuel (nodes st) node = Some l ->
  match l with p :: _ => top =? p | [] => false end = child_of st node top.
Proof.
  unfold child_of, node_get_properties.
  destruct fuel as [|k]; [discriminate|]. simpl.
  destruct (node =? 0); [now intros [= <-]|].
  destruct (find _ (nodes st)) as [r|]; [|now intros [= <-]].
  destruct (ancestors k (nodes st) (n_parent r)); [|discriminate].
  intros [= <-]. simpl. apply Z.eqb_sym.
Qed.

(** The walk, with both columns. *)
Lemma walk_stats fuel st node population size mtime cluster :
  integrity fuel st ->
  exists st',
    statistics_update_ancestors fuel node population size mtime cluster st
      = Ok (tt, st') /\
    same_rows st st' /\
    (forall top c, stat_size st' top c =
                   stat_size st top c +
                   (if (c =? cluster) && under fuel (nodes st) node top
                    then size else 0)) /\
    (forall top c, stat_population st' top c =
                   stat_population st top c +
                   (if (c =? cluster) && child_of st node top
                    then population else 0)).
Proof.
  intros Hint.
  destruct (integrity_ancestors fuel st node Hint) as (l & Hl & Hnd & Hex).
  destruct (statistics_update_ancestors_spec fuel st node population size
              mtime cluster l Hl Hex) as (st' & Hrun & Hsame & Hsize & Hpop).
  exists st'. split; [exact Hrun|]. split; [exact Hsame|]. split.
  - intros top c. rewrite Hsize. unfold under. rewrite Hl.
    rewrite (occurrences_NoDup top l Hnd).
    destruct (c =? cluster), (memZ top l); simpl; lia.
  - intros top c. rewrite Hpop.
    now rewrite (first_hop_child_of fuel st node top l Hl).
Qed.

Lemma purge_children_sel_spec st parent before cluster v :
  purge_children_sel st parent before cluster v = true <->
  resides_at_child st parent v /\ v_cluster v = cluster /\
  le_bound (v_mtime v) before = true.
Proof.
  unfold purge_children_sel, resides_at_child.
  rewrite !andb_true_iff, memZ_In, children_of_In, Z.eqb_eq.
  split.
  - intros (((r & Hr & Hp & Hn) & Hc) & Ht). eauto 8.
  - intros ((r & Hr & Hn & Hp) & Hc & Ht). eauto 8.
Qed.

Lemma cascade_incl k ns : forall doomed x,
  In x doomed -> In x (cascade k ns doomed).
Proof.
  induction k as [|k IH]; simpl; intros doomed x Hx; auto.
  apply IH. apply in_or_app. now left.
Qed.


Lemma node_exists_filter (st : db) (g : node_row -> bool) x :
  existsb (fun r => n_node r =? x) (filter g (nodes st)) = true <->
  exists r, In r (nodes st) /\ g r = true /\ n_node r = x.
Proof.
  rewrite existsb_exists. split.
  - intros (r & Hr & He%Z.eqb_eq). apply filter_In in Hr. exists r. tauto.
  - intros (r & Hr & Hg & He). exists r. split; [|now apply Z.eqb_eq].
    apply filter_In. tauto.
Qed.


(** C6: on the chain root - 1 - 2 - 3, with a version at node 2 and one
    at node 3 and the stored sizes those of the versions below each
    node, [node_purge_children] of node 1 selects the version at node 2
    only and returns its hash only. It then deletes node 2, left without
    versions, although node 2 has a child: node 3 goes with it, and so
    does the version at node 3, which was not selected and whose hash is
    not returned; its size stays in the statistics of node 1 and of the
    root, above a store with no version left. [node_remove] of the same
    node refuses, because the node has a child. *)
Theorem purge_children_prunes_node_with_children :
  integrity 4 db_chain /\
  node_count_children db_chain 2 = 1 /\
  node_get_properties db_chain 3 = Some (2, u "a/b/c") /\
  filter (purge_children_sel db_chain 1 Inf 0) (versions db_chain)
  = [mk_version 1 2 (u "h1") 10 None 10 (u "user") 0] /\
  In (mk_version 2 3 (u "h2") 7 None 11 (u "user") 0) (versions db_chain) /\
  stat_size db_chain 1 0 = size_under 4 db_chain 1 0 /\
  stat_size db_chain 0 0 = size_under 4 db_chain 0 0 /\
  node_remove 4 20 2 db_chain = Ok (false, db_chain) /\
  exists st',
    node_purge_children 4 20 1 Inf 0 db_chain = Ok ([u "h1"], st') /\
    node_get_properties st' 2 = None /\
    node_get_properties st' 3 = None /\
    versions st' = [] /\
    stat_size st' 1 0 = 7 /\ size_under 4 st' 1 0 = 0 /\
    stat_size st' 0 0 = 7 /\ size_under 4 st' 0 0 = 0.
Proof.
  split; [apply integrityb_sound; reflexivity|].
  split; [reflexivity|]. split; [reflexivity|]. split; [reflexivity|].
  split; [right; now left|]. split; [reflexivity|]. split; [reflexivity|].
  split; [reflexivity|].
  eexists. split; [vm_compute; reflexivity|]. repeat split.
Qed.


(** ** The order of paths *)

Lemma ustr_ltb_irrefl a : ustr_ltb a a = false.
Proof.
  induction a as [|x a IH]; simpl; auto.
  now rewrite Z.ltb_irrefl, Z.eqb_refl, IH.
Qed.

Lemma ustr_ltb_trans a : forall b c,
  ustr_ltb a b = true -> ustr_ltb b c = true -> ustr_ltb a c = true.
Proof.
  induction a as [|x a IH]; intros [|y b] [|z c]; simpl; try discriminate; auto.
  rewrite !orb_true_iff, !andb_true_iff, !Z.ltb_lt, !Z.eqb_eq.
  intros [Hxy|(Hxy & Hab)] [Hyz|(Hyz & Hbc)].
  - left. lia.
  - left. lia.
  - left. lia.
  - right. split; [lia|]. eapply IH; eauto.
Qed.

Lemma ustr_ltb_total a : forall b,
  ustr_ltb a b = false -> ustr_ltb b a = false -> a = b.
Proof.
  induction a as [|x a IH]; intros [|y b]; simpl; try discriminate; auto.
  rewrite !orb_false_iff, !andb_false_iff, !Z.ltb_ge, !Z.eqb_neq.
  intros (Hxy & Hab) (Hyx & Hba).
  assert (x = y) as -> by lia. f_equal. apply IH.
  - destruct Hab; [contradiction|auto].
  - destruct Hba; [contradiction|auto].
Qed.

Lemma ustr_ltb_asym a b : ustr_ltb a b = true -> ustr_ltb b a = false.
Proof.
  intros H. destruct (ustr_ltb b a) eqn:E; auto.
  rewrite <- (ustr_ltb_irrefl a). symmetry. eapply ustr_ltb_trans; eauto.
Qed.

(** [a <= b < c] gives [a < c]. *)
Lemma ustr_le_lt_trans a b c :
  ustr_ltb b a = false -> ustr_ltb b c = true -> ustr_ltb a c = true.
Proof.
  intros Hab Hbc. destruct (ustr_ltb a b) eqn:E.
  - eapply ustr_ltb_trans; eauto.
  - now rewrite (ustr_ltb_total a b E Hab).
Qed.

Lemma path_le_trans r1 r2 r3 : path_le r1 r2 -> path_le r2 r3 -> path_le r1 r3.
Proof.
  unfold path_le. intros H12 H23.
  destruct (ustr_ltb (fst r3) (fst r1)) eqn:E; auto.
  rewrite (ustr_le_lt_trans _ _ _ H23 E) in H12. discriminate.
Qed.

(** [strnextling] of a proper start of [path] is after [path]. *)
Lemma strnextling_after pf : forall rest s,
  pf <> [] -> strnextling pf = Ok s -> ustr_ltb (pf ++ rest) s = true.
Proof.
  induction pf as [|c pf IH]; intros rest s Hne; [contradiction|].
  destruct pf as [|c2 pf].
  - simpl. destruct (c >=? 65535); [discriminate|]. intros [= <-].
    simpl. apply orb_true_iff. left. apply Z.ltb_lt. lia.
  - intros H. unfold strnextling in H.
    change (last (c :: c2 :: pf) 0) with (last (c2 :: pf) 0) in H.
    change (removelast (c :: c2 :: pf)) with (c :: removelast (c2 :: pf)) in H.
    destruct (last (c2 :: pf) 0 >=? 65535) eqn:E; [discriminate|].
    injection H as <-.
    change ((c :: c2 :: pf) ++ rest) with (c :: ((c2 :: pf) ++ rest)).
    change ((c :: removelast (c2 :: pf)) ++ [last (c2 :: pf) 0 + 1])
      with (c :: (removelast (c2 :: pf) ++ [last (c2 :: pf) 0 + 1])).
    cbn [ustr_ltb]. rewrite Z.eqb_refl, Z.ltb_irrefl. cbn [orb andb].
    apply IH; [discriminate|]. unfold strnextling. now rewrite E.
Qed.

Lemma strnextling_ends pf : strnextling pf <> Diverge.
Proof.
  destruct pf as [|c pf]; [discriminate|]. unfold strnextling.
  destruct (_ >=? _); discriminate.
Qed.


Lemma find_from_lower sub : forall s i start,
  0 <= i -> 0 <= find_from i s sub start -> i <= find_from i s sub start.
Proof.
  induction s as [|x s IH]; intros i start Hi; simpl;
    destruct ((start <=? i) && starts_with sub _); try lia.
  intros H. specialize (IH (i + 1) start). lia.
Qed.

(** ** The sorted, distinct rows of a query *)

Lemma insert_row_In r l y : In y (insert_row r l) <-> y = r \/ In y l.
Proof.
  induction l as [|x l IH]; simpl; [intuition|].
  destruct (ustr_ltb (fst x) (fst r)); simpl; [rewrite IH|]; intuition.
Qed.

Lemma order_by_path_In l y : In y (order_by_path l) <-> In y l.
Proof.
  induction l as [|x l IH]; simpl; [tauto|].
  rewrite insert_row_In, IH. intuition.
Qed.

Lemma insert_row_sorted r l :
  StronglySorted path_le l -> StronglySorted path_le (insert_row r l).
Proof.
  induction l as [|x l IH]; simpl; intros Hs.
  - repeat constructor.
  - inversion Hs as [|? ? Hs' Hall]; subst.
    destruct (ustr_ltb (fst x) (fst r)) eqn:E.
    + constructor; auto. apply Forall_forall. intros y Hy.
      apply insert_row_In in Hy. destruct Hy as [->|Hy].
      * unfold path_le. now apply ustr_ltb_asym.
      * rewrite Forall_forall in Hall. auto.
    + constructor; auto. constructor; auto.
      eapply Forall_impl; [|exact Hall]. intros y Hy.
      now apply (path_le_trans r x y).
Qed.

Lemma order_by_path_sorted l : StronglySorted path_le (order_by_path l).
Proof.
  induction l as [|x l IH]; simpl; [constructor|].
  now apply insert_row_sorted.
Qed.

Lemma insert_row_NoDup r l :
  NoDup l -> ~ In r l -> NoDup (insert_row r l).
Proof.
  induction l as [|x l IH]; simpl; intros Hnd Hnotin.
  - repeat constructor. intros [].
  - inversion Hnd as [|? ? Hx Hnd']; subst.
    destruct (ustr_ltb (fst x) (fst r)).
    + constructor.
      * rewrite insert_row_In. intros [->|H]; [apply Hnotin; now left|auto].
      * apply IH; auto.
    + constructor; auto.
Qed.

Lemma order_by_path_NoDup l : NoDup l -> NoDup (order_by_path l).
Proof.
  induction l as [|x l IH]; simpl; intros Hnd; [constructor|].
  inversion Hnd; subst. apply insert_row_NoDup; auto.
  now rewrite order_by_path_In.
Qed.

Lemma row_eqb_eq (r x : ustring * Z) :
  ustr_eqb (fst r) (fst x) && (snd r =? snd x) = true <-> r = x.
Proof.
  rewrite andb_true_iff, ustr_eqb_eq, Z.eqb_eq.
  destruct r, x; simpl. split; [intros (-> & ->); auto | intros [= -> ->]; auto].
Qed.

Lemma distinct_rows_In l y : In y (distinct_rows l) <-> In y l.
Proof.
  induction l as [|x l IH]; simpl; [tauto|].
  destruct (existsb _ l) eqn:E; simpl; rewrite IH; [|tauto].
  split; [tauto|]. intros [<-|H]; auto.
  apply existsb_exists in E. destruct E as (z & Hz & He).
  apply row_eqb_eq in He. now subst.
Qed.

Lemma distinct_rows_NoDup l : NoDup (distinct_rows l).
Proof.
  induction l as [|x l IH]; simpl; [constructor|].
  destruct (existsb _ l) eqn:E; auto. constructor; auto.
  rewrite distinct_rows_In. intros Hin.
  assert (existsb (fun z => ustr_eqb (fst x) (fst z) && (snd x =? snd z)) l
          = true).
  { apply existsb_exists. exists x. split; auto. now apply row_eqb_eq. }
  congruence.
Qed.

(** ** The scan ends *)

Lemma sorted_before {A} (R : A -> A -> Prop) l1 x l2 :
  StronglySorted R (l1 ++ x :: l2) -> forall y, In y l1 -> R y x.
Proof.
  induction l1 as [|z l1 IH]; simpl; intros Hs y Hy; [contradiction|].
  inversion Hs as [|? ? Hs' Hall]; subst.
  destruct Hy as [->|Hy]; [|now apply IH].
  rewrite Forall_forall in Hall. apply Hall. apply in_or_app. right. now left.
Qed.


Lemma scan_ext requery requery' pfz delimiter limit fuel :
  (forall s, requery s = requery' s) ->
  forall cursor count0 matches prefixes,
  scan fuel requery pfz delimiter limit cursor count0 matches prefixes
  = scan fuel requery' pfz delimiter limit cursor count0 matches prefixes.
Proof.
  intros Hext. induction fuel as [|fuel IH];
    intros cursor count0 matches prefixes; [reflexivity|].
  simpl. destruct cursor as [|props cursor]; [reflexivity|].
  rewrite !IH. unfold result_bind.
  destruct (strnextling _); try reflexivity.
  rewrite Hext. destruct (requery' a); try reflexivity.
  now rewrite IH.
Qed.

Section ScanEnds.

Variable pfz : Z.
Variable delimiter : ustring.
Variable limit : Z.
Variable rows : ustring -> list (ustring * Z).

Hypothesis delimiter_not_empty : delimiter <> [].
Hypothesis rows_sorted : forall s, StronglySorted path_le (rows s).
Hypothesis rows_NoDup : forall s, NoDup (rows s).
Hypothesis rows_after :
  forall s r, In r (rows s) -> ustr_ltb s (fst r) = true.
Hypothesis rows_mono :
  forall s s' r, In r (rows s') -> ustr_ltb s (fst r) = true -> In r (rows s).



End ScanEnds.

(** ** Attribute filters *)

Section Filters.

Variable like_prefix : ustring -> ustring -> bool.
Variable uni_word : Z -> bool.
Variable uni_space : Z -> bool.

Lemma and_join_head c cs :
  exists rest, and_join (c :: cs) = T_cond c :: rest.
Proof. destruct cs; simpl; eauto. Qed.

Lemma construct_filters_head filterq subq :
  _construct_filters uni_word uni_space filterq = Some subq ->
  exists c rest, subq = T_cond c :: rest.
Proof.
  unfold _construct_filters.
  destruct filterq as [[|x filterq]|]; try discriminate.
  destruct (_parse_filters _ _ _) as [[included excluded] opers].
  destruct (_ ++ _ ++ _) as [|c cs]; [discriminate|].
  intros [= <-]. exists c. apply and_join_head.
Qed.

(** The fragment of the filters is written after the query with a space
    and no [and]: the engine refuses every listing with a filter. *)
Lemma filtered_listing_raises st parent prefix delimiter start limit
    before except_cluster pathq filterq subq :
  _construct_filters uni_word uni_space filterq = Some subq ->
  exists e, forall fuel,
    latest_version_list like_prefix uni_word uni_space fuel st parent prefix
      delimiter start limit before except_cluster pathq filterq = Raise e.
Proof.
  intros Hsub.
  destruct (construct_filters_head _ _ Hsub) as (c & rest & ->).
  unfold latest_version_list, result_bind.
  destruct (strnextling prefix) as [nextling| |] eqn:Hnext.
  - exists OperationalError. intros fuel.
    assert (Hrej : forall start limit,
              execute_select like_prefix st
                (listing_statement uni_word uni_space parent start nextling
                   before except_cluster pathq filterq limit)
              = Raise OperationalError).
    { intros start' limit'. unfold execute_select, listing_statement.
      rewrite Hsub. destruct pathq; reflexivity. }
    destruct delimiter as [[|d delimiter]|]; now rewrite Hrej.
  - eauto.
  - now elim (strnextling_ends prefix).
Qed.

(** C4: the filter "color==red,!archived" is parsed into the excluded
    key archived and the comparison color == red, and the text built
    from them is appended to the query after a space, with no [and]
    before it: the engine refuses the statement, and no listing with
    this filter returns, whatever the versions and their attributes. Were
    the text joined with [and], its conditions would still be tested on
    one attribute row at a time: the row color = red of a version
    passes them all, also when the version has an attribute archived. *)
Theorem filter_query_is_rejected :
  _parse_filters uni_word uni_space (u "color==red,!archived")
  = ([], [u "archived"], [(u "color", Op_eq, u "red")]) /\
  option_map where_text
    (_construct_filters uni_word uni_space (Some (u "color==red,!archived")))
  = Some "a.key not in (?) and ((a.key = ? and a.value == ?))"%string /\
  (forall st parent prefix delimiter start limit before except_cluster pathq,
     exists e, forall fuel,
       latest_version_list like_prefix uni_word uni_space fuel st parent
         prefix delimiter start limit before except_cluster pathq
         (Some (u "color==red,!archived")) = Raise e) /\
  (forall st serial v n,
     forallb (fun c => eval_cond like_prefix st c
                         (Some (mk_attr serial (u "color") (u "red"))) v n)
             [C_key_not_in [u "archived"];
              C_opers [(u "color", Op_eq, u "red")]] = true).
Proof.
  split; [vm_compute; reflexivity|]. split; [vm_compute; reflexivity|]. split.
  - intros. eapply filtered_listing_raises. vm_compute. reflexivity.
  - intros. reflexivity.
Qed.

End Filters.

(** ** Listing with a delimiter *)

Section Listing.

Variable like_prefix : ustring -> ustring -> bool.
Variable uni_word : Z -> bool.
Variable uni_space : Z -> bool.

Lemma count_app {A} (l1 l2 : list A) : count (l1 ++ l2) = count l1 + count l2.
Proof. unfold count. rewrite length_app. lia. Qed.



(** The statement without a filter is accepted. *)
Lemma unfiltered_select st parent start nextling before except_cluster pathq
    filterq limit :
  _construct_filters uni_word uni_space filterq = None ->
  execute_select like_prefix st
    (listing_statement uni_word uni_space parent start nextling before
                       except_cluster pathq filterq limit)
  = let sorted :=
      order_by_path
        (distinct_rows
           (map (fun '(a, v, n) => (n_path n, v_serial v))
                (filter (fun '(a, v, n) =>
                           forallb (fun c => eval_cond like_prefix st c a v n)
                                   (unfiltered_conds parent start nextling
                                      before except_cluster pathq))
                        (join_rows st false)))) in
    Ok (match limit with
        | Some k => if k <? 0 then sorted else firstn (Z.to_nat k) sorted
        | None => sorted
        end).
Proof.
  intros Hnone. unfold execute_select, listing_statement, unfiltered_conds.
  rewrite Hnone. destruct pathq; reflexivity.
Qed.

Section Rows.

Variable st : db.
Variable parent : Z.
Variable nextling : ustring.
Variable before : bound.
Variable except_cluster : Z.
Variable pathq : list ustring.
Variable filterq : option ustring.
Hypothesis no_filter : _construct_filters uni_word uni_space filterq = None.

Let rows := listing_rows like_prefix uni_word uni_space st parent nextling
              before except_cluster pathq filterq.

Lemma listing_rows_In s r :
  In r (rows s) <->
  exists a v n,
    In (a, v, n) (join_rows st false) /\
    forallb (fun c => eval_cond like_prefix st c a v n)
            (unfiltered_conds parent s nextling before except_cluster pathq)
    = true /\
    r = (n_path n, v_serial v).
Proof.
  unfold rows, listing_rows. rewrite (unfiltered_select _ _ _ _ _ _ _ _ _ no_filter).
  cbv zeta. rewrite order_by_path_In, distinct_rows_In, in_map_iff. split.
  - intros ([[a v] n] & <- & Hin). apply filter_In in Hin.
    destruct Hin as (Hin & Hc). exists a, v, n. auto.
  - intros (a & v & n & Hin & Hc & ->). exists (a, v, n). split; auto.
    apply filter_In. auto.
Qed.

Lemma listing_rows_sorted s : StronglySorted path_le (rows s).
Proof.
  unfold rows, listing_rows. rewrite (unfiltered_select _ _ _ _ _ _ _ _ _ no_filter).
  apply order_by_path_sorted.
Qed.

Lemma listing_rows_NoDup s : NoDup (rows s).
Proof.
  unfold rows, listing_rows. rewrite (unfiltered_select _ _ _ _ _ _ _ _ _ no_filter).
  apply order_by_path_NoDup, distinct_rows_NoDup.
Qed.

Lemma listing_rows_after s r : In r (rows s) -> ustr_ltb s (fst r) = true.
Proof.
  intros Hin. apply listing_rows_In in Hin.
  destruct Hin as (a & v & n & _ & Hc & ->).
  rewrite forallb_forall in Hc.
  apply (Hc (C_path_gt s)). unfold unfiltered_conds. simpl. tauto.
Qed.

Lemma listing_rows_mono s s' r :
  In r (rows s') -> ustr_ltb s (fst r) = true -> In r (rows s).
Proof.
  intros Hin Hlt. apply listing_rows_In in Hin.
  destruct Hin as (a & v & n & Hin & Hc & ->).
  apply listing_rows_In. exists a, v, n. repeat split; auto.
  rewrite forallb_forall in Hc. apply forallb_forall. intros c Hcin.
  unfold unfiltered_conds in Hcin. apply in_app_or in Hcin.
  destruct Hcin as [[<-|[<-|[<-|[<-|[<-|[<-|[]]]]]]]|Hcin];
    try (apply Hc; unfold unfiltered_conds; simpl; tauto).
  exact Hlt.
Qed.

End Rows.



End Listing.




(* ===================================================================== *)
(** * Part III: further properties of the class                           *)
(* ===================================================================== *)

(** ** The range of a prefix *)

Lemma ustr_ltb_app_cons s : forall a b, ustr_ltb (s ++ a) (s ++ b) = ustr_ltb a b.
Proof.
  induction s as [|x s IH]; intros a b; simpl; auto.
  now rewrite Z.ltb_irrefl, Z.eqb_refl, IH.
Qed.

Lemma ustr_ltb_proper_start s a : a <> [] -> ustr_ltb s (s ++ a) = true.
Proof.
  intros Ha. rewrite <- (app_nil_r s) at 1. rewrite ustr_ltb_app_cons.
  destruct a; [contradiction|reflexivity].
Qed.

Lemma starts_with_app sub : forall t,
  starts_with sub t = true <-> exists rest, t = sub ++ rest.
Proof.
  induction sub as [|x sub IH]; intros t; simpl.
  - split; eauto.
  - destruct t as [|y t].
    + split; [discriminate | intros (rest & H); discriminate].
    + rewrite andb_true_iff, Z.eqb_eq, IH. split.
      * intros (-> & rest & ->). eauto.
      * intros (rest & [= -> ->]). eauto.
Qed.

Lemma strnextling_snoc s c :
  strnextling (s ++ [c]) =
  if c >=? 65535 then Raise RuntimeError else Ok (s ++ [c + 1]).
Proof.
  unfold strnextling. destruct (s ++ [c]) eqn:E.
  - destruct s; discriminate.
  - rewrite <- E, removelast_last, last_last. reflexivity.
Qed.

Lemma strprevling_snoc s c :
  strprevling (s ++ [c]) = if c >? 0 then s ++ [c - 1; 65535] else s.
Proof.
  unfold strprevling. destruct (s ++ [c]) eqn:E.
  - destruct s; discriminate.
  - rewrite <- E, removelast_last, last_last. reflexivity.
Qed.

Lemma ustr_ltb_nil_r t : ustr_ltb t [] = false.
Proof. now destruct t. Qed.

(** Between the string before a prefix and the string after it, a
    string of code points below 0xffff starts with the prefix. *)
Lemma between_starts_with c : forall s t,
  0 <= c ->
  Forall (fun x => 0 <= x < 65535) t ->
  ustr_ltb (if c >? 0 then s ++ [c - 1; 65535] else s) t = true ->
  ustr_ltb t (s ++ [c + 1]) = true ->
  starts_with (s ++ [c]) t = true.
Proof.
  induction s as [|a s IH]; intros t Hc Ht Hlo Hhi.
  - destruct t as [|x t]; [now destruct (c >? 0)|].
    inversion Ht as [|? ? Hx Ht']; subst.
    simpl in Hhi. rewrite ustr_ltb_nil_r, andb_false_r, orb_false_r in Hhi.
    apply Z.ltb_lt in Hhi. simpl.
    destruct (Z.gtb_spec c 0) as [Hpos|Hzero].
    + cbn [app ustr_ltb] in Hlo. apply orb_true_iff in Hlo.
      destruct Hlo as [Hlo|Hlo].
      * apply Z.ltb_lt in Hlo. replace x with c by lia.
        now rewrite Z.eqb_refl.
      * apply andb_prop in Hlo. destruct Hlo as (_ & Hlo).
        destruct t as [|y t]; [discriminate|].
        inversion Ht' as [|? ? Hy _]; subst. cbn [ustr_ltb] in Hlo.
        apply orb_true_iff in Hlo. destruct Hlo as [Hlo|Hlo].
        -- apply Z.ltb_lt in Hlo. lia.
        -- apply andb_prop in Hlo. destruct Hlo as (Hlo%Z.eqb_eq & _). lia.
    + replace x with c by lia. now rewrite Z.eqb_refl.
  - destruct t as [|x t].
    + now destruct (c >? 0).
    + inversion Ht as [|? ? Hx Ht']; subst.
      assert (Hlo' : ustr_ltb
                       (a :: (if c >? 0 then s ++ [c - 1; 65535] else s))
                       (x :: t) = true)
        by (now destruct (c >? 0)).
      simpl in Hlo', Hhi. apply orb_true_iff in Hlo', Hhi.
      assert (Hax : x = a).
      { destruct Hlo' as [H1|H1], Hhi as [H2|H2];
          rewrite ?andb_true_iff, ?Z.ltb_lt, ?Z.eqb_eq in *; lia. }
      subst x. simpl. rewrite Z.eqb_refl. simpl.
      rewrite Z.ltb_irrefl, Z.eqb_refl in Hlo', Hhi. simpl in Hlo', Hhi.
      destruct Hlo' as [|Hlo']; [discriminate|].
      destruct Hhi as [|Hhi]; [discriminate|].
      now apply IH.
Qed.

(** X1: for a prefix that is not empty, every string that starts with
    the prefix lies strictly between [strprevling prefix] and
    [strnextling prefix], the bounds that [latest_version_list] puts on
    the paths; and a string of code points below 0xffff between these
    bounds starts with the prefix. *)
Theorem prefix_range prefix nextling t
    (Hne : prefix <> [])
    (Hnext : strnextling prefix = Ok nextling) :
  (starts_with prefix t = true ->
   ustr_ltb (strprevling prefix) t = true /\ ustr_ltb t nextling = true) /\
  (0 <= last prefix 0 ->
   Forall (fun x => 0 <= x < 65535) t ->
   ustr_ltb (strprevling prefix) t = true -> ustr_ltb t nextling = true ->
   starts_with prefix t = true).
Proof.
  destruct (exists_last Hne) as (s & c & ->).
  rewrite last_last. rewrite strnextling_snoc in Hnext.
  destruct (c >=? 65535); [discriminate|]. injection Hnext as <-.
  rewrite strprevling_snoc. split.
  - intros Hstart. apply starts_with_app in Hstart.
    destruct Hstart as (rest & ->). split.
    + destruct (c >? 0).
      * rewrite <- !app_assoc, ustr_ltb_app_cons. simpl.
        apply orb_true_iff. left. apply Z.ltb_lt. lia.
      * rewrite <- app_assoc. apply ustr_ltb_proper_start. discriminate.
    + rewrite <- app_assoc, ustr_ltb_app_cons. simpl.
      apply orb_true_iff. left. apply Z.ltb_lt. lia.
  - intros Hc Ht Hlo Hhi. now apply between_starts_with.
Qed.

Lemma prefix_range_witness :
  ustr_ltb (strprevling (u "ab")) (u "abc") = true /\
  ustr_ltb (u "abc") (u "ac") = true /\
  starts_with (u "ab") (u "abd") = true.
Proof.
  assert (Hne : u "ab" <> []) by discriminate.
  assert (Hnext : strnextling (u "ab") = Ok (u "ac")) by reflexivity.
  destruct (prefix_range (u "ab") (u "ac") (u "abc") Hne Hnext) as (Hin & _).
  destruct (prefix_range (u "ab") (u "ac") (u "abd") Hne Hnext) as (_ & Hout).
  split; [apply Hin; reflexivity|]. split; [apply Hin; reflexivity|].
  apply Hout.
  - vm_compute. discriminate.
  - repeat constructor; vm_compute; intuition discriminate.
  - reflexivity.
  - reflexivity.
Defined.

(** ** Creating nodes *)

Lemma find_snoc {A} (f : A -> bool) (l : list A) (x : A) :
  find f (l ++ [x]) =
  match find f l with
  | Some y => Some y
  | None => if f x then Some x else None
  end.
Proof.
  induction l as [|y l IH]; simpl; [reflexivity|].
  now destruct (f y).
Qed.

Lemma existsb_find {A} (f : A -> bool) (l : list A) :
  existsb f l = match find f l with Some _ => true | None => false end.
Proof.
  induction l as [|y l IH]; simpl; [reflexivity|].
  now destruct (f y).
Qed.

Lemma next_rowid_positive ids : 0 < next_rowid ids.
Proof.
  unfold next_rowid. induction ids as [|y ids IH]; simpl; lia.
Qed.

Lemma next_rowid_new st :
  node_exists st (next_rowid (map n_node (nodes st))) = false.
Proof.
  unfold node_exists. destruct (existsb _ (nodes st)) eqn:E; auto.
  apply existsb_exists in E. destruct E as (r & Hr & He%Z.eqb_eq).
  pose proof (next_rowid_fresh (map n_node (nodes st)) (n_node r)
                (in_map n_node _ _ Hr)). lia.
Qed.

Lemma node_lookup_taken st path :
  existsb (fun r => ustr_eqb (n_path r) path) (nodes st) =
  match node_lookup st path with Some _ => true | None => false end.
Proof.
  unfold node_lookup. rewrite existsb_find.
  now destruct (find _ (nodes st)).
Qed.

Lemma node_exists_find st node :
  node_exists st node =
  match node_get_properties st node with Some _ => true | None => false end.
Proof.
  unfold node_exists, node_get_properties. rewrite existsb_find.
  now destruct (find _ (nodes st)).
Qed.

(** X2: [node_create] gives the new row the next rowid, an identifier
    that no node has; it succeeds exactly when the path is new and the
    parent is a node of the store or the new row itself, and then the
    path looks up to the new node, the new node has the given parent and
    path, and every other path and node is as before. With a path that
    is taken, or a parent that is neither, it raises IntegrityError. *)
Theorem node_create_outcome parent path st :
  let node := next_rowid (map n_node (nodes st)) in
  node_exists st node = false /\
  (node_lookup st path = None ->
   node_exists st parent = true \/ parent = node ->
   exists st',
     node_create parent path st = Ok (node, st') /\
     node_lookup st' path = Some node /\
     node_get_properties st' node = Some (parent, path) /\
     (forall p, p <> path -> node_lookup st' p = node_lookup st p) /\
     (forall n, n <> node ->
                node_get_properties st' n = node_get_properties st n) /\
     policy st' = policy st /\ statistics st' = statistics st /\
     versions st' = versions st /\ attributes st' = attributes st) /\
  (node_lookup st path <> None \/
   (node_exists st parent = false /\ parent <> node) ->
   node_create parent path st = Raise IntegrityError).
Proof.
  intros node. split; [apply next_rowid_new|]. split.
  - intros Hpath Hparent.
    exists (mk_db (nodes st ++ [mk_node node parent path]) (policy st)
                  (statistics st) (versions st) (attributes st)).
    split.
    { unfold node_create, bind, get, put, ret, raise. fold node.
      rewrite node_lookup_taken, Hpath.
      destruct Hparent as [->| ->]; [reflexivity|].
      now rewrite Z.eqb_refl, orb_true_r. }
    assert (Hnew : node_get_properties st node = None).
    { pose proof (next_rowid_new st) as H. fold node in H.
      rewrite node_exists_find in H.
      now destruct (node_get_properties st node). }
    split; [|split; [|split; [|split; [|repeat split]]]].
    + unfold node_lookup in *. cbn [nodes]. rewrite find_snoc. cbn [n_path].
      destruct (find _ (nodes st)); [discriminate|].
      assert (ustr_eqb path path = true) as -> by now apply ustr_eqb_eq.
      reflexivity.
    + unfold node_get_properties in *. cbn [nodes]. rewrite find_snoc.
      cbn [n_node]. destruct (find _ (nodes st)); [discriminate|].
      now rewrite Z.eqb_refl.
    + intros p Hp. unfold node_lookup. cbn [nodes]. rewrite find_snoc.
      cbn [n_path]. destruct (find _ (nodes st)); [reflexivity|].
      destruct (ustr_eqb path p) eqn:E; [|reflexivity].
      apply ustr_eqb_eq in E. congruence.
    + intros n Hn. unfold node_get_properties. cbn [nodes]. rewrite find_snoc.
      cbn [n_node]. destruct (find _ (nodes st)) as [r|]; [reflexivity|].
      destruct (Z.eqb_spec node n); [congruence | reflexivity].
  - intros Hbad. unfold node_create, bind, get, put, ret, raise. fold node.
    rewrite node_lookup_taken.
    destruct (node_lookup st path); [reflexivity|].
    destruct Hbad as [Hbad|(Hex & Hne)]; [now elim Hbad|].
    rewrite Hex. destruct (Z.eqb_spec parent node); [contradiction|reflexivity].
Qed.

Lemma node_create_outcome_witness :
  (exists st',
     node_create 1 (u "a/c") db_nested = Ok (3, st') /\
     node_lookup st' (u "a/c") = Some 3 /\
     node_get_properties st' 3 = Some (1, u "a/c")) /\
  node_create 1 (u "a/b") db_nested = Raise IntegrityError /\
  node_create 9 (u "a/c") db_nested = Raise IntegrityError.
Proof.
  destruct (node_create_outcome 1 (u "a/c") db_nested) as (_ & Hok & _).
  destruct (node_create_outcome 1 (u "a/b") db_nested) as (_ & _ & Hdup).
  destruct (node_create_outcome 9 (u "a/c") db_nested) as (_ & _ & Hfk).
  split; [|split].
  - destruct Hok as (st' & Hrun & Hl & Hp & _);
      [reflexivity | left; reflexivity |].
    exists st'. auto.
  - apply Hdup. left. discriminate.
  - apply Hfk. right. split; [reflexivity | discriminate].
Defined.

(** The walk from a node that is its own parent, other than the root,
    does not end. *)
Lemma walk_own_parent fuel :
  forall st node population size mtime cluster path,
  node <> 0 -> node_get_properties st node = Some (node, path) ->
  statistics_update_ancestors fuel node population size mtime cluster st
  = Diverge.
Proof.
  induction fuel as [|fuel IH];
    intros st node population size mtime cluster path Hnz Hself;
    [reflexivity|].
  simpl. destruct (Z.eqb_spec node 0); [contradiction|].
  unfold bind at 1, get at 1. rewrite Hself.
  assert (Hex : node_exists st node = true)
    by (now rewrite node_exists_find, Hself).
  destruct (statistics_update_spec st node population size mtime cluster Hex)
    as (st1 & Hrun & (Hn & _) & _).
  unfold bind. rewrite Hrun. apply (IH st1 node 0 size mtime cluster path Hnz).
  unfold node_get_properties in *. now rewrite Hn.
Qed.

(** X3: [node_create] accepts as parent the identifier that the new row
    is about to get (the row then refers to itself, which satisfies the
    foreign key); the new node is its own parent, the walk of
    [statistics_update_ancestors] from it never reaches the root, and
    [version_create] at this node does not return. *)
Theorem node_create_own_parent path st
    (Hpath : node_lookup st path = None) :
  let node := next_rowid (map n_node (nodes st)) in
  exists st',
    node_create node path st = Ok (node, st') /\
    node_get_properties st' node = Some (node, path) /\
    (forall fuel population size mtime cluster,
       statistics_update_ancestors fuel node population size mtime cluster st'
       = Diverge) /\
    (forall fuel now hash size source muser cluster,
       version_create fuel now node hash size source muser cluster st'
       = Diverge).
Proof.
  intros node.
  set (st' := mk_db (nodes st ++ [mk_node node node path]) (policy st)
                    (statistics st) (versions st) (attributes st)).
  assert (Hnz : node <> 0)
    by (pose proof (next_rowid_positive (map n_node (nodes st))); unfold node; lia).
  assert (Hself : node_get_properties st' node = Some (node, path)).
  { pose proof (next_rowid_new st) as H. fold node in H.
    rewrite node_exists_find in H.
    unfold node_get_properties in *. cbn [nodes st']. rewrite find_snoc.
    cbn [n_node]. destruct (find _ (nodes st)); [discriminate|].
    now rewrite Z.eqb_refl. }
  exists st'. split; [|split; [exact Hself|split]].
  - unfold node_create, bind, get, put, ret, raise. fold node.
    rewrite node_lookup_taken, Hpath. now rewrite Z.eqb_refl, orb_true_r.
  - intros. now apply (walk_own_parent fuel st' node _ _ _ _ path).
  - intros. unfold version_create, bind at 1, get at 1.
    assert (node_exists st' node = true) as ->
      by (now rewrite node_exists_find, Hself).
    unfold bind at 1, put at 1. unfold bind.
    now rewrite (walk_own_parent fuel _ node 1 size now cluster path).
Qed.

Lemma node_create_own_parent_witness :
  exists st',
    node_create 3 (u "loop") db_nested = Ok (3, st') /\
    forall fuel,
      version_create fuel 30 3 (u "h") 1 None (u "user") 0 st' = Diverge.
Proof.
  destruct (node_create_own_parent (u "loop") db_nested eq_refl)
    as (st' & Hrun & _ & _ & Hloop).
  exists st'. split; [exact Hrun|]. intros fuel. apply Hloop.
Defined.

(** ** The walk over the ancestors *)

Lemma statistics_update_get st node population size mtime cluster :
  node_exists st node = true ->
  exists st',
    statistics_update node population size mtime cluster st = Ok (tt, st') /\
    same_rows st st' /\
    forall top c,
      statistics_get st' top c =
      if (top =? node) && (c =? cluster)
      then Some (population + stat_population st node cluster,
                 size + stat_size st node cluster, mtime)
      else statistics_get st top c.
Proof.
  intros Hex. unfold statistics_update, replace_statistics, bind, get, put, raise.
  unfold stat_population, stat_size, statistics_get.
  destruct (find (stat_at node cluster) (statistics st)) as [r0|] eqn:Hfind;
    simpl; rewrite Hex; (eexists; split; [reflexivity|]);
    (split; [repeat split|]); intros top c; cbn [statistics];
    rewrite find_stat_put; now destruct ((top =? node) && (c =? cluster)).
Qed.

Lemma statistics_update_same_rows st node population size mtime cluster r st' :
  statistics_update node population size mtime cluster st = Ok (r, st') ->
  same_rows st st'.
Proof.
  unfold statistics_update, replace_statistics, bind, get, put, raise.
  destruct (find _ (statistics st)); simpl;
    (destruct (node_exists st node); [|discriminate]);
    intros [= <- <-]; repeat split.
Qed.

Lemma walk_same_rows fuel :
  forall st node population size mtime cluster r st',
  statistics_update_ancestors fuel node population size mtime cluster st
  = Ok (r, st') ->
  same_rows st st'.
Proof.
  induction fuel as [|fuel IH];
    intros st node population size mtime cluster r st'; [discriminate|].
  simpl. destruct (node =? 0).
  { intros [= <- <-]. apply same_rows_refl. }
  unfold bind at 1, get at 1.
  destruct (node_get_properties st node) as [[parent path]|].
  2:{ intros [= <- <-]. apply same_rows_refl. }
  unfold bind.
  destruct (statistics_update parent population size mtime cluster st)
    as [[[] st1]| |] eqn:E; try discriminate.
  intros Hrun. apply statistics_update_same_rows in E.
  apply IH in Hrun. eapply same_rows_trans; eauto.
Qed.


Lemma walk_get fuel :
  forall st node population size mtime cluster l,
  ancestors fuel (nodes st) node = Some l -> NoDup l ->
  (forall p, In p l -> node_exists st p = true) ->
  exists st',
    statistics_update_ancestors fuel node population size mtime cluster st
      = Ok (tt, st') /\
    same_rows st st' /\
    forall top c,
      statistics_get st' top c =
      if (c =? cluster) && memZ top l
      then Some (stat_population st top c
                 + (if match l with p :: _ => top =? p | [] => false end
                    then population else 0),
                 stat_size st top c + size, mtime)
      else statistics_get st top c.
Proof.
  induction fuel as [|fuel IH]; intros st node population size mtime cluster l
    Hanc Hnd Hex; [discriminate|].
  simpl in Hanc. simpl.
  destruct (node =? 0).
  { injection Hanc as <-. exists st. split; [reflexivity|].
    split; [apply same_rows_refl|]. intros top c. simpl.
    now rewrite andb_false_r. }
  unfold bind at 1, get at 1. unfold node_get_properties.
  destruct (find _ (nodes st)) as [r|] eqn:Hr.
  2:{ injection Hanc as <-. exists st. split; [reflexivity|].
      split; [apply same_rows_refl|]. intros top c. simpl.
      now rewrite andb_false_r. }
  destruct (ancestors fuel (nodes st) (n_parent r)) as [l'|] eqn:E;
    [|discriminate].
  injection Hanc as <-.
  inversion Hnd as [|? ? Hnotin Hnd']; subst.
  destruct (statistics_update_get st (n_parent r) population size mtime cluster)
    as (st1 & Hrun1 & Hsame1 & Hget1).
  { apply Hex. now left. }
  destruct (IH st1 (n_parent r) 0 size mtime cluster l') as
    (st2 & Hrun2 & Hsame2 & Hget2); auto.
  { destruct Hsame1 as (-> & _). exact E. }
  { intros p Hp. rewrite (node_exists_same st st1) by exact Hsame1.
    apply Hex. now right. }
  exists st2. unfold bind. rewrite Hrun1, Hrun2.
  split; [reflexivity|]. split; [eapply same_rows_trans; eauto|].
  intros top c. rewrite Hget2.
  assert (Hzero : (if match l' with p :: _ => top =? p | [] => false end
                   then 0 else 0) = 0)
    by (now destruct (match l' with p :: _ => top =? p | [] => false end)).
  rewrite Hzero. unfold stat_population, stat_size. rewrite !Hget1.
  unfold memZ. cbn [existsb]. fold (memZ top l').
  destruct (Z.eqb_spec c cluster) as [->|Hc]; cbn [andb].
  2:{ now rewrite andb_false_r. }
  destruct (Z.eqb_spec top (n_parent r)) as [->|Htop]; cbn [andb orb].
  - assert (memZ (n_parent r) l' = false) as ->.
    { destruct (memZ (n_parent r) l') eqn:Hm; auto.
      apply memZ_In in Hm. contradiction. }
    unfold stat_population, stat_size.
    destruct (statistics_get st (n_parent r) cluster) as [[[p0 s0] m0]|];
      f_equal; f_equal; try f_equal; lia.
  - destruct (memZ top l'); [|reflexivity].
    destruct (statistics_get st top cluster) as [[[p0 s0] m0]|];
      f_equal; f_equal; try f_equal; lia.
Qed.

(** X4: on a store that keeps its constraints the walk of
    [statistics_update_ancestors] returns; it rewrites the statistics row
    of (N, cluster) for exactly the nodes N that the given node lies
    strictly under, adding the size to each and the population to the
    row of the parent only, and stamping each with the given mtime; the
    rows of the other nodes and clusters, and the other tables, are left
    as they were. *)
Theorem ancestor_walk_effect fuel st node population size mtime cluster
    (Hint : integrity fuel st) :
  exists st',
    statistics_update_ancestors fuel node population size mtime cluster st
      = Ok (tt, st') /\
    same_rows st st' /\
    forall top c,
      statistics_get st' top c =
      if (c =? cluster) && under fuel (nodes st) node top
      then Some (stat_population st top c
                 + (if child_of st node top then population else 0),
                 stat_size st top c + size, mtime)
      else statistics_get st top c.
Proof.
  destruct (integrity_ancestors fuel st node Hint) as (l & Hl & Hnd & Hex).
  destruct (walk_get fuel st node population size mtime cluster l Hl Hnd Hex)
    as (st' & Hrun & Hsame & Hget).
  exists st'. split; [exact Hrun|]. split; [exact Hsame|].
  intros top c. rewrite Hget. unfold under. rewrite Hl.
  now rewrite (first_hop_child_of fuel st node top l Hl).
Qed.

Lemma ancestor_walk_effect_witness :
  integrity 3 db_nested /\
  exists st',
    statistics_update_ancestors 3 2 1 7 99 0 db_nested = Ok (tt, st') /\
    statistics_get st' 1 0 = Some (2, 17, 99) /\
    statistics_get st' 0 0 = Some (0, 17, 99) /\
    statistics_get st' 2 0 = None.
Proof.
  assert (Hint : integrity 3 db_nested) by (apply integrityb_sound; reflexivity).
  split; [exact Hint|].
  destruct (ancestor_walk_effect 3 db_nested 2 1 7 99 0 Hint)
    as (st' & Hrun & _ & Hget).
  exists st'. split; [exact Hrun|].
  split; [|split]; rewrite Hget; reflexivity.
Defined.

(** ** The invariants on the stores that the methods build *)





Lemma for_each_preserves {A} (R : db -> db -> Prop) (body : A -> M unit) :
  (forall st, R st st) ->
  (forall a b c, R a b -> R b c -> R a c) ->
  (forall x st st', body x st = Ok (tt, st') -> R st st') ->
  forall xs st st', for_each xs body st = Ok (tt, st') -> R st st'.
Proof.
  intros Hrefl Htrans Hbody. induction xs as [|x xs IH]; intros st st'.
  - intros [= <-]. apply Hrefl.
  - cbn [for_each]. unfold bind.
    destruct (body x st) as [[[] st1]| |] eqn:E; try discriminate.
    intros Hrun. eapply Htrans; [eapply Hbody; eauto | eapply IH; eauto].
Qed.

Lemma replace_attribute_tables row st st' :
  replace_attribute row st = Ok (tt, st') ->
  nodes st' = nodes st /\ versions st' = versions st /\
  statistics st' = statistics st.
Proof.
  unfold replace_attribute, bind, get, put, raise.
  destruct (version_exists st (a_serial row)); [|discriminate].
  intros [= <-]. auto.
Qed.

Lemma replace_policy_tables row st st' :
  replace_policy row st = Ok (tt, st') ->
  nodes st' = nodes st /\ versions st' = versions st /\
  statistics st' = statistics st.
Proof.
  unfold replace_policy, bind, get, put, raise.
  destruct (node_exists st (p_node row)); [|discriminate].
  intros [= <-]. auto.
Qed.

Lemma delete_attributes_tables sel st st' :
  delete_attributes sel st = Ok (tt, st') ->
  nodes st' = nodes st /\ versions st' = versions st /\
  statistics st' = statistics st.
Proof. unfold delete_attributes, bind, get, put. intros [= <-]. auto. Qed.

Lemma for_each_tables {A} (body : A -> M unit) :
  (forall x st st', body x st = Ok (tt, st') ->
     nodes st' = nodes st /\ versions st' = versions st /\
     statistics st' = statistics st) ->
  forall xs st st', for_each xs body st = Ok (tt, st') ->
     nodes st' = nodes st /\ versions st' = versions st /\
     statistics st' = statistics st.
Proof.
  intros Hbody.
  apply (for_each_preserves
           (fun st st' => nodes st' = nodes st /\ versions st' = versions st /\
                          statistics st' = statistics st)); auto.
  intros a b c (H1 & H2 & H3) (H4 & H5 & H6). repeat split; congruence.
Qed.

(** *** New nodes *)

Lemma ancestors_snoc fuel ns r :
  (forall y, In y ns -> n_parent y <> n_node r) ->
  forall x, x <> n_node r ->
  ancestors fuel (ns ++ [r]) x = ancestors fuel ns x.
Proof.
  intros Hold. induction fuel as [|fuel IH]; intros x Hx; simpl; auto.
  destruct (x =? 0); auto. rewrite find_snoc.
  destruct (find _ ns) as [y|] eqn:Hf.
  - apply find_some in Hf. destruct Hf as (Hy & _).
    now rewrite (IH (n_parent y) (Hold y Hy)).
  - destruct (Z.eqb_spec (n_node r) x); [congruence | reflexivity].
Qed.

Lemma node_create_inv parent path st node st' :
  node_create parent path st = Ok (node, st') ->
  node = next_rowid (map n_node (nodes st)) /\
  st' = mk_db (nodes st ++ [mk_node node parent path]) (policy st)
              (statistics st) (versions st) (attributes st).
Proof.
  unfold node_create, bind, get, put, ret, raise.
  destruct (existsb _ (nodes st)); [discriminate|].
  destruct (_ || _); [|discriminate].
  intros [= <- <-]. auto.
Qed.

Lemma node_create_spec fuel st parent path node st' :
  integrity fuel st -> node_exists st parent = true ->
  node_create parent path st = Ok (node, st') ->
  integrity (S fuel) st' /\
  (size_invariant fuel st -> size_invariant (S fuel) st') /\
  (population_invariant st -> population_invariant st').
Proof.
  intros Hint Hparent Hrun. apply node_create_inv in Hrun.
  destruct Hrun as (Hnode & ->).
  assert (Hfresh : forall x, node_exists st x = true -> x <> node).
  { intros x Hx ->. rewrite Hnode, next_rowid_new in Hx. discriminate. }
  assert (Hpos : node <> 0)
    by (pose proof (next_rowid_positive (map n_node (nodes st))); lia).
  set (r := mk_node node parent path).
  assert (Hanc : forall k x, x <> node ->
            ancestors k (nodes st ++ [r]) x = ancestors k (nodes st) x).
  { intros k. apply (ancestors_snoc k (nodes st) r).
    intros y Hy. apply Hfresh. now apply (int_fk_parent _ _ Hint). }
  assert (Hsome : forall x, exists l,
            ancestors (S fuel) (nodes st ++ [r]) x = Some l /\
            (x <> node -> ancestors fuel (nodes st) x = Some l)).
  { intros x. destruct (Z.eq_dec x node) as [->|Hx].
    - destruct (ancestors fuel (nodes st) parent) as [l|] eqn:E;
        [|now elim (int_tree _ _ Hint parent)].
      exists (parent :: l). split; [|tauto]. simpl.
      destruct (Z.eqb_spec node 0); [contradiction|].
      rewrite find_snoc.
      pose proof (next_rowid_new st) as Hnew. rewrite <- Hnode in Hnew.
      unfold node_exists in Hnew. rewrite existsb_find in Hnew.
      destruct (find _ (nodes st)); [discriminate|].
      change (n_node r) with node. rewrite Z.eqb_refl.
      change (n_parent r) with parent.
      rewrite (Hanc fuel parent (Hfresh parent Hparent)), E. reflexivity.
    - destruct (ancestors fuel (nodes st) x) as [l|] eqn:E;
        [|now elim (int_tree _ _ Hint x)].
      exists l. split; [|tauto]. rewrite (Hanc (S fuel) x Hx).
      apply (ancestors_more _ _ _ _ E). lia. }
  assert (Hunder : forall v top, In v (versions st) ->
            under (S fuel) (nodes st ++ [r]) (v_node v) top
            = under fuel (nodes st) (v_node v) top).
  { intros v top Hv. unfold under.
    destruct (Hsome (v_node v)) as (l & -> & Hl).
    rewrite Hl; [reflexivity|].
    apply Hfresh. now apply (int_fk_versions _ _ Hint). }
  split; [|split].
  - destruct Hint as [H1 H2 H3 H4 H5 H6]. constructor; cbn [nodes versions].
    + intros x. destruct (Hsome x) as (l & -> & _). discriminate.
    + unfold pk_nodes. cbn [nodes]. rewrite map_app. apply NoDup_app; auto.
      * repeat constructor. intros [].
      * intros x Hx [<-|[]]. apply next_rowid_fresh in Hx.
        change (n_node r) with node in Hx. lia.
    + exact H3.
    + intros y Hy Hz. apply in_app_or in Hy.
      destruct Hy as [Hy|[<-|[]]]; [auto | contradiction].
    + intros y Hy. unfold node_exists. cbn [nodes]. rewrite existsb_app.
      apply in_app_or in Hy. destruct Hy as [Hy|[<-|[]]].
      * fold (node_exists st (n_parent y)). now rewrite (H5 y Hy).
      * cbn [r n_parent]. fold (node_exists st parent). now rewrite Hparent.
    + intros v Hv. unfold node_exists. cbn [nodes]. rewrite existsb_app.
      fold (node_exists st (v_node v)). now rewrite (H6 v Hv).
  - intros Hinv top c.
    change (stat_size _ top c) with (stat_size st top c).
    rewrite (Hinv top c). unfold size_under. cbn [nodes versions].
    apply total_ext. intros v Hv. now rewrite Hunder.
  - intros Hinv top c.
    change (stat_population _ top c) with (stat_population st top c).
    rewrite (Hinv top c). unfold population_of_children. cbn [versions].
    f_equal. apply filter_ext_in. intros v Hv. f_equal.
    unfold child_of, node_get_properties. cbn [nodes]. rewrite find_snoc.
    destruct (find _ (nodes st)) as [y|] eqn:Hf; [reflexivity|].
    pose proof (int_fk_versions _ _ Hint v Hv) as Hex.
    unfold node_exists in Hex. rewrite existsb_find, Hf in Hex. discriminate.
Qed.

(** *** More fuel, same result *)





(** *** The operations, one at a time *)


Lemma attribute_set_tables serial items st st' :
  attribute_set serial items st = Ok (tt, st') ->
  nodes st' = nodes st /\ versions st' = versions st /\
  statistics st' = statistics st.
Proof.
  apply for_each_tables. intros [k v] s s'. apply replace_attribute_tables.
Qed.

Lemma attribute_del_tables serial keys st st' :
  attribute_del serial keys st = Ok (tt, st') ->
  nodes st' = nodes st /\ versions st' = versions st /\
  statistics st' = statistics st.
Proof.
  unfold attribute_del. destruct (is_empty keys).
  - apply delete_attributes_tables.
  - apply for_each_tables. intros k s s'. apply delete_attributes_tables.
Qed.

Lemma attribute_copy_tables source dest st st' :
  attribute_copy source dest st = Ok (tt, st') ->
  nodes st' = nodes st /\ versions st' = versions st /\
  statistics st' = statistics st.
Proof.
  unfold attribute_copy, bind, get.
  apply for_each_tables. intros a s s'. apply replace_attribute_tables.
Qed.

Lemma policy_set_tables node policy st st' :
  policy_set node policy st = Ok (tt, st') ->
  nodes st' = nodes st /\ versions st' = versions st /\
  statistics st' = statistics st.
Proof.
  apply for_each_tables. intros [k v] s s'. apply replace_policy_tables.
Qed.


(** X5: [node_create] under a node of the store keeps the constraints
    of the store (the new node has a parent chain one step longer than
    its parent's), the size invariant and the population invariant: the
    new node has no version and no row of statistics. The parent has one
    child more, and the new node has none. *)
Theorem node_create_keeps_invariants fuel st parent path node st'
    (Hint : integrity fuel st)
    (Hparent : node_exists st parent = true)
    (Hrun : node_create parent path st = Ok (node, st')) :
  integrity (S fuel) st' /\
  (size_invariant fuel st -> size_invariant (S fuel) st') /\
  (population_invariant st -> population_invariant st') /\
  node_count_children st' parent = node_count_children st parent + 1 /\
  node_count_children st' node = 0.
Proof.
  destruct (node_create_spec fuel st parent path node st' Hint Hparent Hrun)
    as (Hint' & Hsize & Hpop).
  split; [exact Hint'|]. split; [exact Hsize|]. split; [exact Hpop|].
  apply node_create_inv in Hrun. destruct Hrun as (Hnode & ->).
  assert (Hfresh : forall x, node_exists st x = true -> x <> node).
  { intros x Hx ->. rewrite Hnode, next_rowid_new in Hx. discriminate. }
  assert (Hpos : 0 < node)
    by (rewrite Hnode; apply next_rowid_positive).
  unfold node_count_children. cbn [nodes]. rewrite !filter_app, !count_app.
  cbn [filter n_parent n_node]. split.
  - rewrite Z.eqb_refl.
    destruct (Z.eqb_spec node 0); [lia | reflexivity].
  - destruct (Z.eqb_spec parent node) as [He|_];
      [now elim (Hfresh parent Hparent)|].
    cbn [andb]. rewrite filter_none; [reflexivity|].
    intros r Hr. destruct (Z.eqb_spec (n_parent r) node) as [He|]; auto.
    elim (Hfresh (n_parent r)); auto. now apply (int_fk_parent _ _ Hint).
Qed.

Lemma node_create_keeps_invariants_witness :
  exists st',
    node_create 2 (u "a/b/c") db_nested = Ok (3, st') /\
    integrity 4 st' /\ size_invariant 4 st'.
Proof.
  assert (Hint : integrity 3 db_nested) by (apply integrityb_sound; reflexivity).
  eexists. split; [vm_compute; reflexivity|].
  destruct (node_create_keeps_invariants 3 db_nested 2 (u "a/b/c") 3 _ Hint
              eq_refl eq_refl) as (Hint' & Hsize & _ & _ & _).
  split; [exact Hint'|]. apply Hsize. exact size_invariant_nested.
Defined.



(** ** Deleting nodes with their subtrees *)

Lemma filter_length_le {A} (P Q : A -> bool) (l : list A) :
  (forall x, In x l -> P x = true -> Q x = true) ->
  (List.length (filter P l) <= List.length (filter Q l))%nat.
Proof.
  induction l as [|x l IH]; simpl; intros H; [lia|].
  assert (IH' := IH (fun y Hy => H y (or_intror Hy))).
  destruct (P x) eqn:Ep.
  - rewrite (H x (or_introl eq_refl) Ep). simpl. lia.
  - destruct (Q x); simpl; lia.
Qed.

Lemma filter_length_lt {A} (P Q : A -> bool) (l : list A) x :
  (forall y, In y l -> P y = true -> Q y = true) ->
  In x l -> Q x = true -> P x = false ->
  (List.length (filter P l) < List.length (filter Q l))%nat.
Proof.
  induction l as [|y l IH]; simpl; intros H Hx Hq Hp; [contradiction|].
  assert (Hle := filter_length_le P Q l (fun z Hz => H z (or_intror Hz))).
  destruct Hx as [->|Hx].
  - rewrite Hq, Hp. simpl. lia.
  - assert (IH' := IH (fun z Hz => H z (or_intror Hz)) Hx Hq Hp).
    destruct (P y) eqn:Ep.
    + rewrite (H y (or_introl eq_refl) Ep). simpl. lia.
    + destruct (Q y); simpl; lia.
Qed.

Lemma memZ_app x l1 l2 : memZ x (l1 ++ l2) = memZ x l1 || memZ x l2.
Proof. unfold memZ. apply existsb_app. Qed.

Lemma cascade_fix ns doomed :
  filter (fun r => memZ (n_parent r) doomed && negb (memZ (n_node r) doomed))
         ns = [] ->
  forall k, cascade k ns doomed = doomed.
Proof.
  intros H. induction k as [|k IH]; simpl; auto.
  now rewrite H, app_nil_r.
Qed.

(** After as many rounds as there are rows, the rows that go are closed
    under the foreign key: a row whose parent row goes goes too. *)
Lemma cascade_closed k ns : forall doomed,
  (List.length (filter (fun r => negb (memZ (n_node r) doomed)) ns) <= k)%nat ->
  forall r, In r ns -> In (n_parent r) (cascade k ns doomed) ->
            In (n_node r) (cascade k ns doomed).
Proof.
  induction k as [|k IH]; intros doomed Hlen r Hr Hp.
  - simpl in *. destruct (memZ (n_node r) doomed) eqn:E;
      [now apply memZ_In|].
    assert (Hin : In r (filter (fun r => negb (memZ (n_node r) doomed)) ns))
      by (apply filter_In; now rewrite E).
    destruct (filter _ ns); [contradiction | simpl in Hlen; lia].
  - simpl in *.
    destruct (filter (fun r => memZ (n_parent r) doomed
                               && negb (memZ (n_node r) doomed)) ns)
      as [|y new] eqn:Enew.
    + simpl in *. rewrite app_nil_r in *.
      rewrite (cascade_fix ns doomed Enew) in *.
      destruct (memZ (n_node r) doomed) eqn:E; [now apply memZ_In|].
      assert (Hin : In r (filter (fun r => memZ (n_parent r) doomed
                                           && negb (memZ (n_node r) doomed))
                                 ns)).
      { apply filter_In. split; auto. rewrite E.
        apply memZ_In in Hp. now rewrite Hp. }
      rewrite Enew in Hin. contradiction.
    + apply IH; auto.
      assert (Hy : In y (filter (fun r => memZ (n_parent r) doomed
                                          && negb (memZ (n_node r) doomed))
                                ns))
        by (rewrite Enew; now left).
      apply filter_In in Hy. destruct Hy as (Hy & Hb). apply andb_prop in Hb.
      destruct Hb as (_ & Hb%negb_true_iff).
      assert (Hlt : (List.length
                       (filter (fun r => negb (memZ (n_node r)
                                  (doomed ++ map n_node (y :: new)))) ns)
                     < List.length
                         (filter (fun r => negb (memZ (n_node r) doomed)) ns))%nat).
      { apply (filter_length_lt _ _ ns y); auto.
        - intros z _. rewrite memZ_app, negb_orb.
          intros H. now apply andb_prop in H.
        - now rewrite Hb.
        - rewrite memZ_app. apply negb_false_iff, orb_true_iff. right.
          apply memZ_In. now left. }
      lia.
Qed.

Lemma ancestors_delete doomed ns fuel : forall node l,
  ancestors fuel ns node = Some l ->
  ancestors fuel (filter (fun r => negb (memZ (n_node r) doomed)) ns) node
  <> None.
Proof.
  induction fuel as [|fuel IH]; intros node l; simpl; [discriminate|].
  destruct (node =? 0); [discriminate|].
  destruct (memZ node doomed) eqn:Hd.
  - intros _. rewrite find_absent; [discriminate|].
    intros r Hr. apply filter_In in Hr. destruct Hr as (_ & Hr).
    apply Z.eqb_neq. intros He. rewrite He, Hd in Hr. discriminate.
  - rewrite find_filter_node.
    2:{ intros r _ ->. now rewrite Hd. }
    destruct (find _ ns) as [r|]; [|discriminate].
    destruct (ancestors fuel ns (n_parent r)) as [l0|] eqn:E; [|discriminate].
    intros _. specialize (IH (n_parent r) l0 E).
    now destruct (ancestors fuel (filter _ ns) (n_parent r)).
Qed.

Lemma filter_shorter {A} (P : A -> bool) (l : list A) :
  (List.length (filter P l) <= List.length l)%nat.
Proof.
  induction l as [|x l IH]; simpl; [lia|]. destruct (P x); simpl; lia.
Qed.

Lemma integrity_delete_nodes fuel sel st :
  integrity fuel st -> integrity fuel (delete_nodes sel st).
Proof.
  intros [H1 H2 H3 H4 H5 H6]. unfold delete_nodes.
  set (doomed := cascade (List.length (nodes st)) (nodes st)
                         (map n_node (filter sel (nodes st)))).
  assert (Hclosed : forall r, In r (nodes st) ->
                    memZ (n_node r) doomed = false ->
                    memZ (n_parent r) doomed = false).
  { intros r Hr Hn. destruct (memZ (n_parent r) doomed) eqn:Hp; auto.
    apply memZ_In in Hp.
    apply (cascade_closed _ _ _ (filter_shorter _ _) r Hr), memZ_In in Hp.
    fold doomed in Hp. congruence. }
  assert (Hstay : forall x, node_exists st x = true ->
                  memZ x doomed = false ->
                  existsb (fun r => n_node r =? x)
                    (filter (fun r => negb (memZ (n_node r) doomed)) (nodes st))
                  = true).
  { intros x Hx Hd. apply (node_exists_filter st).
    apply node_exists_In in Hx. destruct Hx as (r & Hr & He).
    exists r. rewrite He, Hd. auto. }
  constructor; cbn [nodes versions delete_versions].
  - intros node. destruct (ancestors fuel (nodes st) node) as [l|] eqn:E.
    + now apply (ancestors_delete doomed (nodes st) fuel node l).
    + now elim (H1 node).
  - unfold pk_nodes. cbn [nodes]. now apply NoDup_map_filter.
  - unfold pk_versions. cbn [versions delete_versions].
    now apply NoDup_map_filter.
  - intros r Hr. apply filter_In in Hr. destruct Hr as (Hr & _). auto.
  - intros r Hr. apply filter_In in Hr. destruct Hr as (Hr & Hd).
    unfold node_exists. cbn [nodes]. apply Hstay; auto.
    apply Hclosed; auto. now apply negb_true_iff.
  - intros v Hv. apply filter_In in Hv. destruct Hv as (Hv & Hd).
    unfold node_exists. cbn [nodes]. apply Hstay; auto.
    now apply negb_true_iff.
Qed.

Lemma node_purge_children_run fuel now st parent before cluster :
  integrity fuel st ->
  exists hashes st',
    node_purge_children fuel now parent before cluster st = Ok (hashes, st') /\
    integrity fuel st'.
Proof.
  intros Hint. unfold node_purge_children, bind at 1, get at 1.
  set (sel := purge_children_sel st parent before cluster).
  set (nr := count (filter sel (versions st))).
  set (size := sumZ (map v_size (filter sel (versions st)))).
  destruct (Z.eqb_spec nr 0) as [|Hnr].
  { exists [], st. split; [reflexivity | exact Hint]. }
  assert (Hex : node_exists st parent = true).
  { unfold nr, count in Hnr.
    destruct (filter sel (versions st)) as [|v0 l] eqn:E; [simpl in Hnr; lia|].
    assert (Hv0 : In v0 (filter sel (versions st))) by (rewrite E; now left).
    apply filter_In in Hv0. destruct Hv0 as (_ & Hs).
    apply purge_children_sel_spec in Hs.
    destruct Hs as ((r0 & Hr0 & _ & <-) & _).
    now apply (int_fk_parent _ _ Hint). }
  destruct (statistics_update_spec st parent (- nr) (- size) now cluster Hex)
    as (sta & Hruna & Hsamea & _).
  assert (Hinta : integrity fuel sta) by eauto with pithos.
  destruct (walk_size fuel sta parent (- nr) (- size) now cluster Hinta)
    as (st1 & Hrun & Hsame1 & _).
  assert (Hint1 : integrity fuel st1) by eauto with pithos.
  eexists. eexists. unfold bind, get, put, ret. rewrite Hruna, Hrun.
  split; [reflexivity|].
  now apply integrity_delete_nodes, integrity_delete_versions.
Qed.

(** X7: on a store that keeps its constraints every operation on
    versions and nodes returns and keeps them, the purges with no
    condition on the nodes they prune: the rows that go with a deleted
    node are closed under the foreign keys, so no row is left with a
    missing parent or node, and every parent chain still ends at the
    root. The one other outcome is createVersion at a node that does not
    exist, which raises IntegrityError. *)
Theorem mutation_keeps_integrity fuel now m st (Hint : integrity fuel st) :
  (exists st', apply_mutation fuel now m st = Ok (tt, st') /\
               integrity fuel st') \/
  (apply_mutation fuel now m st = Raise IntegrityError /\
   exists node hash size source muser cluster,
     m = CreateVersion node hash size source muser cluster /\
     node_exists st node = false).
Proof.
  destruct m as [node hash size source muser cluster | serial | serial cluster
                | node | node before cluster | parent before cluster];
    unfold apply_mutation, discard.
  - destruct (node_exists st node) eqn:Hex.
    + left. unfold version_create, bind at 1 2, get at 1. rewrite Hex.
      set (st0 := mk_db _ _ _ _ _).
      assert (Hint0 : integrity fuel st0).
      { destruct Hint as [H1 H2 H3 H4 H5 H6]. constructor; auto.
        - unfold pk_versions, st0. cbn [versions]. rewrite map_app.
          apply NoDup_app; auto.
          + repeat constructor. intros [].
          + intros x Hx [<-|[]]. apply next_rowid_fresh in Hx.
            cbn [v_serial] in Hx. lia.
        - intros v Hv. unfold st0 in Hv. cbn [versions] in Hv.
          apply in_app_or in Hv.
          destruct Hv as [Hv|[<-|[]]]; [now apply H6 | exact Hex]. }
      destruct (walk_size fuel st0 node 1 size now cluster Hint0)
        as (st1 & Hrun & Hsame & _).
      exists st1. unfold bind, put, ret. rewrite Hrun.
      split; [reflexivity | eauto with pithos].
    + right. split.
      * unfold version_create, bind, get, raise. now rewrite Hex.
      * repeat eexists. exact Hex.
  - left. unfold version_remove, bind at 1 2, get at 1.
    destruct (version_get_properties st serial) as [v|].
    2:{ exists st. split; [reflexivity | exact Hint]. }
    destruct (walk_size fuel st (v_node v) (-1) (- v_size v) now (v_cluster v)
                Hint) as (st1 & Hrun & Hsame & _).
    eexists. unfold bind, get, put, ret. rewrite Hrun.
    split; [reflexivity|].
    apply integrity_delete_versions. eauto with pithos.
  - left. unfold version_recluster, bind at 1, get at 1.
    destruct (version_get_properties st serial) as [v|].
    2:{ exists st. split; [reflexivity | exact Hint]. }
    destruct (cluster =? v_cluster v).
    { exists st. split; [reflexivity | exact Hint]. }
    destruct (walk_size fuel st (v_node v) (-1) (- v_size v) now (v_cluster v)
                Hint) as (st1 & Hrun1 & Hsame1 & _).
    assert (Hint1 : integrity fuel st1) by eauto with pithos.
    destruct (walk_size fuel st1 (v_node v) 1 (v_size v) now cluster Hint1)
      as (st2 & Hrun2 & Hsame2 & _).
    assert (Hint2 : integrity fuel st2) by eauto with pithos.
    eexists. unfold bind, get, put. rewrite Hrun1, Hrun2.
    split; [reflexivity|].
    destruct Hint2 as [H1 H2 H3 H4 H5 H6]. constructor; auto.
    + unfold pk_versions. cbn [versions]. rewrite map_map.
      rewrite (map_ext _ v_serial); [exact H3|].
      intros x. now destruct (v_serial x =? serial).
    + intros x Hx. cbn [versions] in Hx. apply in_map_iff in Hx.
      destruct Hx as (y & <- & Hy). specialize (H6 y Hy).
      now destruct (v_serial y =? serial).
  - left. unfold node_remove, bind at 1 2, get at 1.
    destruct (negb _).
    { exists st. split; [reflexivity | exact Hint]. }
    set (at_node := filter (fun v => v_node v =? node) (versions st)).
    destruct (walks_by_cluster fuel now node at_node (clusters_of at_node)
                (sorted_NoDup _ (clusters_of_sorted at_node)) st Hint)
      as (st1 & Hrun & Hsame & _).
    eexists. unfold cluster_groups. fold at_node. unfold bind, get, put, ret.
    cbv zeta in Hrun. rewrite Hrun. split; [reflexivity|].
    apply integrity_delete_nodes. eauto with pithos.
  - left. unfold node_purge, bind at 1 2, get at 1.
    destruct (_ =? 0).
    { exists st. split; [reflexivity | exact Hint]. }
    match goal with
    | |- context [statistics_update_ancestors fuel node ?p ?s now cluster] =>
        destruct (walk_size fuel st node p s now cluster Hint)
          as (st1 & Hrun & Hsame & _)
    end.
    eexists. unfold bind, get, put, ret. rewrite Hrun.
    split; [reflexivity|].
    apply integrity_delete_nodes, integrity_delete_versions.
    eauto with pithos.
  - left.
    destruct (node_purge_children_run fuel now st parent before cluster
                Hint) as (hashes & st' & Hrun & Hint').
    exists st'. unfold bind, ret. now rewrite Hrun.
Qed.

Lemma mutation_keeps_integrity_witness :
  integrity 4 db_chain /\
  exists st',
    apply_mutation 4 20 (PurgeChildrenVersions 1 Inf 0) db_chain
      = Ok (tt, st') /\
    integrity 4 st' /\ node_exists st' 3 = false.
Proof.
  assert (Hint : integrity 4 db_chain) by (apply integrityb_sound; reflexivity).
  split; [exact Hint|].
  destruct (mutation_keeps_integrity 4 20 (PurgeChildrenVersions 1 Inf 0)
              db_chain Hint) as [(st' & Hrun & Hint')|(Hbad & _)].
  - exists st'. split; [exact Hrun|]. split; [exact Hint'|].
    pose proof Hrun as H. vm_compute in H. injection H as <-. reflexivity.
  - vm_compute in Hbad. discriminate.
Defined.

(** ** The population invariant *)

Lemma count_total {A} (P : A -> bool) (l : list A) :
  count (filter P l) = total (fun _ => 1) P l.
Proof.
  unfold total, count. induction (filter P l) as [|x l' IH]; [reflexivity|].
  cbn [List.length map sumZ fold_right]. unfold sumZ in IH. lia.
Qed.

Lemma child_of_same st st' node top :
  nodes st' = nodes st -> child_of st' node top = child_of st node top.
Proof. intros Hn. unfold child_of, node_get_properties. now rewrite Hn. Qed.

Lemma population_total st top c :
  population_of_children st top c =
  total (fun _ => 1)
        (fun v => (v_cluster v =? c) && child_of st (v_node v) top)
        (versions st).
Proof. apply count_total. Qed.

Lemma population_same st st' top c :
  nodes st' = nodes st -> versions st' = versions st ->
  population_of_children st' top c = population_of_children st top c.
Proof.
  intros Hn Hv. unfold population_of_children, child_of, node_get_properties.
  now rewrite Hn, Hv.
Qed.

Lemma population_delete_versions sel st top c :
  population_of_children (delete_versions sel st) top c =
  population_of_children st top c
  - total (fun _ => 1)
          (fun v => (v_cluster v =? c) && child_of st (v_node v) top)
          (filter sel (versions st)).
Proof.
  rewrite !population_total. cbn [versions delete_versions].
  rewrite (total_split (fun _ => 1) _ sel (versions st)).
  rewrite (total_ext (fun _ => 1) _
             (fun v => (v_cluster v =? c) && child_of st (v_node v) top)
             (filter (fun v => negb (sel v)) (versions st))); [lia|].
  intros v _. reflexivity.
Qed.

Lemma integrity_add_version fuel st v :
  integrity fuel st -> node_exists st (v_node v) = true ->
  v_serial v = next_rowid (map v_serial (versions st)) ->
  integrity fuel (mk_db (nodes st) (policy st) (statistics st)
                        (versions st ++ [v]) (attributes st)).
Proof.
  intros [H1 H2 H3 H4 H5 H6] Hex Hs. constructor; auto.
  - unfold pk_versions. cbn [versions]. rewrite map_app.
    apply NoDup_app; auto.
    + repeat constructor. intros [].
    + intros x Hx [<-|[]]. apply next_rowid_fresh in Hx. lia.
  - intros w Hw. cbn [versions] in Hw. apply in_app_or in Hw.
    destruct Hw as [Hw|[<-|[]]]; [now apply H6 | exact Hex].
Qed.

Lemma version_create_pop fuel now st node hash size source muser cluster :
  integrity fuel st -> population_invariant st ->
  node_exists st node = true ->
  exists serial st',
    version_create fuel now node hash size source muser cluster st
      = Ok ((serial, now), st') /\
    integrity fuel st' /\ population_invariant st'.
Proof.
  intros Hint Hinv Hex.
  set (serial := next_rowid (map v_serial (versions st))).
  set (vnew := mk_version serial node hash size source now muser cluster).
  set (st0 := mk_db (nodes st) (policy st) (statistics st)
                    (versions st ++ [vnew]) (attributes st)).
  assert (Hint0 : integrity fuel st0)
    by (now apply (integrity_add_version fuel st vnew)).
  destruct (walk_stats fuel st0 node 1 size now cluster Hint0)
    as (st1 & Hrun & Hsame & _ & Hpop).
  exists serial, st1. split.
  - unfold version_create, bind, get, put, ret. rewrite Hex.
    fold serial. fold vnew. fold st0. now rewrite Hrun.
  - split; [eapply integrity_same_rows; eauto|].
    intros top c. rewrite Hpop.
    destruct Hsame as (Hn & _ & Hv & _).
    rewrite (population_same st0 st1 top c Hn Hv).
    change (stat_population st0 top c) with (stat_population st top c).
    rewrite (Hinv top c), !population_total.
    change (child_of st0) with (child_of st). cbn [versions st0].
    rewrite total_app. f_equal.
    unfold total. cbn [filter vnew v_cluster v_node].
    rewrite (Z.eqb_sym cluster c).
    destruct ((c =? cluster) && child_of st node top); reflexivity.
Qed.

Lemma version_remove_pop fuel now st serial :
  integrity fuel st -> population_invariant st ->
  exists hash st',
    version_remove fuel now serial st = Ok (hash, st') /\
    integrity fuel st' /\ population_invariant st'.
Proof.
  intros Hint Hinv. unfold version_remove, bind at 1, get at 1.
  unfold version_get_properties.
  destruct (find _ (versions st)) as [v|] eqn:Hfind.
  2:{ exists None, st. split; [reflexivity | split; assumption]. }
  apply find_some in Hfind. destruct Hfind as (Hin & Hs%Z.eqb_eq).
  destruct (walk_stats fuel st (v_node v) (-1) (- v_size v) now (v_cluster v)
              Hint) as (st1 & Hrun & Hsame & _ & Hpop).
  exists (Some (v_hash v)), (delete_versions (fun x => v_serial x =? serial) st1).
  split; [unmonad; now rewrite Hrun|].
  assert (Hint1 : integrity fuel st1) by eauto with pithos.
  split; [now apply integrity_delete_versions|].
  intros top c. rewrite population_delete_versions.
  change (stat_population (delete_versions _ st1) top c)
    with (stat_population st1 top c).
  destruct Hsame as (Hn & _ & Hv & _).
  rewrite Hpop, (Hinv top c), (population_same st st1 top c Hn Hv).
  rewrite Hv. subst serial.
  rewrite (pk_filter_singleton v_serial (versions st) v
             (int_pk_versions _ _ Hint) Hin).
  unfold total. cbn [filter].
  rewrite (child_of_same st st1 (v_node v) top Hn), (Z.eqb_sym c).
  destruct ((v_cluster v =? c) && child_of st (v_node v) top);
    cbn [map sumZ fold_right]; lia.
Qed.

Lemma version_recluster_pop fuel now st serial cluster :
  integrity fuel st -> population_invariant st ->
  exists st',
    version_recluster fuel now serial cluster st = Ok (tt, st') /\
    integrity fuel st' /\ population_invariant st'.
Proof.
  intros Hint Hinv. unfold version_recluster, bind at 1, get at 1.
  unfold version_get_properties.
  destruct (find _ (versions st)) as [v|] eqn:Hfind.
  2:{ exists st. split; [reflexivity | split; assumption]. }
  destruct (cluster =? v_cluster v) eqn:Hc.
  { exists st. split; [reflexivity | split; assumption]. }
  apply find_some in Hfind. destruct Hfind as (Hin & Hs%Z.eqb_eq).
  destruct (walk_stats fuel st (v_node v) (-1) (- v_size v) now (v_cluster v)
              Hint) as (st1 & Hrun1 & Hsame1 & _ & Hpop1).
  assert (Hint1 : integrity fuel st1) by eauto with pithos.
  destruct (walk_stats fuel st1 (v_node v) 1 (v_size v) now cluster Hint1)
    as (st2 & Hrun2 & Hsame2 & _ & Hpop2).
  assert (Hint2 : integrity fuel st2) by eauto with pithos.
  pose proof (same_rows_trans _ _ _ Hsame1 Hsame2) as (Hn & _ & Hv & _).
  eexists. split; [unmonad; rewrite Hrun1, Hrun2; reflexivity|].
  split.
  - destruct Hint2 as [H1 H2 H3 H4 H5 H6]. constructor; auto.
    + unfold pk_versions. cbn [versions]. rewrite map_map.
      rewrite (map_ext _ v_serial); [exact H3|].
      intros x. now destruct (v_serial x =? serial).
    + intros x Hx. cbn [versions] in Hx. apply in_map_iff in Hx.
      destruct Hx as (y & <- & Hy). specialize (H6 y Hy).
      now destruct (v_serial y =? serial).
  - intros top c. rewrite population_total. cbn [versions].
    match goal with |- stat_population ?s top c = _ =>
      change (stat_population s top c) with (stat_population st2 top c) end.
    rewrite (total_ext (fun _ => 1) _
               (fun v => (v_cluster v =? c) && child_of st (v_node v) top)).
    2:{ intros x _. f_equal. apply child_of_same. exact Hn. }
    rewrite Hv.
    rewrite (total_update (fun _ => 1) _ serial (set_cluster cluster)
               (versions st) v (int_pk_versions _ _ Hint) Hin Hs).
    rewrite Hpop2, Hpop1, (Hinv top c), population_total.
    rewrite (child_of_same st st1 (v_node v) top (proj1 Hsame1)).
    cbn [set_cluster v_cluster v_node].
    rewrite (Z.eqb_sym c (v_cluster v)), (Z.eqb_sym c cluster).
    destruct (v_cluster v =? c), (cluster =? c),
      (child_of st (v_node v) top); cbn [andb]; lia.
Qed.

Lemma walks_by_cluster_pop fuel now node (at_node : list version_row) cls :
  NoDup cls ->
  forall st, integrity fuel st ->
  exists st',
    for_each
      (map (fun c =>
              let g := filter (fun v => v_cluster v =? c) at_node in
              (count g, sumZ (map v_size g), c)) cls)
      (fun '(population, size, cluster) =>
         statistics_update_ancestors fuel node (- population) (- size)
                                     now cluster) st
    = Ok (tt, st') /\
    same_rows st st' /\
    forall top c,
      stat_population st' top c =
      stat_population st top c
      - (if memZ c cls && child_of st node top
         then count (filter (fun v => v_cluster v =? c) at_node) else 0).
Proof.
  induction cls as [|c0 cls IH]; intros Hnd st Hint.
  - exists st. split; [reflexivity|]. split; [apply same_rows_refl|].
    intros top c. simpl. lia.
  - inversion Hnd as [|? ? Hnotin Hnd']; subst.
    set (g := filter (fun v => v_cluster v =? c0) at_node).
    destruct (walk_stats fuel st node (- count g) (- sumZ (map v_size g))
                         now c0 Hint) as (st1 & Hrun1 & Hsame1 & _ & Hpop1).
    assert (Hint1 : integrity fuel st1) by eauto with pithos.
    destruct (IH Hnd' st1 Hint1) as (st2 & Hrun2 & Hsame2 & Hpop2).
    exists st2. split.
    { cbn [map for_each]. unfold bind. cbv zeta. fold g. rewrite Hrun1.
      exact Hrun2. }
    split; [eapply same_rows_trans; eauto|].
    intros top c. rewrite Hpop2, Hpop1.
    rewrite (child_of_same st st1 node top (proj1 Hsame1)).
    unfold memZ. cbn [existsb]. fold (memZ c cls).
    destruct (Z.eqb_spec c c0) as [->|Hne]; cbn [orb andb].
    + assert (memZ c0 cls = false) as ->.
      { destruct (memZ c0 cls) eqn:E; auto. apply memZ_In in E. contradiction. }
      cbn [andb]. destruct (child_of st node top); fold g; lia.
    + lia.
Qed.

Lemma child_of_parent st node top :
  child_of st node top = true ->
  node <> 0 /\ exists r, In r (nodes st) /\ n_node r = node /\ n_parent r = top.
Proof.
  unfold child_of, node_get_properties. intros H. apply andb_prop in H.
  destruct H as (Hnz & H). split.
  - intros ->. discriminate.
  - destruct (find _ (nodes st)) as [r|] eqn:Hf; [|discriminate].
    apply find_some in Hf. destruct Hf as (Hr & He%Z.eqb_eq).
    apply Z.eqb_eq in H. eauto.
Qed.

Lemma child_of_missing st node top :
  node_exists st node = false -> child_of st node top = false.
Proof.
  intros Hex. rewrite node_exists_find in Hex. unfold child_of.
  destruct (node_get_properties st node); [discriminate|].
  apply andb_false_r.
Qed.

(** Deleting leaves keeps the population invariant, when the statistics
    have been adjusted for the versions that go with them. *)
Lemma delete_nodes_leaves_pop fuel sel st :
  integrity fuel st ->
  leaves st (map n_node (filter sel (nodes st))) ->
  (forall top c,
     stat_population st top c =
     population_of_children st top c
     - total (fun _ => 1)
             (fun v => (v_cluster v =? c) && child_of st (v_node v) top)
             (filter (fun v => memZ (v_node v)
                                    (map n_node (filter sel (nodes st))))
                     (versions st))) ->
  population_invariant (delete_nodes sel st).
Proof.
  intros Hint Hleaves Hstat.
  destruct fuel as [|k]; [now elim (integrity_fuel _ _ Hint)|].
  rewrite (delete_nodes_leaves_eq k sel st Hint Hleaves).
  set (doomed := map n_node (filter sel (nodes st))) in *.
  set (ns' := filter (fun r => negb (memZ (n_node r) doomed)) (nodes st)).
  intros top c. rewrite population_total.
  unfold stat_population, statistics_get. cbn [statistics versions].
  rewrite find_stat_filter.
  rewrite (total_ext (fun _ => 1) _
             (fun v => (v_cluster v =? c) && child_of st (v_node v) top)).
  2:{ intros v Hv. apply filter_In in Hv. destruct Hv as (_ & Hd).
      f_equal. unfold child_of, node_get_properties. cbn [nodes]. fold ns'.
      unfold ns'. rewrite find_filter_node; [reflexivity|].
      intros r _ ->. exact Hd. }
  destruct (memZ top doomed) eqn:Hd.
  - symmetry. apply total_none. intros v _.
    destruct (child_of st (v_node v) top) eqn:Hc; [|apply andb_false_r].
    apply child_of_parent in Hc. destruct Hc as (Hnz & r & Hr & He & Hp).
    rewrite <- Hp, (Hleaves r Hr) in Hd; [discriminate | congruence].
  - specialize (Hstat top c). unfold stat_population, statistics_get in Hstat.
    rewrite Hstat, population_total.
    rewrite (total_split (fun _ => 1) _ (fun v => memZ (v_node v) doomed)
               (versions st)).
    lia.
Qed.

Lemma node_remove_pop fuel now st node :
  integrity fuel st -> population_invariant st ->
  exists b st',
    node_remove fuel now node st = Ok (b, st') /\
    integrity fuel st' /\ population_invariant st'.
Proof.
  intros Hint Hinv. unfold node_remove, bind at 1, get at 1.
  destruct (Z.eqb_spec (node_count_children st node) 0) as [Hleaf|Hkids];
    cbn [negb].
  2:{ exists false, st. split; [reflexivity | split; assumption]. }
  set (at_node := filter (fun v => v_node v =? node) (versions st)).
  destruct (walks_by_cluster_pop fuel now node at_node (clusters_of at_node)
              (sorted_NoDup _ (clusters_of_sorted at_node)) st Hint)
    as (st1 & Hrun & Hsame & Hpop).
  assert (Hint1 : integrity fuel st1) by eauto with pithos.
  destruct Hsame as (Hn & _ & Hv & _).
  set (sel := fun n : node_row => n_node n =? node).
  assert (Hleaves : leaves st1 (map n_node (filter sel (nodes st1)))).
  { apply (childless_leaves st1). intros x Hx.
    apply node_ids_selected in Hx. destruct Hx as (-> & _).
    unfold node_count_children. now rewrite Hn. }
  exists true, (delete_nodes sel st1). split.
  { unfold cluster_groups. fold at_node. unmonad.
    cbv zeta in Hrun. now rewrite Hrun. }
  split; [now apply integrity_delete_nodes|].
  apply (delete_nodes_leaves_pop fuel sel st1 Hint1 Hleaves).
  intros top c. rewrite Hpop, (Hinv top c).
  rewrite (population_same st st1 top c Hn Hv). f_equal.
  rewrite Hn, Hv.
  rewrite (total_ext (fun _ => 1) _
             (fun v => (v_cluster v =? c) && child_of st (v_node v) top)).
  2:{ intros v _. f_equal. now apply child_of_same. }
  destruct (node_exists st node) eqn:Hex.
  - rewrite (filter_ext_in _ (fun v => v_node v =? node) (versions st)).
    2:{ intros v _. destruct (Z.eqb_spec (v_node v) node) as [He|Hne].
        - apply memZ_In. apply (node_ids_selected st). auto.
        - destruct (memZ _ _) eqn:E; auto. apply memZ_In in E.
          apply (node_ids_selected st) in E. tauto. }
    fold at_node.
    rewrite (total_const (fun _ => 1)
               (fun v => (v_cluster v =? c) && child_of st (v_node v) top)
               (fun v => v_cluster v =? c)
               (child_of st node top) at_node).
    2:{ intros v Hv'. apply filter_In in Hv'.
        destruct Hv' as (_ & ->%Z.eqb_eq). reflexivity. }
    rewrite count_total.
    destruct (child_of st node top); rewrite ?andb_false_r; auto.
    rewrite andb_true_r. destruct (memZ c (clusters_of at_node)) eqn:E; auto.
    symmetry. apply total_none. intros v Hv'.
    destruct (Z.eqb_spec (v_cluster v) c) as [<-|]; auto.
    apply clusters_of_In, memZ_In in Hv'. congruence.
  - rewrite (child_of_missing st node top Hex), andb_false_r.
    rewrite filter_none; [reflexivity|].
    intros v _. destruct (memZ _ _) eqn:E; auto. apply memZ_In in E.
    apply (node_ids_selected st) in E. destruct E; congruence.
Qed.

Lemma prune_pop fuel sel st :
  integrity fuel st -> population_invariant st ->
  (forall r, In r (nodes st) -> sel r = true ->
             versionless st (n_node r) = true /\
             node_count_children st (n_node r) = 0) ->
  population_invariant (delete_nodes sel st).
Proof.
  intros Hint Hinv Hsel.
  assert (Hd : forall x, In x (map n_node (filter sel (nodes st))) ->
               exists r, In r (nodes st) /\ sel r = true /\ n_node r = x).
  { intros x Hx. apply in_map_iff in Hx. destruct Hx as (r & <- & Hr).
    apply filter_In in Hr. exists r. tauto. }
  apply (delete_nodes_leaves_pop fuel); auto.
  - apply childless_leaves. intros x Hx.
    destruct (Hd x Hx) as (r & Hr & Hs & <-). now apply Hsel.
  - intros top c. rewrite (Hinv top c).
    rewrite filter_none; [unfold total; simpl; lia|].
    intros v Hv. destruct (memZ _ _) eqn:E; auto. apply memZ_In in E.
    destruct (Hd _ E) as (r & Hr & Hs & He).
    destruct (Hsel r Hr Hs) as (Hvl & _). rewrite He in Hvl.
    now elim (versionless_spec st (v_node v) v Hvl Hv).
Qed.

Lemma node_purge_pop fuel now st node before cluster :
  integrity fuel st -> population_invariant st ->
  ((forall v, In v (versions st) -> v_node v = node ->
              purge_sel node before cluster v = true) ->
   node_count_children st node = 0) ->
  exists hashes st',
    node_purge fuel now node before cluster st = Ok (hashes, st') /\
    integrity fuel st' /\ population_invariant st'.
Proof.
  intros Hint Hinv Hleaf. unfold node_purge, bind at 1, get at 1.
  set (sel := purge_sel node before cluster).
  set (nr := count (filter sel (versions st))).
  set (size := sumZ (map v_size (filter sel (versions st)))).
  destruct (nr =? 0).
  { exists [], st. split; [reflexivity | split; assumption]. }
  destruct (walk_stats fuel st node (- nr) (- size) now cluster Hint)
    as (st1 & Hrun & Hsame & _ & Hpop).
  assert (Hint1 : integrity fuel st1) by eauto with pithos.
  destruct Hsame as (Hn & _ & Hv & _).
  set (st2 := delete_versions sel st1).
  assert (Hint2 : integrity fuel st2) by now apply integrity_delete_versions.
  assert (Hinv2 : population_invariant st2).
  { intros top c. unfold st2. rewrite population_delete_versions.
    change (stat_population (delete_versions sel st1) top c)
      with (stat_population st1 top c).
    rewrite Hpop, (Hinv top c), (population_same st st1 top c Hn Hv).
    rewrite Hv.
    rewrite (total_const (fun _ => 1) _ (fun _ => true)
               ((c =? cluster) && child_of st node top)).
    - rewrite <- count_total.
      rewrite (filter_all (fun _ => true)) by reflexivity. fold nr.
      destruct ((c =? cluster) && child_of st node top); lia.
    - intros v Hv'. apply filter_In in Hv'. destruct Hv' as (_ & Hs).
      unfold sel, purge_sel in Hs.
      apply andb_prop in Hs. destruct Hs as (Hs & _).
      apply andb_prop in Hs. destruct Hs as (->%Z.eqb_eq & ->%Z.eqb_eq).
      rewrite (child_of_same st st1 node top Hn), (Z.eqb_sym cluster c).
      reflexivity. }
  set (selN := fun n : node_row => versionless st2 (n_node n) && (n_node n =? node)).
  assert (Hinv3 : population_invariant (delete_nodes selN st2)).
  { apply (prune_pop fuel selN st2 Hint2 Hinv2).
    intros r Hr Hs. unfold selN in Hs. apply andb_prop in Hs.
    destruct Hs as (Hvl & He%Z.eqb_eq). rewrite He in *.
    split; [exact Hvl|].
    unfold node_count_children, st2. cbn [nodes delete_versions]. rewrite Hn.
    apply Hleaf. unfold st2 in Hvl. rewrite versionless_after_delete in Hvl.
    now rewrite Hv in Hvl. }
  exists (map v_hash (filter sel (versions st1))), (delete_nodes selN st2).
  split; [unmonad; now rewrite Hrun|].
  split; [now apply integrity_delete_nodes | exact Hinv3].
Qed.

(** X8: the stored population of (N, c) is the number of versions in
    cluster c at the direct children of N. On a store that keeps its
    constraints, createVersion, removeVersion, reclusterVersion,
    removeNode and purgeNodeVersions (when the node it prunes has no
    children) return and keep this invariant: each passes its population
    delta to the walk that starts at the node of the versions, whose
    first hop is the parent of that node. (purgeChildrenVersions, which
    starts the walk at the parent, is left out.) *)
Theorem population_invariant_preserved fuel now m st
    (Hint : integrity fuel st)
    (Hinv : population_invariant st)
    (Hleaves : prunes_leaves st m)
    (Hm : forall parent before cluster,
            m <> PurgeChildrenVersions parent before cluster) :
  (exists st', apply_mutation fuel now m st = Ok (tt, st') /\
               integrity fuel st' /\ population_invariant st') \/
  (apply_mutation fuel now m st = Raise IntegrityError /\
   exists node hash size source muser cluster,
     m = CreateVersion node hash size source muser cluster /\
     node_exists st node = false).
Proof.
  destruct m as [node hash size source muser cluster | serial | serial cluster
                | node | node before cluster | parent before cluster];
    simpl in Hleaves; unfold apply_mutation, discard.
  - destruct (node_exists st node) eqn:Hex.
    + left.
      destruct (version_create_pop fuel now st node hash size source muser
                  cluster Hint Hinv Hex) as (serial & st' & Hrun & H).
      exists st'. split; [|exact H]. unfold bind, ret. now rewrite Hrun.
    + right. split.
      * unfold version_create, bind, get, raise. now rewrite Hex.
      * repeat eexists. exact Hex.
  - left. destruct (version_remove_pop fuel now st serial Hint Hinv)
      as (hash & st' & Hrun & H).
    exists st'. split; [|exact H]. unfold bind, ret. now rewrite Hrun.
  - left. exact (version_recluster_pop fuel now st serial cluster Hint Hinv).
  - left. destruct (node_remove_pop fuel now st node Hint Hinv)
      as (b & st' & Hrun & H).
    exists st'. split; [|exact H]. unfold bind, ret. now rewrite Hrun.
  - left. destruct (node_purge_pop fuel now st node before cluster
                      Hint Hinv Hleaves) as (hashes & st' & Hrun & H).
    exists st'. split; [|exact H]. unfold bind, ret. now rewrite Hrun.
  - now elim (Hm parent before cluster).
Qed.

Lemma population_invariant_preserved_witness :
  integrity 2 db_one_node /\ population_invariant db_one_node /\
  exists st',
    apply_mutation 2 10 (CreateVersion 1 (u "h1") 5 None (u "user") 0)
                   db_one_node = Ok (tt, st') /\
    population_invariant st' /\ stat_population st' 0 0 = 1.
Proof.
  assert (Hint : integrity 2 db_one_node)
    by (apply integrityb_sound; reflexivity).
  assert (Hinv : population_invariant db_one_node)
    by (intros top c; reflexivity).
  split; [exact Hint|]. split; [exact Hinv|].
  destruct (population_invariant_preserved 2 10
              (CreateVersion 1 (u "h1") 5 None (u "user") 0) db_one_node
              Hint Hinv I) as [(st' & Hrun & _ & Hinv')|(Hbad & _)].
  - discriminate.
  - exists st'. split; [exact Hrun|]. split; [exact Hinv'|].
    pose proof Hrun as H. vm_compute in H. injection H as <-. reflexivity.
  - vm_compute in Hbad. discriminate.
Defined.

(** ** Creating and removing versions *)

Lemma max_serial_snoc l v :
  max_serial (l ++ [v]) =
  Some (match max_serial l with
        | Some m => Z.max m (v_serial v)
        | None => v_serial v
        end).
Proof.
  induction l as [|x l IH]; [reflexivity|].
  cbn [app max_serial fold_right]. fold (max_serial (l ++ [v])).
  fold (max_serial l). rewrite IH.
  destruct (max_serial l); f_equal; lia.
Qed.

Lemma version_create_inv fuel now node hash size source muser cluster st
    serial mtime st' :
  version_create fuel now node hash size source muser cluster st
  = Ok ((serial, mtime), st') ->
  node_exists st node = true /\
  serial = next_rowid (map v_serial (versions st)) /\ mtime = now /\
  nodes st' = nodes st /\ policy st' = policy st /\
  versions st'
  = versions st ++ [mk_version serial node hash size source now muser cluster]
  /\ attributes st' = attributes st.
Proof.
  unfold version_create, bind at 1 2, get at 1.
  destruct (node_exists st node); [|discriminate].
  unfold bind, put, ret.
  destruct (statistics_update_ancestors _ _ _ _ _ _ _) as [[[] st1]| |] eqn:E;
    try discriminate.
  intros [= <- <- <-]. apply walk_same_rows in E.
  destruct E as (Hn & Hp & Hv & Ha). cbn in Hn, Hp, Hv, Ha. auto 8.
Qed.

(** X9: the version that [version_create] returns is new and is found
    again: its serial is above every serial of the store, its mtime is
    the clock reading, [version_get_properties] of the serial gives the
    properties passed, and [version_lookup] at its node with a bound
    after the creation time gives it in its cluster, and nothing in any
    other cluster. With a bound at or before the creation time, at
    another node, or for another serial, the lookups give what they gave
    before. *)
Theorem version_create_lookup fuel now st node hash size source muser cluster
    serial mtime st'
    (Hrun : version_create fuel now node hash size source muser cluster st
            = Ok ((serial, mtime), st')) :
  let v := mk_version serial node hash size source now muser cluster in
  mtime = now /\
  (forall w, In w (versions st) -> v_serial w < serial) /\
  version_get_properties st' serial = Some v /\
  (forall s, s <> serial ->
             version_get_properties st' s = version_get_properties st s) /\
  (forall before c, lt_bound now before = true ->
     version_lookup st' node before c = if c =? cluster then Some v else None) /\
  (forall n before c, lt_bound now before = false \/ n <> node ->
     version_lookup st' n before c = version_lookup st n before c).
Proof.
  intros v. apply version_create_inv in Hrun.
  destruct Hrun as (_ & Hserial & Hmtime & _ & _ & Hv & _). fold v in Hv.
  assert (Hfresh : forall w, In w (versions st) -> v_serial w < serial).
  { intros w Hw. rewrite Hserial. apply next_rowid_fresh. now apply in_map. }
  assert (Hnone : forall (g : version_row -> bool),
            (forall w, g w = true -> v_serial w = serial) ->
            find g (versions st) = None).
  { intros g Hg. apply find_absent. intros w Hw.
    specialize (Hfresh w Hw). destruct (g w) eqn:E; [|reflexivity].
    apply Hg in E. lia. }
  split; [exact Hmtime|]. split; [exact Hfresh|]. split; [|split; [|split]].
  - unfold version_get_properties. rewrite Hv, find_snoc.
    rewrite Hnone by (intros w; apply Z.eqb_eq).
    cbn [v v_serial]. now rewrite Z.eqb_refl.
  - intros s Hs. unfold version_get_properties. rewrite Hv, find_snoc.
    destruct (find _ (versions st)); [reflexivity|].
    cbn [v v_serial]. destruct (Z.eqb_spec serial s); [congruence|reflexivity].
  - intros before0 c Hlt. unfold version_lookup. rewrite Hv, filter_app.
    cbn [filter v v_node v_mtime]. rewrite Z.eqb_refl, Hlt. cbn [andb].
    rewrite max_serial_snoc. cbn [v_serial].
    assert (Hmax : match max_serial
                           (filter (fun w => (v_node w =? node)
                                             && lt_bound (v_mtime w) before0)
                                   (versions st)) with
                   | Some m => Z.max m serial
                   | None => serial
                   end = serial).
    { destruct (max_serial _) as [m|] eqn:E; [|reflexivity].
      destruct (max_serial_attained _ _ E) as (w & Hw & <-).
      apply filter_In in Hw. destruct Hw as (Hw & _).
      specialize (Hfresh w Hw). lia. }
    change (v_serial v) with serial. rewrite Hmax, find_snoc, Hnone.
    2:{ intros w Hw. apply andb_prop in Hw. now apply Z.eqb_eq. }
    change (v_serial v) with serial. change (v_cluster v) with cluster.
    rewrite Z.eqb_refl, (Z.eqb_sym cluster c). reflexivity.
  - intros n before0 c Hother. unfold version_lookup. rewrite Hv, filter_app.
    assert (Hout : filter (fun w => (v_node w =? n)
                                    && lt_bound (v_mtime w) before0) [v] = []).
    { cbn [filter v v_node v_mtime].
      destruct Hother as [->|Hn]; [now rewrite andb_false_r|].
      destruct (Z.eqb_spec node n); [congruence | reflexivity]. }
    rewrite Hout, app_nil_r.
    destruct (max_serial _) as [m|] eqn:E; [|reflexivity].
    rewrite find_snoc. destruct (find _ (versions st)); [reflexivity|].
    destruct (max_serial_attained _ _ E) as (w & Hw & <-).
    apply filter_In in Hw. destruct Hw as (Hw & _).
    specialize (Hfresh w Hw). change (v_serial v) with serial.
    destruct (Z.eqb_spec serial (v_serial w)); [lia | reflexivity].
Qed.

Lemma version_create_lookup_witness :
  version_create 2 10 1 (u "h1") 5 None (u "user") 0 db_one_node
    = Ok ((1, 10), db_one_version) /\
  version_lookup db_one_version 1 Inf 0
    = Some (mk_version 1 1 (u "h1") 5 None 10 (u "user") 0) /\
  version_lookup db_one_version 1 (Fin 10) 0 = None.
Proof.
  assert (Hrun : version_create 2 10 1 (u "h1") 5 None (u "user") 0 db_one_node
                 = Ok ((1, 10), db_one_version)) by (vm_compute; reflexivity).
  split; [exact Hrun|].
  destruct (version_create_lookup 2 10 db_one_node 1 (u "h1") 5 None (u "user")
              0 1 10 db_one_version Hrun) as (_ & _ & _ & _ & Hnew & Hold).
  split.
  - rewrite (Hnew Inf 0 eq_refl). reflexivity.
  - rewrite (Hold 1 (Fin 10) 0); [reflexivity | left; reflexivity].
Defined.

Lemma version_create_stats fuel now st node hash size source muser cluster :
  integrity fuel st -> node_exists st node = true ->
  exists st',
    version_create fuel now node hash size source muser cluster st
      = Ok ((next_rowid (map v_serial (versions st)), now), st') /\
    integrity fuel st' /\
    nodes st' = nodes st /\ policy st' = policy st /\
    versions st'
    = versions st ++ [mk_version (next_rowid (map v_serial (versions st)))
                                 node hash size source now muser cluster] /\
    attributes st' = attributes st /\
    forall top c,
      stat_size st' top c =
        stat_size st top c
        + (if (c =? cluster) && under fuel (nodes st) node top
           then size else 0) /\
      stat_population st' top c =
        stat_population st top c
        + (if (c =? cluster) && child_of st node top then 1 else 0).
Proof.
  intros Hint Hex.
  set (serial := next_rowid (map v_serial (versions st))).
  set (vnew := mk_version serial node hash size source now muser cluster).
  set (st0 := mk_db (nodes st) (policy st) (statistics st)
                    (versions st ++ [vnew]) (attributes st)).
  assert (Hint0 : integrity fuel st0)
    by (now apply (integrity_add_version fuel st vnew)).
  destruct (walk_stats fuel st0 node 1 size now cluster Hint0)
    as (st1 & Hrun & Hsame & Hsize & Hpop).
  exists st1. split.
  { unfold version_create, bind, get, put, ret. rewrite Hex.
    fold serial. fold vnew. fold st0. now rewrite Hrun. }
  split; [eauto with pithos|].
  destruct Hsame as (Hn & Hp & Hv & Ha). repeat split; auto.
Qed.

Lemma version_remove_stats fuel now st serial v :
  integrity fuel st -> version_get_properties st serial = Some v ->
  exists st',
    version_remove fuel now serial st = Ok (Some (v_hash v), st') /\
    integrity fuel st' /\
    nodes st' = nodes st /\ policy st' = policy st /\
    versions st' = filter (fun w => negb (v_serial w =? serial)) (versions st) /\
    attributes st'
    = filter (fun a => negb (a_serial a =? serial)) (attributes st) /\
    forall top c,
      stat_size st' top c =
        stat_size st top c
        - (if (c =? v_cluster v) && under fuel (nodes st) (v_node v) top
           then v_size v else 0) /\
      stat_population st' top c =
        stat_population st top c
        - (if (c =? v_cluster v) && child_of st (v_node v) top then 1 else 0).
Proof.
  intros Hint Hfind. unfold version_remove, bind at 1, get at 1.
  rewrite Hfind. unfold version_get_properties in Hfind.
  apply find_some in Hfind. destruct Hfind as (Hin & Hs%Z.eqb_eq).
  destruct (walk_stats fuel st (v_node v) (-1) (- v_size v) now (v_cluster v)
              Hint) as (st1 & Hrun & Hsame & Hsize & Hpop).
  exists (delete_versions (fun x => v_serial x =? serial) st1).
  split; [unmonad; now rewrite Hrun|].
  assert (Hint1 : integrity fuel st1) by eauto with pithos.
  split; [now apply integrity_delete_versions|].
  destruct Hsame as (Hn & Hp & Hv & Ha).
  cbn [nodes policy versions attributes delete_versions].
  rewrite Hv, Ha. subst serial.
  rewrite (pk_filter_singleton v_serial (versions st) v
             (int_pk_versions _ _ Hint) Hin).
  repeat split; auto.
  - apply filter_ext. intros a. unfold memZ. cbn [map existsb].
    now rewrite orb_false_r.
  - change (stat_size (delete_versions _ st1) top c)
      with (stat_size st1 top c).
    rewrite Hsize.
    destruct ((c =? v_cluster v) && under fuel (nodes st) (v_node v) top); lia.
  - change (stat_population (delete_versions _ st1) top c)
      with (stat_population st1 top c).
    rewrite Hpop.
    destruct ((c =? v_cluster v) && child_of st (v_node v) top); lia.
Qed.

(** X10: [version_remove] of a serial that is not found returns None
    and changes nothing. Of a version that is found it returns the hash,
    deletes the version and its attributes (the serial is then not found
    and has no attributes), takes the size off the statistics of every
    node the version's node lies under and one off the population of the
    parent, and leaves the nodes as they are: the node of the version
    stays, also when no version is left at it. *)
Theorem version_remove_effect fuel now st serial (Hint : integrity fuel st) :
  (version_get_properties st serial = None ->
   version_remove fuel now serial st = Ok (None, st)) /\
  (forall v, version_get_properties st serial = Some v ->
     exists st',
       version_remove fuel now serial st = Ok (Some (v_hash v), st') /\
       nodes st' = nodes st /\
       (forall w, In w (versions st') <->
                  In w (versions st) /\ v_serial w <> serial) /\
       (forall a, In a (attributes st') <->
                  In a (attributes st) /\ a_serial a <> serial) /\
       version_get_properties st' serial = None /\
       attribute_get st' serial = [] /\
       forall top c,
         stat_size st' top c =
           stat_size st top c
           - (if (c =? v_cluster v) && under fuel (nodes st) (v_node v) top
              then v_size v else 0) /\
         stat_population st' top c =
           stat_population st top c
           - (if (c =? v_cluster v) && child_of st (v_node v) top
              then 1 else 0)).
Proof.
  split.
  - intros Hnone. unfold version_remove, bind, get, ret. now rewrite Hnone.
  - intros v Hfind.
    destruct (version_remove_stats fuel now st serial v Hint Hfind)
      as (st' & Hrun & _ & Hn & _ & Hv & Ha & Hstat).
    exists st'. split; [exact Hrun|]. split; [exact Hn|].
    split; [|split; [|split; [|split; [|exact Hstat]]]].
    + intros w. rewrite Hv, filter_In, negb_true_iff, Z.eqb_neq. tauto.
    + intros a. rewrite Ha, filter_In, negb_true_iff, Z.eqb_neq. tauto.
    + unfold version_get_properties. rewrite Hv. apply find_absent.
      intros w Hw. apply filter_In in Hw. destruct Hw as (_ & Hw).
      now apply negb_true_iff.
    + unfold attribute_get. rewrite Ha. rewrite filter_none; [reflexivity|].
      intros a Hin. apply filter_In in Hin. destruct Hin as (_ & Hin).
      now apply negb_true_iff.
Qed.

Lemma version_remove_effect_witness :
  integrity 3 db_nested /\
  exists st',
    version_remove 3 20 1 db_nested = Ok (Some (u "h1"), st') /\
    node_exists st' 2 = true /\
    version_get_properties st' 1 = None /\
    stat_size st' 1 0 = 0 /\ stat_population st' 1 0 = 0.
Proof.
  assert (Hint : integrity 3 db_nested) by (apply integrityb_sound; reflexivity).
  split; [exact Hint|].
  destruct (version_remove_effect 3 20 db_nested 1 Hint) as (_ & Hsome).
  destruct (Hsome (mk_version 1 2 (u "h1") 10 None 10 (u "user") 0) eq_refl)
    as (st' & Hrun & Hn & _ & _ & Hgone & _ & Hstat).
  exists st'. split; [exact Hrun|]. split; [|split; [exact Hgone|]].
  - unfold node_exists. rewrite Hn. reflexivity.
  - destruct (Hstat 1 0) as (Hsize & Hpop). rewrite Hsize, Hpop.
    split; reflexivity.
Defined.

(** X11: creating a version and then removing it gives back the hash
    and undoes the creation: the nodes, policies, versions and
    attributes are those of before, and every stored size and population
    has its former value. *)
Theorem version_create_remove fuel now now' st node hash size source muser
    cluster
    (Hint : integrity fuel st)
    (Hfk : fk_attributes st)
    (Hex : node_exists st node = true) :
  exists serial st1 st2,
    version_create fuel now node hash size source muser cluster st
      = Ok ((serial, now), st1) /\
    version_remove fuel now' serial st1 = Ok (Some hash, st2) /\
    nodes st2 = nodes st /\ policy st2 = policy st /\
    versions st2 = versions st /\ attributes st2 = attributes st /\
    forall top c,
      stat_size st2 top c = stat_size st top c /\
      stat_population st2 top c = stat_population st top c.
Proof.
  destruct (version_create_stats fuel now st node hash size source muser
              cluster Hint Hex)
    as (st1 & Hrun1 & Hint1 & Hn1 & Hp1 & Hv1 & Ha1 & Hstat1).
  set (serial := next_rowid (map v_serial (versions st))) in *.
  set (v := mk_version serial node hash size source now muser cluster) in *.
  assert (Hfresh : forall w, In w (versions st) -> v_serial w <> serial).
  { intros w Hw. pose proof (next_rowid_fresh (map v_serial (versions st))
                               (v_serial w) (in_map v_serial _ _ Hw)).
    fold serial in H. lia. }
  assert (Hfind : version_get_properties st1 serial = Some v).
  { unfold version_get_properties. rewrite Hv1, find_snoc.
    rewrite find_absent.
    - change (v_serial v) with serial. now rewrite Z.eqb_refl.
    - intros w Hw. apply Z.eqb_neq. now apply Hfresh. }
  destruct (version_remove_stats fuel now' st1 serial v Hint1 Hfind)
    as (st2 & Hrun2 & _ & Hn2 & Hp2 & Hv2 & Ha2 & Hstat2).
  exists serial, st1, st2. split; [exact Hrun1|]. split; [exact Hrun2|].
  split; [congruence|]. split; [congruence|]. split; [|split].
  - rewrite Hv2, Hv1, filter_app. cbn [filter].
    change (v_serial v) with serial. rewrite Z.eqb_refl. cbn [negb].
    rewrite app_nil_r. apply filter_all. intros w Hw.
    apply negb_true_iff, Z.eqb_neq. now apply Hfresh.
  - rewrite Ha2, Ha1. apply filter_all. intros a Hin.
    apply negb_true_iff, Z.eqb_neq. intros He.
    specialize (Hfk a Hin). unfold version_exists in Hfk.
    apply existsb_exists in Hfk. destruct Hfk as (w & Hw & Hs%Z.eqb_eq).
    apply (Hfresh w Hw). congruence.
  - intros top c. destruct (Hstat1 top c) as (Hs1 & Hq1).
    destruct (Hstat2 top c) as (Hs2 & Hq2).
    rewrite Hs2, Hq2, Hs1, Hq1, Hn1.
    change (v_cluster v) with cluster. change (v_node v) with node.
    change (v_size v) with size.
    rewrite (child_of_same st st1 node top Hn1).
    split; match goal with |- context [if ?b then _ else _] => destruct b end;
      lia.
Qed.

Lemma version_create_remove_witness :
  integrity 3 db_nested /\ fk_attributes db_nested /\
  exists serial st1 st2,
    version_create 3 30 2 (u "h2") 4 None (u "user") 1 db_nested
      = Ok ((serial, 30), st1) /\
    version_remove 3 40 serial st1 = Ok (Some (u "h2"), st2) /\
    versions st2 = versions db_nested /\
    stat_size st2 1 1 = stat_size db_nested 1 1.
Proof.
  assert (Hint : integrity 3 db_nested) by (apply integrityb_sound; reflexivity).
  assert (Hfk : fk_attributes db_nested) by (intros a []).
  split; [exact Hint|]. split; [exact Hfk|].
  destruct (version_create_remove 3 30 40 db_nested 2 (u "h2") 4 None
              (u "user") 1 Hint Hfk eq_refl)
    as (serial & st1 & st2 & Hrun1 & Hrun2 & _ & _ & Hv & _ & Hstat).
  exists serial, st1, st2. repeat split; auto. apply Hstat.
Defined.

(** ** Rows keyed by an owner and a key: attributes and policies *)

Section Upsert.

Variable A : Type.
Variable own : A -> Z.
Variable key : A -> ustring.
Variable val : A -> ustring.

(** insert or replace of one row *)
Lemma upsert_In (row : A) l n k v :
  In (k, v)
     (map (fun r => (key r, val r))
          (filter (fun r => own r =? n)
                  (filter (fun r => negb ((own r =? own row)
                                          && ustr_eqb (key r) (key row))) l
                   ++ [row])))
  <-> (n = own row /\ k = key row /\ v = val row) \/
      (In (k, v) (map (fun r => (key r, val r))
                      (filter (fun r => own r =? n) l)) /\
       ~ (n = own row /\ k = key row)).
Proof.
  rewrite !in_map_iff. split.
  - intros (r & [= <- <-] & Hr). apply filter_In in Hr.
    destruct Hr as (Hr & Hn%Z.eqb_eq). apply in_app_or in Hr.
    destruct Hr as [Hr|[<-|[]]]; [|left; auto].
    apply filter_In in Hr. destruct Hr as (Hr & Hb). right. split.
    + exists r. split; [reflexivity|]. apply filter_In. split; auto.
      now apply Z.eqb_eq.
    + intros (Ho & Hk). apply negb_true_iff, andb_false_iff in Hb.
      destruct Hb as [Hb|Hb].
      * apply Z.eqb_neq in Hb. congruence.
      * rewrite Hk in Hb.
        assert (ustr_eqb (key row) (key row) = true) by now apply ustr_eqb_eq.
        congruence.
  - intros [(-> & -> & ->)|((r & [= <- <-] & Hr) & Hne)].
    + exists row. split; [reflexivity|]. apply filter_In. split.
      * apply in_or_app. right. now left.
      * apply Z.eqb_refl.
    + apply filter_In in Hr. destruct Hr as (Hr & Hn%Z.eqb_eq).
      exists r. split; [reflexivity|]. apply filter_In. split.
      * apply in_or_app. left. apply filter_In. split; auto.
        apply negb_true_iff, andb_false_iff.
        destruct (Z.eqb_spec (own r) (own row)) as [Ho|]; [right | now left].
        destruct (ustr_eqb (key r) (key row)) eqn:E; auto.
        apply ustr_eqb_eq in E. elim Hne. split; congruence.
      * now apply Z.eqb_eq.
Qed.

Lemma upsert_other (row : A) l n :
  n <> own row ->
  filter (fun r => own r =? n)
         (filter (fun r => negb ((own r =? own row)
                                 && ustr_eqb (key r) (key row))) l
          ++ [row])
  = filter (fun r => own r =? n) l.
Proof.
  intros Hn. rewrite filter_app. cbn [filter].
  destruct (Z.eqb_spec (own row) n); [congruence|]. rewrite app_nil_r.
  induction l as [|r l IH]; [reflexivity|]. cbn [filter].
  destruct (Z.eqb_spec (own r) (own row)) as [Ho|Ho]; cbn [andb negb].
  - destruct (ustr_eqb (key r) (key row)); cbn [negb filter].
    + destruct (Z.eqb_spec (own r) n); [congruence | exact IH].
    + now rewrite IH.
  - cbn [filter]. now rewrite IH.
Qed.

(** The primary key (owner, key) is kept. *)
Lemma upsert_NoDup (row : A) l :
  NoDup (map (fun r => (own r, key r)) l) ->
  NoDup (map (fun r => (own r, key r))
             (filter (fun r => negb ((own r =? own row)
                                     && ustr_eqb (key r) (key row))) l
              ++ [row])).
Proof.
  intros Hnd. rewrite map_app. apply NoDup_app.
  - induction l as [|r l IH]; [constructor|].
    inversion Hnd as [|? ? Hnotin Hnd']; subst. cbn [filter].
    destruct (negb _); [|now apply IH]. cbn [map]. constructor; [|now apply IH].
    intros Hin. apply Hnotin. apply in_map_iff in Hin.
    destruct Hin as (x & Hx & Hin). apply filter_In in Hin.
    apply in_map_iff. exists x. tauto.
  - repeat constructor. intros [].
  - intros x Hx [<-|[]]. apply in_map_iff in Hx.
    destruct Hx as (r & [= Ho Hk] & Hr). apply filter_In in Hr.
    destruct Hr as (_ & Hb). rewrite Ho, Hk, Z.eqb_refl in Hb.
    assert (ustr_eqb (key row) (key row) = true) as E by now apply ustr_eqb_eq.
    rewrite E in Hb. discriminate.
Qed.

End Upsert.

(** ** Setting and deleting attributes *)

Lemma replace_attribute_inv row st st' :
  replace_attribute row st = Ok (tt, st') ->
  version_exists st (a_serial row) = true /\
  st' = mk_db (nodes st) (policy st) (statistics st) (versions st)
              (filter (fun a => negb (attr_at (a_serial row) (a_key row) a))
                      (attributes st) ++ [row]).
Proof.
  unfold replace_attribute, bind, get, put, raise.
  destruct (version_exists st (a_serial row)); [|discriminate].
  intros [= <-]. auto.
Qed.

Lemma attribute_set_items serial items : forall st st',
  attribute_set serial items st = Ok (tt, st') ->
  forall s k v,
    In (k, v) (attribute_get st' s) <->
    if s =? serial
    then match find (fun p => ustr_eqb (fst p) k) (rev items) with
         | Some p => snd p = v
         | None => In (k, v) (attribute_get st s)
         end
    else In (k, v) (attribute_get st s).
Proof.
  unfold attribute_set.
  induction items as [|[k1 v1] items IH]; intros st st' Hrun s k v.
  - injection Hrun as <-. now destruct (s =? serial).
  - cbn [for_each] in Hrun. unfold bind in Hrun.
    destruct (replace_attribute _ st) as [[[] st1]| |] eqn:Hrep;
      try discriminate.
    apply replace_attribute_inv in Hrep. destruct Hrep as (_ & Hst1).
    rewrite (IH st1 st' Hrun s k v).
    assert (Hone : In (k, v) (attribute_get st1 s) <->
                   (s = serial /\ k = k1 /\ v = v1) \/
                   (In (k, v) (attribute_get st s) /\
                    ~ (s = serial /\ k = k1))).
    { rewrite Hst1. unfold attribute_get. cbn [attributes a_serial a_key].
      apply (upsert_In attr_row a_serial a_key a_value (mk_attr serial k1 v1)). }
    cbn [rev]. rewrite find_snoc. cbn [fst snd].
    destruct (Z.eqb_spec s serial) as [->|Hs].
    + destruct (find _ (rev items)); [reflexivity|].
      rewrite Hone. destruct (ustr_eqb k1 k) eqn:Ek; cbn [snd].
      * apply ustr_eqb_eq in Ek. subst k1. intuition congruence.
      * assert (k <> k1).
        { intros ->. assert (ustr_eqb k1 k1 = true) by now apply ustr_eqb_eq.
          congruence. }
        intuition congruence.
    + rewrite Hone. intuition congruence.
Qed.

Lemma attribute_set_runs serial items : forall st,
  version_exists st serial = true ->
  exists st', attribute_set serial items st = Ok (tt, st').
Proof.
  unfold attribute_set. induction items as [|[k1 v1] items IH]; intros st Hex.
  - now exists st.
  - cbn [for_each]. unfold bind.
    destruct (replace_attribute _ st) as [[[] st1]| |] eqn:Hrep.
    + apply IH. apply replace_attribute_inv in Hrep.
      destruct Hrep as (_ & ->). exact Hex.
    + unfold replace_attribute, bind, get, put, raise in Hrep.
      cbn [a_serial] in Hrep. rewrite Hex in Hrep. discriminate.
    + unfold replace_attribute, bind, get, put, raise in Hrep.
      cbn [a_serial] in Hrep. rewrite Hex in Hrep. discriminate.
Qed.

Lemma replace_attribute_pk row st st' :
  replace_attribute row st = Ok (tt, st') ->
  pk_attributes st -> pk_attributes st'.
Proof.
  intros Hrep Hpk. apply replace_attribute_inv in Hrep.
  destruct Hrep as (_ & ->). unfold pk_attributes. cbn [attributes].
  apply (upsert_NoDup attr_row a_serial a_key a_value row). exact Hpk.
Qed.

Lemma attribute_set_policy serial items st st' :
  attribute_set serial items st = Ok (tt, st') -> policy st' = policy st.
Proof.
  unfold attribute_set.
  apply (for_each_preserves (fun a b => policy b = policy a));
    [reflexivity | intros a b c Hab Hbc; congruence |].
  intros [k v] s s' Hrep. apply replace_attribute_inv in Hrep.
  destruct Hrep as (_ & ->). reflexivity.
Qed.

(** X12: [attribute_set] on a version of the store returns and keeps
    the primary key of the attributes; afterwards the version has, for
    every key among the items, the value of the last item with that key,
    and for every other key the value it had, if any; the attributes of
    the other versions and the four other tables (nodes, policy,
    versions, statistics) are as before. On a serial that is not in the
    store it raises IntegrityError, unless there is no item, when it
    does nothing. *)
Theorem attribute_set_get st serial items :
  (version_exists st serial = true ->
   exists st',
     attribute_set serial items st = Ok (tt, st') /\
     (pk_attributes st -> pk_attributes st') /\
     (nodes st' = nodes st /\ policy st' = policy st /\
      versions st' = versions st /\ statistics st' = statistics st) /\
     forall s k v,
       In (k, v) (attribute_get st' s) <->
       if s =? serial
       then match find (fun p => ustr_eqb (fst p) k) (rev items) with
            | Some p => snd p = v
            | None => In (k, v) (attribute_get st s)
            end
       else In (k, v) (attribute_get st s)) /\
  (version_exists st serial = false ->
   attribute_set serial items st
   = if is_empty items then Ok (tt, st) else Raise IntegrityError).
Proof.
  split.
  - intros Hex. destruct (attribute_set_runs serial items st Hex) as (st' & Hrun).
    exists st'. split; [exact Hrun|]. split; [|split].
    + revert Hrun. unfold attribute_set.
      apply (for_each_preserves
               (fun a b => pk_attributes a -> pk_attributes b)); auto.
      intros [k v] s s'. apply replace_attribute_pk.
    + destruct (attribute_set_tables serial items st st' Hrun)
        as (Hn & Hv & Hs).
      pose proof (attribute_set_policy serial items st st' Hrun) as Hp.
      split; [exact Hn|]. split; [exact Hp|]. split; [exact Hv | exact Hs].
    + now apply attribute_set_items.
  - intros Hex. destruct items as [|[k v] items]; [reflexivity|].
    unfold attribute_set. cbn [for_each is_empty].
    unfold replace_attribute, bind, get, raise. cbn [a_serial].
    now rewrite Hex.
Qed.

Lemma attribute_set_get_witness :
  exists st',
    attribute_set 1 [(u "color", u "green"); (u "color", u "black")]
                  db_attributes = Ok (tt, st') /\
    In (u "color", u "black") (attribute_get st' 1) /\
    ~ In (u "color", u "red") (attribute_get st' 1) /\
    In (u "size", u "big") (attribute_get st' 1) /\
    attribute_set 9 [(u "color", u "green")] db_attributes
    = Raise IntegrityError.
Proof.
  destruct (attribute_set_get db_attributes 1
              [(u "color", u "green"); (u "color", u "black")])
    as (Hok & _).
  destruct (Hok eq_refl) as (st' & Hrun & _ & _ & Hget).
  exists st'. split; [exact Hrun|]. split; [|split; [|split]].
  - apply Hget. reflexivity.
  - intros H. apply Hget in H. discriminate H.
  - apply Hget. vm_compute. tauto.
  - apply (attribute_set_get db_attributes 9 [(u "color", u "green")]).
    reflexivity.
Defined.

Lemma filter_twice {A} (f g : A -> bool) (l : list A) :
  filter f (filter g l) = filter (fun x => g x && f x) l.
Proof.
  induction l as [|x l IH]; [reflexivity|]. cbn [filter].
  destruct (g x); cbn [filter andb]; now rewrite IH.
Qed.

Lemma existsb_ustr k keys : existsb (ustr_eqb k) keys = true <-> In k keys.
Proof.
  rewrite existsb_exists. split.
  - intros (x & Hx & He%ustr_eqb_eq). now subst.
  - intros H. exists k. split; [exact H | now apply ustr_eqb_eq].
Qed.

Lemma delete_keys serial keys : forall st,
  for_each keys (fun key => delete_attributes (attr_at serial key)) st
  = Ok (tt, mk_db (nodes st) (policy st) (statistics st) (versions st)
                  (filter (fun a => negb ((a_serial a =? serial)
                                          && existsb (ustr_eqb (a_key a)) keys))
                          (attributes st))).
Proof.
  induction keys as [|k keys IH]; intros st.
  - cbn [for_each existsb]. unfold ret. destruct st as [ns ps ss vs ats].
    cbn [nodes policy statistics versions attributes].
    rewrite filter_all; [reflexivity|].
    intros a _. now rewrite andb_false_r.
  - assert (Hstep : delete_attributes (attr_at serial k) st
                    = Ok (tt, mk_db (nodes st) (policy st) (statistics st)
                                    (versions st)
                                    (filter (fun a => negb (attr_at serial k a))
                                            (attributes st))))
      by reflexivity.
    cbn [for_each]. unfold bind at 1. rewrite Hstep, IH.
    cbn [nodes policy statistics versions attributes].
    rewrite filter_twice. do 3 f_equal. apply filter_ext. intros a.
    unfold attr_at. cbn [existsb].
    destruct (a_serial a =? serial), (ustr_eqb (a_key a) k),
      (existsb (ustr_eqb (a_key a)) keys); reflexivity.
Qed.

(** X13: [attribute_del] never fails. With no keys it deletes every
    attribute of the version; with keys it deletes the attributes of the
    version that have one of these keys, and a key that the version does
    not have is passed over. Afterwards [attribute_get] for the same
    keys gives nothing, and every other table, and the attributes of the
    other versions, are as before. *)
Theorem attribute_del_effect st serial keys :
  exists st',
    attribute_del serial keys st = Ok (tt, st') /\
    (nodes st' = nodes st /\ policy st' = policy st /\
     statistics st' = statistics st /\ versions st' = versions st) /\
    (forall a, In a (attributes st') <->
               In a (attributes st) /\
               ~ (a_serial a = serial /\ (keys = [] \/ In (a_key a) keys))) /\
    attribute_get_keys st' serial keys = [] /\
    (forall s, s <> serial -> attribute_get st' s = attribute_get st s).
Proof.
  set (gone := fun a => (a_serial a =? serial)
                        && (is_empty keys || existsb (ustr_eqb (a_key a)) keys)).
  exists (mk_db (nodes st) (policy st) (statistics st) (versions st)
                (filter (fun a => negb (gone a)) (attributes st))).
  assert (Hgone : forall a, gone a = true <->
            a_serial a = serial /\ (keys = [] \/ In (a_key a) keys)).
  { intros a. unfold gone.
    rewrite andb_true_iff, orb_true_iff, Z.eqb_eq, existsb_ustr.
    destruct keys; cbn [is_empty]; intuition discriminate. }
  split; [|split; [auto|split; [|split]]].
  - unfold attribute_del, gone. destruct keys as [|k keys]; cbn [is_empty].
    + unfold delete_attributes, bind, get, put. do 3 f_equal.
      apply filter_ext. intros a. now rewrite andb_true_r.
    + rewrite delete_keys. reflexivity.
  - intros a. cbn [attributes]. rewrite filter_In, negb_true_iff.
    rewrite <- Hgone. destruct (gone a); intuition discriminate.
  - unfold attribute_get_keys, attribute_get, gone. cbn [attributes].
    destruct (is_empty keys);
      (rewrite filter_twice, filter_none; [reflexivity|]); intros a _;
      destruct (a_serial a =? serial),
        (existsb (ustr_eqb (a_key a)) keys); reflexivity.
  - intros s Hs. unfold attribute_get. cbn [attributes]. f_equal.
    rewrite filter_twice. apply filter_ext. intros a. unfold gone.
    destruct (Z.eqb_spec (a_serial a) serial) as [->|]; [|reflexivity].
    destruct (Z.eqb_spec serial s); [congruence|].
    apply andb_false_r.
Qed.

(** ** Policies *)

Lemma replace_policy_inv row st st' :
  replace_policy row st = Ok (tt, st') ->
  node_exists st (p_node row) = true /\
  st' = mk_db (nodes st)
              (filter (fun r => negb (policy_at (p_node row) (p_key row) r))
                      (policy st) ++ [row])
              (statistics st) (versions st) (attributes st).
Proof.
  unfold replace_policy, bind, get, put, raise.
  destruct (node_exists st (p_node row)); [|discriminate].
  intros [= <-]. auto.
Qed.

Lemma policy_set_items node items : forall st st',
  policy_set node items st = Ok (tt, st') ->
  forall n k v,
    In (k, v) (policy_get st' n) <->
    if n =? node
    then match find (fun p => ustr_eqb (fst p) k) (rev items) with
         | Some p => snd p = v
         | None => In (k, v) (policy_get st n)
         end
    else In (k, v) (policy_get st n).
Proof.
  unfold policy_set.
  induction items as [|[k1 v1] items IH]; intros st st' Hrun n k v.
  - injection Hrun as <-. now destruct (n =? node).
  - cbn [for_each] in Hrun. unfold bind in Hrun.
    destruct (replace_policy _ st) as [[[] st1]| |] eqn:Hrep;
      try discriminate.
    apply replace_policy_inv in Hrep. destruct Hrep as (_ & Hst1).
    rewrite (IH st1 st' Hrun n k v).
    assert (Hone : In (k, v) (policy_get st1 n) <->
                   (n = node /\ k = k1 /\ v = v1) \/
                   (In (k, v) (policy_get st n) /\ ~ (n = node /\ k = k1))).
    { rewrite Hst1. unfold policy_get. cbn [policy p_node p_key].
      apply (upsert_In policy_row p_node p_key p_value (mk_policy node k1 v1)). }
    cbn [rev]. rewrite find_snoc. cbn [fst snd].
    destruct (Z.eqb_spec n node) as [->|Hn].
    + destruct (find _ (rev items)); [reflexivity|].
      rewrite Hone. destruct (ustr_eqb k1 k) eqn:Ek; cbn [snd].
      * apply ustr_eqb_eq in Ek. subst k1. intuition congruence.
      * assert (k <> k1).
        { intros ->. assert (ustr_eqb k1 k1 = true) by now apply ustr_eqb_eq.
          congruence. }
        intuition congruence.
    + rewrite Hone. intuition congruence.
Qed.

Lemma policy_set_runs node items : forall st,
  node_exists st node = true ->
  exists st', policy_set node items st = Ok (tt, st').
Proof.
  unfold policy_set. induction items as [|[k1 v1] items IH]; intros st Hex.
  - now exists st.
  - cbn [for_each]. unfold bind.
    destruct (replace_policy _ st) as [[[] st1]| |] eqn:Hrep.
    + apply IH. apply replace_policy_inv in Hrep.
      destruct Hrep as (_ & ->). exact Hex.
    + unfold replace_policy, bind, get, put, raise in Hrep.
      cbn [p_node] in Hrep. rewrite Hex in Hrep. discriminate.
    + unfold replace_policy, bind, get, put, raise in Hrep.
      cbn [p_node] in Hrep. rewrite Hex in Hrep. discriminate.
Qed.

Lemma replace_policy_pk row st st' :
  replace_policy row st = Ok (tt, st') -> pk_policy st -> pk_policy st'.
Proof.
  intros Hrep Hpk. apply replace_policy_inv in Hrep.
  destruct Hrep as (_ & ->). unfold pk_policy. cbn [policy].
  apply (upsert_NoDup policy_row p_node p_key p_value row). exact Hpk.
Qed.

Lemma policy_set_attributes node items st st' :
  policy_set node items st = Ok (tt, st') -> attributes st' = attributes st.
Proof.
  unfold policy_set.
  apply (for_each_preserves (fun a b => attributes b = attributes a));
    [reflexivity | intros a b c Hab Hbc; congruence |].
  intros [k v] s s' Hrep. apply replace_policy_inv in Hrep.
  destruct Hrep as (_ & ->). reflexivity.
Qed.

(** X14: [policy_set] on a node of the store returns and keeps the
    primary key of the policies; [policy_get] of the node then gives,
    for every key of the policy passed, the value passed (the last one,
    should the items repeat a key), and for every other key the value it
    gave before; the policies of the other nodes and the four other
    tables (nodes, statistics, versions, attributes) are as before. On a
    node that is not in the store it raises IntegrityError, unless the
    policy is empty, when it does nothing. *)
Theorem policy_set_get st node items :
  (node_exists st node = true ->
   exists st',
     policy_set node items st = Ok (tt, st') /\
     (pk_policy st -> pk_policy st') /\
     (nodes st' = nodes st /\ statistics st' = statistics st /\
      versions st' = versions st /\ attributes st' = attributes st) /\
     forall n k v,
       In (k, v) (policy_get st' n) <->
       if n =? node
       then match find (fun p => ustr_eqb (fst p) k) (rev items) with
            | Some p => snd p = v
            | None => In (k, v) (policy_get st n)
            end
       else In (k, v) (policy_get st n)) /\
  (node_exists st node = false ->
   policy_set node items st
   = if is_empty items then Ok (tt, st) else Raise IntegrityError).
Proof.
  split.
  - intros Hex. destruct (policy_set_runs node items st Hex) as (st' & Hrun).
    exists st'. split; [exact Hrun|]. split; [|split].
    + revert Hrun. unfold policy_set.
      apply (for_each_preserves (fun a b => pk_policy a -> pk_policy b)); auto.
      intros [k v] s s'. apply replace_policy_pk.
    + destruct (policy_set_tables node items st st' Hrun) as (Hn & Hv & Hs).
      pose proof (policy_set_attributes node items st st' Hrun) as Ha.
      split; [exact Hn|]. split; [exact Hs|]. split; [exact Hv | exact Ha].
    + now apply policy_set_items.
  - intros Hex. destruct items as [|[k v] items]; [reflexivity|].
    unfold policy_set. cbn [for_each is_empty].
    unfold replace_policy, bind, get, raise. cbn [p_node].
    now rewrite Hex.
Qed.

Lemma policy_set_get_witness :
  exists st',
    policy_set 1 [(u "quota", u "10"); (u "versioning", u "auto")] db_nested
      = Ok (tt, st') /\
    In (u "quota", u "10") (policy_get st' 1) /\
    ~ In (u "quota", u "10") (policy_get st' 2) /\
    policy_set 9 [(u "quota", u "10")] db_nested = Raise IntegrityError.
Proof.
  destruct (policy_set_get db_nested 1
              [(u "quota", u "10"); (u "versioning", u "auto")]) as (Hok & _).
  destruct (Hok eq_refl) as (st' & Hrun & _ & _ & Hget).
  exists st'. split; [exact Hrun|]. split; [|split].
  - apply Hget. reflexivity.
  - intros H. apply Hget in H. exact H.
  - apply (policy_set_get db_nested 9 [(u "quota", u "10")]). reflexivity.
Defined.

(** ** Removing a leaf *)

Lemma total_filter {A} (f : A -> Z) (P Q : A -> bool) (l : list A) :
  total f P (filter Q l) = total f (fun x => Q x && P x) l.
Proof. unfold total. now rewrite filter_twice. Qed.

(** X15: [node_remove] of a node of the store that has no children
    returns True and deletes the row of the node and, with it, its
    versions, their attributes, its policies and its rows of statistics;
    before that it takes, for every cluster, the sizes of the node's
    versions off the statistics of every node above it and their number
    off the population of the parent. The rows of the other nodes stay.
    The root is no exception: when no other node is left under it, the
    root row itself is deleted, and no node can be created under the root
    afterwards. *)
Theorem node_remove_leaf fuel now st node
    (Hint : integrity fuel st)
    (Hex : node_exists st node = true)
    (Hleaf : node_count_children st node = 0) :
  exists st',
    node_remove fuel now node st = Ok (true, st') /\
    (forall r, In r (nodes st') <-> In r (nodes st) /\ n_node r <> node) /\
    (forall v, In v (versions st') <-> In v (versions st) /\ v_node v <> node) /\
    (forall a, In a (attributes st') <->
               In a (attributes st) /\
               ~ exists v, In v (versions st) /\ v_node v = node /\
                           v_serial v = a_serial a) /\
    (forall r, In r (policy st') <-> In r (policy st) /\ p_node r <> node) /\
    (forall c, statistics_get st' node c = None) /\
    (forall top c, top <> node ->
       stat_size st' top c =
         stat_size st top c
         - (if under fuel (nodes st) node top
            then total v_size
                       (fun v => (v_node v =? node) && (v_cluster v =? c))
                       (versions st)
            else 0) /\
       stat_population st' top c =
         stat_population st top c
         - (if child_of st node top
            then count (filter (fun v => (v_node v =? node)
                                         && (v_cluster v =? c))
                               (versions st))
            else 0)) /\
    (node = 0 ->
     forall path, node_create 0 path st' = Raise IntegrityError).
Proof.
  unfold node_remove, bind at 1, get at 1.
  rewrite Hleaf. cbn [Z.eqb negb].
  set (at_node := filter (fun v => v_node v =? node) (versions st)).
  destruct (walks_by_cluster fuel now node at_node (clusters_of at_node)
              (sorted_NoDup _ (clusters_of_sorted at_node)) st Hint)
    as (st1 & Hrun & Hsame & Hsize).
  destruct (walks_by_cluster_pop fuel now node at_node (clusters_of at_node)
              (sorted_NoDup _ (clusters_of_sorted at_node)) st Hint)
    as (st1' & Hrun' & _ & Hpop).
  rewrite Hrun in Hrun'. injection Hrun' as <-.
  assert (Hint1 : integrity fuel st1) by eauto with pithos.
  destruct Hsame as (Hn & Hp & Hv & Ha).
  set (sel := fun n : node_row => n_node n =? node).
  assert (Hleaves : leaves st1 (map n_node (filter sel (nodes st1)))).
  { apply (childless_leaves st1). intros x Hx.
    apply node_ids_selected in Hx. destruct Hx as (-> & _).
    unfold node_count_children. now rewrite Hn. }
  destruct fuel as [|k]; [now elim (integrity_fuel _ _ Hint)|].
  exists (delete_nodes sel st1). split.
  { unfold cluster_groups. fold at_node. unmonad.
    cbv zeta in Hrun. now rewrite Hrun. }
  rewrite (delete_nodes_leaves_eq k sel st1 Hint1 Hleaves).
  set (doomed := map n_node (filter sel (nodes st1))).
  assert (Hdoomed : forall x, memZ x doomed = (x =? node)).
  { intros x. destruct (Z.eqb_spec x node) as [->|Hne].
    - apply memZ_In. apply (node_ids_selected st1). split; auto.
      now rewrite (node_exists_same st st1) by (repeat split; auto).
    - destruct (memZ x doomed) eqn:E; auto. apply memZ_In in E.
      apply (node_ids_selected st1) in E. tauto. }
  cbn [nodes versions attributes policy statistics delete_versions].
  rewrite Hn, Hv, Ha, Hp.
  assert (Hat : forall c,
            total v_size (fun v => (v_node v =? node) && (v_cluster v =? c))
                  (versions st)
            = total v_size (fun v => v_cluster v =? c) at_node).
  { intros c. unfold at_node. now rewrite total_filter. }
  assert (Hcls : forall c, memZ c (clusters_of at_node) = false ->
                 filter (fun v => v_cluster v =? c) at_node = []).
  { intros c E. apply filter_none. intros v Hv'.
    destruct (Z.eqb_spec (v_cluster v) c) as [<-|]; auto.
    apply clusters_of_In, memZ_In in Hv'. congruence. }
  split; [|split; [|split; [|split; [|split; [|split]]]]].
  - intros r. rewrite filter_In, negb_true_iff, Hdoomed, Z.eqb_neq. tauto.
  - intros v. rewrite filter_In, negb_true_iff, Hdoomed, Z.eqb_neq. tauto.
  - intros a. rewrite filter_In, negb_true_iff. split.
    + intros (Hin & Hd). split; auto. intros (v & Hv' & He & Hs).
      assert (E : memZ (a_serial a)
                       (map v_serial
                            (filter (fun v => memZ (v_node v) doomed)
                                    (versions st))) = true).
      { apply memZ_In. rewrite <- Hs. apply in_map. apply filter_In.
        split; auto. rewrite Hdoomed, He. apply Z.eqb_refl. }
      congruence.
    + intros (Hin & Hno). split; auto.
      destruct (memZ (a_serial a) _) eqn:E; auto. elim Hno.
      apply memZ_In, in_map_iff in E. destruct E as (v & Hs & Hv').
      apply filter_In in Hv'. destruct Hv' as (Hv' & Hd).
      rewrite Hdoomed in Hd. apply Z.eqb_eq in Hd.
      exists v. repeat split; auto.
  - intros r. rewrite filter_In, negb_true_iff, Hdoomed, Z.eqb_neq. tauto.
  - intros c. unfold statistics_get. cbn [statistics].
    rewrite find_stat_filter. now rewrite Hdoomed, Z.eqb_refl.
  - intros top c Htop.
    assert (Hd : memZ top doomed = false)
      by (rewrite Hdoomed; now apply Z.eqb_neq).
    unfold stat_size, stat_population, statistics_get. cbn [statistics].
    rewrite find_stat_filter, Hd.
    specialize (Hsize top c). specialize (Hpop top c).
    unfold stat_size, stat_population, statistics_get in Hsize, Hpop.
    rewrite Hsize, Hpop, Hat.
    assert (Hcount : filter (fun v => (v_node v =? node) && (v_cluster v =? c))
                            (versions st)
                     = filter (fun v => v_cluster v =? c) at_node)
      by (unfold at_node; now rewrite filter_twice).
    rewrite Hcount.
    destruct (memZ c (clusters_of at_node)) eqn:E; cbn [andb].
    + split; reflexivity.
    + unfold total. rewrite (Hcls c E).
      cbn [map sumZ fold_right count List.length].
      split; [destruct (under _ _ _ _) | destruct (child_of _ _ _)];
        reflexivity.
  - intros -> path. unfold node_create, bind, get, put, ret, raise.
    destruct (existsb _ _); [reflexivity|].
    unfold node_exists. cbn [nodes].
    assert (existsb (fun r => n_node r =? 0)
                    (filter (fun r => negb (memZ (n_node r) doomed)) (nodes st))
            = false) as ->.
    { destruct (existsb _ _) eqn:E; auto. apply existsb_exists in E.
      destruct E as (r & Hr & He%Z.eqb_eq). apply filter_In in Hr.
      destruct Hr as (_ & Hd). rewrite Hdoomed, He in Hd. discriminate. }
    pose proof (next_rowid_positive
                  (map n_node (filter (fun r => negb (memZ (n_node r) doomed))
                                      (nodes st)))) as Hpos.
    destruct (Z.eqb_spec 0 (next_rowid
                (map n_node (filter (fun r => negb (memZ (n_node r) doomed))
                                    (nodes st))))); [lia | reflexivity].
Qed.

Lemma node_remove_leaf_witness :
  (exists st',
     node_remove 3 50 2 db_nested = Ok (true, st') /\
     statistics_get st' 2 0 = None /\ stat_size st' 1 0 = 0 /\
     stat_population st' 1 0 = 0) /\
  (exists st',
     node_remove 1 50 0 init_db = Ok (true, st') /\
     node_create 0 (u "a") st' = Raise IntegrityError).
Proof.
  split.
  - assert (Hint : integrity 3 db_nested)
      by (apply integrityb_sound; reflexivity).
    destruct (node_remove_leaf 3 50 db_nested 2 Hint eq_refl eq_refl)
      as (st' & Hrun & _ & _ & _ & _ & Hgone & Hstat & _).
    exists st'. split; [exact Hrun|]. split; [apply Hgone|].
    destruct (Hstat 1 0) as (Hsize & Hpop); [discriminate|].
    rewrite Hsize, Hpop. split; reflexivity.
  - assert (Hint : integrity 1 init_db)
      by (apply integrityb_sound; reflexivity).
    destruct (node_remove_leaf 1 50 init_db 0 Hint eq_refl eq_refl)
      as (st' & Hrun & _ & _ & _ & _ & _ & _ & Hroot).
    exists st'. split; [exact Hrun|]. now apply Hroot.
Defined.

(** ** What [node_purge] does *)

Lemma delete_nodes_exists sel st x :
  node_exists (delete_nodes sel st) x = true <->
  node_exists st x = true /\
  memZ x (cascade (List.length (nodes st)) (nodes st)
                  (map n_node (filter sel (nodes st)))) = false.
Proof.
  unfold node_exists at 1. unfold delete_nodes.
  cbn [nodes delete_versions]. rewrite (node_exists_filter st).
  rewrite node_exists_In. split.
  - intros (r & Hr & Hd%negb_true_iff & He). rewrite <- He. eauto.
  - intros ((r & Hr & He) & Hd). exists r. rewrite He, Hd. auto.
Qed.

Lemma delete_nodes_statistics sel st top c :
  statistics_get (delete_nodes sel st) top c =
  if memZ top (cascade (List.length (nodes st)) (nodes st)
                       (map n_node (filter sel (nodes st))))
  then None else statistics_get st top c.
Proof.
  unfold statistics_get, delete_nodes. cbn [statistics delete_versions].
  rewrite find_stat_filter. now destruct (memZ top _).
Qed.

Lemma purge_sel_spec node before cluster v :
  purge_sel node before cluster v = true <->
  v_node v = node /\ v_cluster v = cluster /\
  le_bound (v_mtime v) before = true.
Proof.
  unfold purge_sel. rewrite !andb_true_iff, !Z.eqb_eq. tauto.
Qed.

(** X16: [node_purge] returns the hashes of the versions at the node in
    the cluster with [mtime <= before] and deletes them, after taking
    their sizes off the statistics of every node above and their number
    off the population of the parent. When another version is left at
    the node, the node stays and nothing else changes; when none is
    left, the row of the node is deleted (and the rows below it with
    it). When no version is selected, nothing changes. *)
Theorem node_purge_effect fuel now st node before cluster
    (Hint : integrity fuel st) :
  let sel := purge_sel node before cluster in
  let purged := filter sel (versions st) in
  exists st',
    node_purge fuel now node before cluster st
      = Ok (map v_hash purged, st') /\
    (forall v, sel v = true <->
               v_node v = node /\ v_cluster v = cluster /\
               le_bound (v_mtime v) before = true) /\
    (purged = [] -> st' = st) /\
    (purged <> [] ->
     (forall top c, node_exists st' top = true ->
        stat_size st' top c =
          stat_size st top c
          - (if (c =? cluster) && under fuel (nodes st) node top
             then sumZ (map v_size purged) else 0) /\
        stat_population st' top c =
          stat_population st top c
          - (if (c =? cluster) && child_of st node top
             then count purged else 0)) /\
     ((exists v, In v (versions st) /\ v_node v = node /\ sel v = false) ->
      nodes st' = nodes st /\
      versions st' = filter (fun v => negb (sel v)) (versions st)) /\
     ((forall v, In v (versions st) -> v_node v = node -> sel v = true) ->
      node_exists st' node = false /\
      forall v, In v (versions st') -> In v (versions st) /\ sel v = false)).
Proof.
  intros sel purged.
  unfold node_purge, bind at 1, get at 1. fold sel. fold purged.
  destruct (Z.eqb_spec (count purged) 0) as [Hz|Hnr].
  { exists st.
    assert (Hnil : purged = [])
      by (unfold count in Hz; destruct purged; [reflexivity | simpl in Hz; lia]).
    rewrite Hnil. split; [reflexivity|].
    split; [intros v; apply purge_sel_spec|]. split; [reflexivity|].
    intros H. now elim H. }
  destruct (walk_stats fuel st node (- count purged)
              (- sumZ (map v_size purged)) now cluster Hint)
    as (st1 & Hrun & Hsame & Hsize & Hpop).
  destruct Hsame as (Hn & Hp & Hv & Ha).
  set (st2 := delete_versions sel st1).
  set (selN := fun n : node_row =>
                 versionless st2 (n_node n) && (n_node n =? node)).
  exists (delete_nodes selN st2). split.
  { unmonad. rewrite Hrun, Hv. reflexivity. }
  split; [intros v; apply purge_sel_spec|].
  split.
  { intros Hnil. rewrite Hnil in Hnr. now elim Hnr. }
  intros _.
  assert (Hvl : versionless st2 node = true <->
                forall v, In v (versions st) -> v_node v = node -> sel v = true).
  { unfold st2. rewrite versionless_after_delete. now rewrite Hv. }
  split; [|split].
  - intros top c Hstay. apply delete_nodes_exists in Hstay.
    destruct Hstay as (_ & Hd).
    unfold stat_size, stat_population. rewrite !delete_nodes_statistics, Hd.
    change (statistics_get st2 top c) with (statistics_get st1 top c).
    specialize (Hsize top c). specialize (Hpop top c).
    unfold stat_size, stat_population in Hsize, Hpop.
    rewrite Hsize, Hpop.
    split; match goal with |- context [if ?b then _ else _] => destruct b end;
      lia.
  - intros (v & Hin & Hnode & Hs).
    assert (Hkeep : versionless st2 node = false).
    { destruct (versionless st2 node) eqn:E; auto.
      rewrite (proj1 Hvl eq_refl v Hin Hnode) in Hs. discriminate. }
    rewrite (delete_nodes_nothing selN st2).
    + unfold st2. cbn [nodes versions delete_versions]. now rewrite Hn, Hv.
    + intros r _. unfold selN.
      destruct (Z.eqb_spec (n_node r) node) as [->|]; [|apply andb_false_r].
      now rewrite Hkeep.
  - intros Hall. split.
    + destruct (node_exists (delete_nodes selN st2) node) eqn:E; auto.
      apply delete_nodes_exists in E. destruct E as (Hex & Hd).
      assert (Hin : In node (cascade (List.length (nodes st2)) (nodes st2)
                               (map n_node (filter selN (nodes st2))))).
      { apply cascade_incl. apply node_exists_In in Hex.
        destruct Hex as (r & Hr & He). apply in_map_iff. exists r.
        split; auto. apply filter_In. split; auto. unfold selN.
        rewrite He, Z.eqb_refl, (proj2 Hvl Hall). reflexivity. }
      apply memZ_In in Hin. congruence.
    + intros v Hin. unfold delete_nodes in Hin.
      cbn [versions delete_versions] in Hin.
      apply filter_In in Hin. destruct Hin as (Hin & _).
      apply filter_In in Hin. destruct Hin as (Hin & Hs).
      rewrite Hv in Hin. split; auto. now apply negb_true_iff.
Qed.

Lemma node_purge_effect_witness :
  integrity 3 db_nested /\
  exists st',
    node_purge 3 50 2 Inf 0 db_nested = Ok ([u "h1"], st') /\
    node_exists st' 2 = false /\ stat_size st' 1 0 = 0.
Proof.
  assert (Hint : integrity 3 db_nested) by (apply integrityb_sound; reflexivity).
  split; [exact Hint|].
  destruct (node_purge_effect 3 50 db_nested 2 Inf 0 Hint)
    as (st' & Hrun & _ & _ & Hsome).
  exists st'. split; [exact Hrun|].
  destruct Hsome as (Hstat & _ & Hprune); [discriminate|].
  split.
  - apply Hprune. intros v Hv _. vm_compute in Hv.
    destruct Hv as [<-|[]]. reflexivity.
  - destruct (Hstat 1 0) as (Hsize & _).
    + pose proof Hrun as H. vm_compute in H. injection H as <-. reflexivity.
    + rewrite Hsize. reflexivity.
Defined.

(** ** Moving a version to another cluster *)

Lemma find_recluster serial cluster s vs :
  find (fun x => v_serial x =? s)
       (map (fun x => if v_serial x =? serial then set_cluster cluster x else x)
            vs)
  = match find (fun x => v_serial x =? s) vs with
    | Some x => Some (if v_serial x =? serial then set_cluster cluster x else x)
    | None => None
    end.
Proof.
  induction vs as [|x vs IH]; [reflexivity|]. cbn [map find].
  assert (Hs : v_serial (if v_serial x =? serial
                         then set_cluster cluster x else x) = v_serial x)
    by (now destruct (v_serial x =? serial)).
  rewrite Hs. now destruct (v_serial x =? s).
Qed.

(** X17: [version_recluster] of a version into a cluster other than its
    own returns; the version keeps its serial and its other properties
    and is in the new cluster, the other versions and tables are as
    before, and on every node above the version's node its size moves
    from the statistics of the old cluster to those of the new one, and
    the population of the parent likewise by one: the sums over the two
    clusters are unchanged. *)
Theorem version_recluster_effect fuel now st serial cluster v
    (Hint : integrity fuel st)
    (Hfind : version_get_properties st serial = Some v)
    (Hc : v_cluster v <> cluster) :
  exists st',
    version_recluster fuel now serial cluster st = Ok (tt, st') /\
    nodes st' = nodes st /\ policy st' = policy st /\
    attributes st' = attributes st /\
    version_get_properties st' serial = Some (set_cluster cluster v) /\
    (forall s, s <> serial ->
               version_get_properties st' s = version_get_properties st s) /\
    forall top c,
      stat_size st' top c =
        stat_size st top c
        + (if under fuel (nodes st) (v_node v) top
           then (if c =? cluster then v_size v else 0)
                - (if c =? v_cluster v then v_size v else 0)
           else 0) /\
      stat_population st' top c =
        stat_population st top c
        + (if child_of st (v_node v) top
           then (if c =? cluster then 1 else 0)
                - (if c =? v_cluster v then 1 else 0)
           else 0) /\
      stat_size st' top cluster + stat_size st' top (v_cluster v)
      = stat_size st top cluster + stat_size st top (v_cluster v).
Proof.
  unfold version_recluster, bind at 1, get at 1. rewrite Hfind.
  destruct (Z.eqb_spec cluster (v_cluster v)) as [He|_]; [congruence|].
  destruct (walk_stats fuel st (v_node v) (-1) (- v_size v) now (v_cluster v)
              Hint) as (st1 & Hrun1 & Hsame1 & Hsize1 & Hpop1).
  assert (Hint1 : integrity fuel st1) by eauto with pithos.
  destruct (walk_stats fuel st1 (v_node v) 1 (v_size v) now cluster Hint1)
    as (st2 & Hrun2 & Hsame2 & Hsize2 & Hpop2).
  pose proof (same_rows_trans _ _ _ Hsame1 Hsame2) as (Hn & Hp & Hv & Ha).
  eexists. split; [unmonad; rewrite Hrun1, Hrun2; reflexivity|].
  cbn [nodes policy attributes].
  split; [exact Hn|]. split; [exact Hp|]. split; [exact Ha|].
  unfold version_get_properties in *. cbn [versions]. rewrite Hv.
  split; [|split].
  - rewrite find_recluster, Hfind.
    apply find_some in Hfind. destruct Hfind as (_ & ->). reflexivity.
  - intros s Hs. rewrite find_recluster.
    destruct (find (fun x => v_serial x =? s) (versions st)) as [w|] eqn:Hw;
      [|reflexivity].
    apply find_some in Hw. destruct Hw as (_ & Hw%Z.eqb_eq).
    destruct (Z.eqb_spec (v_serial w) serial); [congruence | reflexivity].
  - intros top c.
    assert (Hsz : forall s' c0, statistics s' = statistics st2 ->
                  stat_size s' top c0
                  = stat_size st top c0
                    + (if under fuel (nodes st) (v_node v) top
                       then (if c0 =? cluster then v_size v else 0)
                            - (if c0 =? v_cluster v then v_size v else 0)
                       else 0)).
    { intros s' c0 Hs'.
      assert (stat_size s' top c0 = stat_size st2 top c0) as ->
        by (unfold stat_size, statistics_get; now rewrite Hs').
      rewrite Hsize2, Hsize1. destruct Hsame1 as (-> & _).
      destruct (c0 =? cluster), (c0 =? v_cluster v),
        (under fuel (nodes st) (v_node v) top); cbn [andb]; lia. }
    split; [now apply Hsz|]. split.
    + match goal with |- stat_population ?s top c = _ =>
        assert (stat_population s top c = stat_population st2 top c) as ->
          by reflexivity end.
      rewrite Hpop2, Hpop1.
      rewrite (child_of_same st st1 (v_node v) top (proj1 Hsame1)).
      destruct (c =? cluster), (c =? v_cluster v),
        (child_of st (v_node v) top); cbn [andb]; lia.
    + rewrite (Hsz _ cluster), (Hsz _ (v_cluster v)) by reflexivity.
      rewrite !Z.eqb_refl.
      destruct (Z.eqb_spec cluster (v_cluster v)) as [He|_]; [congruence|].
      destruct (Z.eqb_spec (v_cluster v) cluster) as [He|_]; [congruence|].
      destruct (under fuel (nodes st) (v_node v) top); cbv iota; lia.
Qed.

Lemma version_recluster_effect_witness :
  integrity 3 db_nested /\
  exists st',
    version_recluster 3 30 1 7 db_nested = Ok (tt, st') /\
    version_get_properties st' 1
      = Some (mk_version 1 2 (u "h1") 10 None 10 (u "user") 7) /\
    stat_size st' 1 7 = 10 /\ stat_size st' 1 0 = 0.
Proof.
  assert (Hint : integrity 3 db_nested) by (apply integrityb_sound; reflexivity).
  split; [exact Hint|].
  destruct (version_recluster_effect 3 30 db_nested 1 7
              (mk_version 1 2 (u "h1") 10 None 10 (u "user") 0) Hint eq_refl)
    as (st' & Hrun & _ & _ & _ & Hfind & _ & Hstat); [discriminate|].
  exists st'. split; [exact Hrun|]. split; [exact Hfind|].
  split; [rewrite (proj1 (Hstat 1 7)) | rewrite (proj1 (Hstat 1 0))];
    reflexivity.
Defined.

(** ** The entries of a listing *)

Lemma is_latest_current st before v :
  pk_versions st -> In v (versions st) ->
  is_latest st before v = true <-> current_version st (v_node v) before v.
Proof.
  intros Hpk Hin. unfold is_latest.
  set (cand := filter _ (versions st)).
  split.
  - destruct (max_serial cand) as [m|] eqn:Hmax; [|discriminate].
    intros Hs%Z.eqb_eq.
    destruct (max_serial_attained _ _ Hmax) as (w & Hw & Hws).
    apply filter_In in Hw. destruct Hw as (Hwin & Hwb).
    assert (w = v) as ->
      by (apply (NoDup_map_inj v_serial (versions st)); auto; congruence).
    apply andb_prop in Hwb. destruct Hwb as (_ & Ht).
    repeat split; auto.
    intros x Hx Hxn Hxt. rewrite Hs. apply (max_serial_bound _ _ Hmax).
    apply filter_In. split; auto. now rewrite Hxn, Z.eqb_refl.
  - intros (_ & _ & Ht & Hmaxv).
    assert (Hcand : In v cand)
      by (apply filter_In; split; auto; now rewrite Z.eqb_refl).
    destruct (max_serial cand) as [m|] eqn:Hmax.
    2:{ apply max_serial_nil_iff in Hmax. rewrite Hmax in Hcand.
        contradiction. }
    apply Z.eqb_eq.
    pose proof (max_serial_bound _ _ Hmax v Hcand) as Hle.
    destruct (max_serial_attained _ _ Hmax) as (w & Hw & Hws).
    apply filter_In in Hw. destruct Hw as (Hwin & Hwb).
    apply andb_prop in Hwb. destruct Hwb as (Hwn%Z.eqb_eq & Hwt).
    specialize (Hmaxv w Hwin Hwn Hwt). lia.
Qed.

Lemma join_rows_versions st a v n :
  In (a, v, n) (join_rows st false) <->
  a = None /\ In v (versions st) /\ In n (nodes st).
Proof.
  unfold join_rows. rewrite in_flat_map. split.
  - intros (v' & Hv & Hin). apply in_map_iff in Hin.
    destruct Hin as (n' & [= <- <- <-] & Hn). auto.
  - intros (-> & Hv & Hn). exists v. split; auto. apply in_map_iff. eauto.
Qed.

Lemma join_rows_attributes st a v n :
  In (a, v, n) (join_rows st true) <->
  exists a', a = Some a' /\ In a' (attributes st) /\
             In v (versions st) /\ In n (nodes st).
Proof.
  unfold join_rows. rewrite in_flat_map. split.
  - intros (a' & Ha & Hin). apply in_flat_map in Hin.
    destruct Hin as (v' & Hv & Hin). apply in_map_iff in Hin.
    destruct Hin as (n' & [= <- <- <-] & Hn). eauto.
  - intros (a' & -> & Ha & Hv & Hn). exists a'. split; auto.
    apply in_flat_map. exists v. split; auto. apply in_map_iff. eauto.
Qed.

Section Entries.

Variable like_prefix : ustring -> ustring -> bool.

(** The conditions on (v, n) that the listing and
    [latest_attribute_keys] share. *)
Lemma entry_conds st parent before except_cluster pathq a v n :
  pk_nodes st -> pk_versions st ->
  In v (versions st) -> In n (nodes st) ->
  forallb (fun c => eval_cond like_prefix st c a v n)
          ([C_latest before; C_cluster_not except_cluster; C_child_of parent;
            C_node_of_version]
           ++ match pathq with [] => [] | _ => [C_paths pathq] end) = true
  <-> n_node n = v_node v /\ n_parent n = parent /\
      current_version st (n_node n) before v /\
      v_cluster v <> except_cluster /\
      (pathq = [] \/ exists x, In x pathq /\ like_prefix x (n_path n) = true).
Proof.
  intros Hpkn Hpkv Hv Hn. rewrite forallb_app. cbn [forallb eval_cond].
  rewrite !andb_true_iff, negb_true_iff, Z.eqb_neq, Z.eqb_eq, memZ_In,
    children_of_In, (is_latest_current st before v Hpkv Hv).
  assert (Hq : forallb (fun c => eval_cond like_prefix st c a v n)
                 match pathq with [] => [] | _ => [C_paths pathq] end = true
               <-> pathq = [] \/
                   exists x, In x pathq /\ like_prefix x (n_path n) = true).
  { destruct pathq as [|x pathq]; [simpl; tauto|].
    cbn [forallb eval_cond]. rewrite andb_true_r, existsb_exists.
    split; [auto|]. intros [H|H]; [discriminate | exact H]. }
  rewrite Hq. split.
  - intros ((Hl & Hc & (r & Hr & Hp & Hrn) & He & _) & Hpath).
    assert (r = n) as ->
      by (apply (NoDup_map_inj n_node (nodes st)); auto; congruence).
    rewrite He. auto.
  - intros (He & Hp & Hcur & Hc & Hpath). rewrite He in Hcur.
    split; [|exact Hpath]. split; [exact Hcur|]. split; [exact Hc|].
    split; [exists n; auto | auto].
Qed.

End Entries.

Lemma firstn_sorted {A} (R : A -> A -> Prop) n : forall l,
  StronglySorted R l -> StronglySorted R (firstn n l).
Proof.
  induction n as [|n IH]; intros l Hs; [constructor|].
  destruct l as [|x l]; [constructor|].
  inversion Hs as [|? ? Hs' Hall]; subst. cbn [firstn]. constructor; auto.
  rewrite Forall_forall in *. intros y Hy. apply Hall.
  rewrite <- (firstn_skipn n l). apply in_or_app. now left.
Qed.

Lemma firstn_NoDup {A} n (l : list A) : NoDup l -> NoDup (firstn n l).
Proof.
  intros Hnd. rewrite <- (firstn_skipn n l) in Hnd.
  now apply NoDup_app_remove_r in Hnd.
Qed.

Lemma firstn_In {A} n (l : list A) x : In x (firstn n l) -> In x l.
Proof.
  intros Hin. rewrite <- (firstn_skipn n l). apply in_or_app. now left.
Qed.

Section ListingEntries.

Variable like_prefix : ustring -> ustring -> bool.
Variable uni_word : Z -> bool.
Variable uni_space : Z -> bool.

(** The rows of the listing statement without a filter and without a
    LIMIT are the entries between the bounds. *)
Lemma listing_rows_entry st parent nextling before except_cluster pathq
    filterq s r :
  pk_nodes st -> pk_versions st ->
  _construct_filters uni_word uni_space filterq = None ->
  In r (listing_rows like_prefix uni_word uni_space st parent nextling before
          except_cluster pathq filterq s)
  <-> ustr_ltb s (fst r) = true /\ ustr_ltb (fst r) nextling = true /\
      latest_entry like_prefix st parent before except_cluster pathq r.
Proof.
  intros Hpkn Hpkv Hf.
  rewrite (listing_rows_In like_prefix uni_word uni_space st parent nextling
             before except_cluster pathq filterq Hf).
  split.
  - intros (a & v & n & Hin & Hc & ->).
    apply join_rows_versions in Hin. destruct Hin as (-> & Hv & Hn).
    unfold unfiltered_conds in Hc. rewrite forallb_app in Hc.
    cbn [forallb] in Hc. rewrite !andb_true_iff in Hc.
    destruct Hc as ((Hl & Hcl & Hch & He & Hgt & Hlt & _) & Hq).
    assert (Hconds :
              forallb (fun c => eval_cond like_prefix st c None v n)
                ([C_latest before; C_cluster_not except_cluster;
                  C_child_of parent; C_node_of_version]
                 ++ match pathq with [] => [] | _ => [C_paths pathq] end)
              = true).
    { rewrite forallb_app. cbn [forallb]. now rewrite Hl, Hcl, Hch, He, Hq. }
    apply entry_conds in Hconds; auto.
    destruct Hconds as (_ & Hp & Hcur & Hc & Hpath).
    split; [exact Hgt|]. split; [exact Hlt|]. exists n, v. auto 10.
  - intros (Hgt & Hlt & n & v & Hn & Hv & -> & Hp & Hcur & Hc & Hpath).
    assert (He : n_node n = v_node v) by (symmetry; apply Hcur).
    assert (Hconds :
              forallb (fun c => eval_cond like_prefix st c None v n)
                ([C_latest before; C_cluster_not except_cluster;
                  C_child_of parent; C_node_of_version]
                 ++ match pathq with [] => [] | _ => [C_paths pathq] end)
              = true)
      by (apply entry_conds; auto).
    rewrite forallb_app in Hconds. cbn [forallb] in Hconds.
    rewrite !andb_true_iff in Hconds.
    destruct Hconds as ((Hl & Hcl & Hch & He' & _) & Hq).
    exists None, v, n. split; [apply join_rows_versions; auto|].
    split; [|reflexivity].
    unfold unfiltered_conds. rewrite forallb_app. cbn [forallb].
    rewrite Hl, Hcl, Hch, He', Hq. cbn [eval_cond fst] in *.
    now rewrite Hgt, Hlt.
Qed.

(** X18: a listing without a delimiter and without a filter, for a
    prefix that does not end with a code point from 0xffff on, returns;
    its rows are in the order of their paths, without repetitions, no
    more than a limit that is not negative; each row is an entry under
    the parent (the path of a child and the serial of its current
    version, outside the excepted cluster) whose path is after the start
    and before [strnextling prefix]; and when the limit is negative or
    not reached, every such entry is among the rows. *)
Theorem listing_entries st parent prefix delimiter start limit before
    except_cluster pathq filterq nextling
    (Hpkn : pk_nodes st) (Hpkv : pk_versions st)
    (Hd : delimiter = None \/ delimiter = Some [])
    (Hf : _construct_filters uni_word uni_space filterq = None)
    (Hnext : strnextling prefix = Ok nextling) :
  let start' := if is_empty start || ustr_ltb start prefix
                then strprevling prefix else start in
  let entry r :=
    ustr_ltb start' (fst r) = true /\ ustr_ltb (fst r) nextling = true /\
    latest_entry like_prefix st parent before except_cluster pathq r in
  exists rows,
    (forall fuel,
       latest_version_list like_prefix uni_word uni_space fuel st parent
         prefix delimiter start limit before except_cluster pathq filterq
       = Ok (rows, [])) /\
    StronglySorted path_le rows /\ NoDup rows /\
    (0 <= limit -> count rows <= limit) /\
    (forall r, In r rows -> entry r) /\
    (limit < 0 \/ count rows < limit -> forall r, entry r -> In r rows).
Proof.
  intros start' entry.
  set (all := listing_rows like_prefix uni_word uni_space st parent nextling
                before except_cluster pathq filterq start').
  assert (Hall : forall r, In r all <-> entry r)
    by (intros r; now apply listing_rows_entry).
  assert (Hsorted : StronglySorted path_le all)
    by (now apply listing_rows_sorted).
  assert (Hnd : NoDup all) by (now apply listing_rows_NoDup).
  exists (if limit <? 0 then all else firstn (Z.to_nat limit) all).
  split; [|split; [|split; [|split; [|split]]]].
  - intros fuel. unfold latest_version_list. rewrite Hnext.
    cbn [result_bind]. fold start'.
    assert (Hrun : execute_select like_prefix st
                     (listing_statement uni_word uni_space parent start'
                        nextling before except_cluster pathq filterq
                        (Some limit))
                   = Ok (if limit <? 0 then all
                         else firstn (Z.to_nat limit) all)).
    { unfold all, listing_rows.
      now rewrite !(unfiltered_select _ _ _ _ _ _ _ _ _ _ _ _ Hf). }
    destruct Hd as [-> | ->]; now rewrite Hrun.
  - destruct (limit <? 0); [exact Hsorted | now apply firstn_sorted].
  - destruct (limit <? 0); [exact Hnd | now apply firstn_NoDup].
  - intros Hlimit. destruct (Z.ltb_spec limit 0); [lia|].
    unfold count. pose proof (firstn_le_length (Z.to_nat limit) all). lia.
  - intros r Hr. apply Hall.
    destruct (limit <? 0); [exact Hr | now apply firstn_In in Hr].
  - intros Hlimit r Hr. apply Hall in Hr.
    destruct (Z.ltb_spec limit 0) as [Hneg|Hpos]; [exact Hr|].
    destruct Hlimit as [Hlimit|Hlimit]; [lia|].
    unfold count in Hlimit. rewrite length_firstn in Hlimit.
    rewrite firstn_all2; [exact Hr | lia].
Qed.

End ListingEntries.

Lemma listing_entries_witness :
  pk_nodes db_marker_and_entry /\ pk_versions db_marker_and_entry /\
  exists rows,
    latest_version_list starts_with ascii_only ascii_only 0
      db_marker_and_entry 0 [] None [] 10 Inf 1 [] None
    = Ok (rows, []) /\
    NoDup rows /\ count rows <= 10.
Proof.
  assert (Hpkn : pk_nodes db_marker_and_entry)
    by (apply distinctZ_NoDup; reflexivity).
  assert (Hpkv : pk_versions db_marker_and_entry)
    by (apply distinctZ_NoDup; reflexivity).
  split; [exact Hpkn|]. split; [exact Hpkv|].
  destruct (listing_entries starts_with ascii_only ascii_only
              db_marker_and_entry 0 [] None [] 10 Inf 1 [] None [65535]
              Hpkn Hpkv (or_introl eq_refl) eq_refl eq_refl)
    as (rows & Hrun & _ & Hnd & Hlim & _).
  exists rows. split; [apply Hrun|]. split; [exact Hnd|]. apply Hlim. lia.
Defined.

(** ** The common prefixes of a listing *)

Lemma sorted_snoc {A} (R : A -> A -> Prop) l x :
  StronglySorted R l -> (forall y, In y l -> R y x) ->
  StronglySorted R (l ++ [x]).
Proof.
  induction l as [|z l IH]; simpl; intros Hs Hall.
  - repeat constructor.
  - inversion Hs as [|? ? Hs' Hz]; subst. constructor; auto.
    apply Forall_app. split; auto.
Qed.

Lemma sorted_suffix {A} (R : A -> A -> Prop) l1 l2 :
  StronglySorted R (l1 ++ l2) -> StronglySorted R l2.
Proof.
  induction l1 as [|z l1 IH]; simpl; auto.
  intros Hs. inversion Hs; subst. auto.
Qed.

Lemma NoDup_snoc {A} (l : list A) x : NoDup l -> ~ In x l -> NoDup (l ++ [x]).
Proof.
  induction l as [|z l IH]; simpl; intros Hnd Hx.
  - repeat constructor. intros [].
  - inversion Hnd as [|? ? Hz Hnd']; subst. constructor.
    + intros Hin. apply in_app_or in Hin.
      destruct Hin as [Hin|[<-|[]]]; auto.
    + apply IH; auto.
Qed.

(** Where [find] finds [sub] in [s]: not before [start], after [b]. *)
Lemma find_from_spec sub start : forall s i,
  0 <= find_from i s sub start ->
  start <= find_from i s sub start /\
  exists b rest, s = b ++ sub ++ rest /\
                 ulen b = find_from i s sub start - i.
Proof.
  induction s as [|x s IH]; intros i; simpl;
    destruct ((start <=? i) && starts_with sub _) eqn:E.
  - intros _. apply andb_prop in E. destruct E as (Hs%Z.leb_le & Hsub).
    apply starts_with_app in Hsub. destruct Hsub as (rest & ->).
    split; [exact Hs|]. exists [], rest. split; [reflexivity|].
    unfold ulen. simpl. lia.
  - lia.
  - intros _. apply andb_prop in E. destruct E as (Hs%Z.leb_le & Hsub).
    apply starts_with_app in Hsub. destruct Hsub as (rest & ->).
    split; [exact Hs|]. exists [], rest. split; [reflexivity|].
    unfold ulen. simpl. lia.
  - intros Hfound. destruct (IH (i + 1) Hfound) as (Hs & b & rest & -> & Hb).
    split; [exact Hs|]. exists (x :: b), rest. split; [reflexivity|].
    unfold ulen in *. simpl List.length. lia.
Qed.

Section ScanInvariant.

Variable pfz : Z.
Variable delimiter : ustring.
Variable limit : Z.
Variable rows : ustring -> list (ustring * Z).
Variable s0 : ustring.

Hypothesis delimiter_not_empty : delimiter <> [].
Hypothesis rows_sorted : forall s, StronglySorted path_le (rows s).
Hypothesis rows_NoDup : forall s, NoDup (rows s).
Hypothesis rows_after :
  forall s r, In r (rows s) -> ustr_ltb s (fst r) = true.
Hypothesis rows_mono :
  forall s s' r, In r (rows s') -> ustr_ltb s (fst r) = true -> In r (rows s).

(** [pf] ends with the delimiter, which starts at or after the end of
    the prefix of the listing, and is a proper start of the path of a
    row of the first query. *)
Let common_prefix (pf : ustring) : Prop :=
  exists b rest serial,
    pf = b ++ delimiter /\ pfz <= ulen b /\ rest <> [] /\
    In (pf ++ rest, serial) (rows s0).

(** The rows of the query that starts after [props] are rows that the
    cursor still holds behind [props]. *)
Lemma requery_incl s pre props cursor s' r :
  rows s = pre ++ props :: cursor ->
  ustr_ltb (fst props) s' = true ->
  In r (rows s') -> In r cursor.
Proof.
  intros Hrows Hlt Hr.
  assert (Hp : ustr_ltb (fst props) (fst r) = true).
  { eapply ustr_ltb_trans; [exact Hlt|]. now apply rows_after. }
  assert (Hs : ustr_ltb s (fst props) = true).
  { apply rows_after. rewrite Hrows. apply in_or_app. right. now left. }
  assert (Hin : In r (rows s)).
  { apply (rows_mono s s'); auto. eapply ustr_ltb_trans; eauto. }
  rewrite Hrows in Hin. apply in_app_or in Hin.
  destruct Hin as [Hin|[<-|Hin]]; auto.
  - pose proof (rows_sorted s) as Hsorted. rewrite Hrows in Hsorted.
    pose proof (sorted_before _ _ _ _ Hsorted r Hin) as Hle.
    unfold path_le in Hle. congruence.
  - rewrite ustr_ltb_irrefl in Hp. discriminate.
Qed.

(** What holds each time the loop is at its head, and so of what it
    returns. *)
Lemma scan_inv fuel :
  forall cursor count0 matches prefixes matches' prefixes',
  (exists s pre, rows s = pre ++ cursor) ->
  (forall r, In r cursor -> In r (rows s0)) ->
  (forall m, In m matches -> In m (rows s0)) ->
  (forall pf, In pf prefixes -> common_prefix pf) ->
  NoDup prefixes ->
  (forall pf r, In pf prefixes -> In r cursor ->
                starts_with pf (fst r) = false) ->
  StronglySorted path_le matches -> NoDup matches ->
  (forall m r, In m matches -> In r cursor -> path_le m r /\ m <> r) ->
  scan fuel (fun s => Ok (rows s)) pfz delimiter limit cursor count0
       matches prefixes = Ok (matches', prefixes') ->
  (forall m, In m matches' -> In m (rows s0)) /\
  (forall pf, In pf prefixes' -> common_prefix pf) /\
  NoDup prefixes' /\ StronglySorted path_le matches' /\ NoDup matches'.
Proof.
  induction fuel as [|fuel IH];
    intros cursor count0 matches prefixes matches' prefixes'
           (s & pre & Hrows) Hcur Hm Hp Hnd Hstart Hsorted Hndm Hle;
    [discriminate|].
  simpl. destruct cursor as [|props cursor].
  { intros [= <- <-]. auto. }
  assert (Hprops : In props (rows s0)) by (apply Hcur; now left).
  assert (Htail : StronglySorted path_le (props :: cursor) /\
                  NoDup (props :: cursor)).
  { split.
    - apply (sorted_suffix _ pre). rewrite <- Hrows. apply rows_sorted.
    - apply (NoDup_app_remove_l pre). rewrite <- Hrows. apply rows_NoDup. }
  (* the entry appended to the matches *)
  assert (Hm' : forall m, In m (matches ++ [props]) -> In m (rows s0)).
  { intros m Hin. apply in_app_or in Hin.
    destruct Hin as [Hin|[<-|[]]]; auto. }
  assert (Hsorted' : StronglySorted path_le (matches ++ [props])).
  { apply sorted_snoc; auto. intros m Hin. apply Hle; auto. now left. }
  assert (Hndm' : NoDup (matches ++ [props])).
  { apply NoDup_snoc; auto. intros Hin.
    destruct (Hle props props Hin (or_introl eq_refl)) as (_ & Hne).
    now apply Hne. }
  assert (Hle' : forall m r, In m (matches ++ [props]) -> In r cursor ->
                             path_le m r /\ m <> r).
  { intros m r Hin Hr. apply in_app_or in Hin.
    destruct Hin as [Hin|[<-|[]]]; [apply Hle; auto; now right|].
    destruct Htail as (Hts & Htn).
    inversion Hts as [|? ? _ Hall]; subst.
    inversion Htn as [|? ? Hnotin _]; subst. split.
    - rewrite Forall_forall in Hall. auto.
    - intros ->. contradiction. }
  assert (Hgo : forall count1,
            scan fuel (fun s => Ok (rows s)) pfz delimiter limit cursor
                 count1 (matches ++ [props]) prefixes
            = Ok (matches', prefixes') ->
            (forall m, In m matches' -> In m (rows s0)) /\
            (forall pf, In pf prefixes' -> common_prefix pf) /\
            NoDup prefixes' /\ StronglySorted path_le matches' /\
            NoDup matches').
  { intros count1 Hrun.
    apply (IH cursor count1 (matches ++ [props]) prefixes matches' prefixes');
      auto.
    - exists s, (pre ++ [props]). now rewrite <- app_assoc.
    - intros r Hr. apply Hcur. now right.
    - intros pf r Hpf Hr. apply Hstart; auto. now right. }
  destruct (Z.ltb_spec (ufind (fst props) delimiter pfz) 0) as [Hidx|Hidx].
  { destruct (count0 + 1 >=? limit); [|apply Hgo].
    intros [= <- <-]. auto. }
  destruct (Z.eqb_spec (ufind (fst props) delimiter pfz + ulen delimiter)
                       (ulen (fst props))) as [Hend|Hmid]; [apply Hgo|].
  (* a common prefix *)
  destruct (find_from_spec delimiter pfz (fst props) 0 Hidx)
    as (Hpfz & b & rest & Hpath & Hb).
  fold (ufind (fst props) delimiter pfz) in Hpfz, Hb.
  assert (Hpf : firstn (Z.to_nat (ufind (fst props) delimiter pfz
                                  + ulen delimiter)) (fst props)
                = b ++ delimiter).
  { replace (Z.to_nat (ufind (fst props) delimiter pfz + ulen delimiter))
      with (List.length (b ++ delimiter) + 0)%nat
      by (rewrite length_app; unfold ulen in *; lia).
    rewrite Hpath, app_assoc, firstn_app_2. cbn [firstn].
    now rewrite app_nil_r. }
  rewrite Hpf.
  assert (Hrest : rest <> []).
  { intros ->. apply Hmid.
    assert (Hlen : ulen (fst props) = ulen b + ulen delimiter).
    { rewrite Hpath, app_nil_r. unfold ulen. rewrite length_app. lia. }
    lia. }
  assert (Hcommon : common_prefix (b ++ delimiter)).
  { exists b, rest, (snd props). split; [reflexivity|]. split; [lia|].
    split; [exact Hrest|]. rewrite <- app_assoc, <- Hpath.
    now rewrite <- surjective_pairing. }
  assert (Hpfne : b ++ delimiter <> []).
  { intros H. apply app_eq_nil in H. now destruct H. }
  assert (Hp' : forall x, In x (prefixes ++ [b ++ delimiter]) ->
                          common_prefix x).
  { intros x Hin. apply in_app_or in Hin.
    destruct Hin as [Hin|[<-|[]]]; auto. }
  assert (Hnd' : NoDup (prefixes ++ [b ++ delimiter])).
  { apply NoDup_snoc; auto. intros Hin.
    assert (starts_with (b ++ delimiter) (fst props) = true) as Hs
      by (apply starts_with_app; exists rest; now rewrite <- app_assoc).
    rewrite (Hstart _ props Hin (or_introl eq_refl)) in Hs. discriminate. }
  destruct (count0 >=? limit). { intros [= <- <-]. auto. }
  unfold result_bind.
  destruct (strnextling (b ++ delimiter)) as [s'| |] eqn:Enext;
    try discriminate.
  assert (Hafter : ustr_ltb (fst props) s' = true).
  { rewrite Hpath, app_assoc. now apply strnextling_after. }
  intros Hrun.
  apply (IH (rows s') count0 matches (prefixes ++ [b ++ delimiter])
            matches' prefixes'); auto.
  - exists s', []. reflexivity.
  - intros r Hr. apply (rows_mono s0 s'); auto.
    eapply ustr_ltb_trans; [apply rows_after; exact Hprops|].
    eapply ustr_ltb_trans; [exact Hafter|]. now apply rows_after.
  - intros x r Hx Hr. apply in_app_or in Hx.
    destruct Hx as [Hx|[<-|[]]].
    + apply Hstart; auto. right.
      now apply (requery_incl s pre props cursor s').
    + destruct (starts_with (b ++ delimiter) (fst r)) eqn:E; auto.
      apply starts_with_app in E. destruct E as (rest' & E).
      pose proof (strnextling_after _ rest' s' Hpfne Enext) as Hlt.
      rewrite <- E in Hlt. apply ustr_ltb_asym in Hlt.
      rewrite (rows_after s' r Hr) in Hlt. discriminate.
  - intros m r Hin Hr. apply Hle; auto. right.
    now apply (requery_incl s pre props cursor s').
Qed.

End ScanInvariant.

Section ListingPrefixes.

Variable like_prefix : ustring -> ustring -> bool.
Variable uni_word : Z -> bool.
Variable uni_space : Z -> bool.

(** X19: what a listing with a delimiter returns: the matches are in the
    order of their paths, without repetitions, and each is an entry
    under the parent between the start and [strnextling prefix]; the
    common prefixes are reported once each, and each ends with the
    delimiter, which starts at or after the end of the prefix of the
    listing, and is a proper start of the path of such an entry. *)
Theorem listing_prefixes fuel st parent prefix delimiter start limit before
    except_cluster pathq filterq matches prefixes
    (Hpkn : pk_nodes st) (Hpkv : pk_versions st)
    (Hdelim : delimiter <> [])
    (Hrun : latest_version_list like_prefix uni_word uni_space fuel st parent
              prefix (Some delimiter) start limit before except_cluster
              pathq filterq = Ok (matches, prefixes)) :
  exists nextling,
    strnextling prefix = Ok nextling /\
    let start' := if is_empty start || ustr_ltb start prefix
                  then strprevling prefix else start in
    let entry r :=
      ustr_ltb start' (fst r) = true /\ ustr_ltb (fst r) nextling = true /\
      latest_entry like_prefix st parent before except_cluster pathq r in
    StronglySorted path_le matches /\ NoDup matches /\
    (forall r, In r matches -> entry r) /\
    NoDup prefixes /\
    forall pf, In pf prefixes ->
      exists b rest serial,
        pf = b ++ delimiter /\ ulen prefix <= ulen b /\ rest <> [] /\
        entry (pf ++ rest, serial).
Proof.
  destruct (_construct_filters uni_word uni_space filterq) as [subq|] eqn:Hf.
  { destruct (filtered_listing_raises like_prefix uni_word uni_space st parent
                prefix (Some delimiter) start limit before except_cluster
                pathq filterq subq Hf) as (e & He).
    rewrite He in Hrun. discriminate. }
  unfold latest_version_list, result_bind in Hrun.
  destruct (strnextling prefix) as [nextling| |] eqn:Hnext; try discriminate.
  exists nextling. split; [reflexivity|]. intros start' entry.
  fold start' in Hrun.
  destruct delimiter as [|d delimiter]; [contradiction|].
  set (rows := listing_rows like_prefix uni_word uni_space st parent
                 nextling before except_cluster pathq filterq).
  assert (Hrows : forall s,
            execute_select like_prefix st
              (listing_statement uni_word uni_space parent s nextling
                 before except_cluster pathq filterq None)
            = Ok (rows s)).
  { intros s. unfold rows, listing_rows.
    now rewrite (unfiltered_select _ _ _ _ _ _ _ _ _ _ _ _ Hf). }
  rewrite Hrows in Hrun.
  rewrite (scan_ext _ (fun s => Ok (rows s)) _ _ _ _ Hrows) in Hrun.
  assert (Hentry : forall r, In r (rows start') <-> entry r)
    by (intros r; now apply listing_rows_entry).
  assert (Hne : d :: delimiter <> []) by discriminate.
  assert (H1 : forall s, StronglySorted path_le (rows s))
    by (intros s; now apply listing_rows_sorted).
  assert (H2 : forall s, NoDup (rows s))
    by (intros s; now apply listing_rows_NoDup).
  assert (H3 : forall s r, In r (rows s) -> ustr_ltb s (fst r) = true)
    by (intros s r; now apply listing_rows_after).
  assert (H4 : forall s s' r, In r (rows s') -> ustr_ltb s (fst r) = true ->
                              In r (rows s))
    by (intros s s' r; now apply listing_rows_mono).
  apply (scan_inv (ulen prefix) (d :: delimiter) limit rows start'
                  Hne H1 H2 H3 H4) in Hrun.
  - destruct Hrun as (Hm & Hp & Hnd & Hsorted & Hndm).
    split; [exact Hsorted|]. split; [exact Hndm|].
    split; [intros r Hr; now apply Hentry, Hm|]. split; [exact Hnd|].
    intros pf Hpf.
    destruct (Hp pf Hpf) as (b & rest & serial & E1 & E2 & E3 & E4).
    exists b, rest, serial. split; [exact E1|]. split; [exact E2|].
    split; [exact E3|]. now apply Hentry.
  - exists start', []. reflexivity.
  - auto.
  - intros m [].
  - intros pf [].
  - constructor.
  - intros pf r [].
  - constructor.
  - constructor.
  - intros m r [].
Qed.

End ListingPrefixes.

Lemma listing_prefixes_witness :
  pk_nodes db_marker_and_entry /\ pk_versions db_marker_and_entry /\
  u "/" <> [] /\
  latest_version_list starts_with ascii_only ascii_only 5 db_marker_and_entry
    0 [] (Some (u "/")) [] 1 Inf 1 [] None
  = Ok ([(u "a/", 1)], [u "a/"]) /\
  NoDup [u "a/"] /\
  exists b rest serial, u "a/" = b ++ u "/" /\ rest <> [] /\
    latest_entry starts_with db_marker_and_entry 0 Inf 1 []
      (u "a/" ++ rest, serial).
Proof.
  assert (Hpkn : pk_nodes db_marker_and_entry)
    by (apply distinctZ_NoDup; reflexivity).
  assert (Hpkv : pk_versions db_marker_and_entry)
    by (apply distinctZ_NoDup; reflexivity).
  assert (Hdelim : u "/" <> []) by discriminate.
  assert (Hrun : latest_version_list starts_with ascii_only ascii_only 5
                   db_marker_and_entry 0 [] (Some (u "/")) [] 1 Inf 1 [] None
                 = Ok ([(u "a/", 1)], [u "a/"]))
    by (vm_compute; reflexivity).
  split; [exact Hpkn|]. split; [exact Hpkv|]. split; [exact Hdelim|].
  split; [exact Hrun|].
  destruct (listing_prefixes starts_with ascii_only ascii_only 5
              db_marker_and_entry 0 [] (u "/") [] 1 Inf 1 [] None _ _
              Hpkn Hpkv Hdelim Hrun)
    as (nextling & _ & _ & _ & _ & Hnd & Hp).
  split; [exact Hnd|].
  destruct (Hp (u "a/") (or_introl eq_refl))
    as (b & rest & serial & H1 & _ & H3 & _ & _ & H4).
  exists b, rest, serial. auto.
Defined.

(** ** The keys of the attributes of the entries *)

Lemma distinct_keys_In l k : In k (distinct_keys l) <-> In k l.
Proof.
  induction l as [|x l IH]; simpl; [tauto|].
  destruct (existsb (ustr_eqb x) l) eqn:E; simpl; rewrite IH; [|tauto].
  split; [tauto|]. intros [<-|H]; auto.
  apply existsb_exists in E. destruct E as (z & Hz & He).
  apply ustr_eqb_eq in He. now subst.
Qed.

Lemma distinct_keys_NoDup l : NoDup (distinct_keys l).
Proof.
  induction l as [|x l IH]; simpl; [constructor|].
  destruct (existsb (ustr_eqb x) l) eqn:E; auto. constructor; auto.
  rewrite distinct_keys_In. intros Hin.
  assert (existsb (ustr_eqb x) l = true).
  { apply existsb_exists. exists x. split; auto. now apply ustr_eqb_eq. }
  congruence.
Qed.

Lemma attribute_get_In st serial k value :
  In (k, value) (attribute_get st serial) <->
  exists a, In a (attributes st) /\ a_serial a = serial /\
            a_key a = k /\ a_value a = value.
Proof.
  unfold attribute_get. rewrite in_map_iff. split.
  - intros (a & [= <- <-] & Ha). apply filter_In in Ha.
    destruct Ha as (Ha & He%Z.eqb_eq). eauto.
  - intros (a & Ha & Hs & <- & <-). exists a. split; auto.
    apply filter_In. split; auto. now apply Z.eqb_eq.
Qed.

Section AttributeKeys.

Variable like_prefix : ustring -> ustring -> bool.

(** X20: [latest_attribute_keys] returns (its statement is accepted,
    with or without [pathq]); it gives each key once, and a key is given
    exactly when it is the key of an attribute of the version of an
    entry under the parent: of the current version, as of [before] and
    outside the excepted cluster, of a child whose path matches
    [pathq]. *)
Theorem latest_attribute_keys_entries st parent before except_cluster pathq
    (Hpkn : pk_nodes st) (Hpkv : pk_versions st) :
  exists keys,
    latest_attribute_keys like_prefix st parent before except_cluster pathq
    = Ok keys /\
    NoDup keys /\
    forall k,
      In k keys <->
      exists path serial value,
        latest_entry like_prefix st parent before except_cluster pathq
                     (path, serial) /\
        In (k, value) (attribute_get st serial).
Proof.
  unfold latest_attribute_keys.
  set (conds := [C_latest before; C_cluster_not except_cluster;
                 C_child_of parent; C_node_of_version]
                ++ match pathq with [] => [] | _ => [C_paths pathq] end).
  assert (Hparse : parse_where (attribute_keys_where parent before
                                  except_cluster pathq)
                   = Some ([C_latest before; C_cluster_not except_cluster;
                            C_child_of parent; C_attr_of_version;
                            C_node_of_version]
                           ++ match pathq with
                              | [] => []
                              | _ => [C_paths pathq]
                              end))
    by (destruct pathq; reflexivity).
  rewrite Hparse. eexists. split; [reflexivity|].
  split; [apply distinct_keys_NoDup|].
  assert (Hrow : forall a v n,
            In v (versions st) -> In n (nodes st) ->
            forallb (fun c => eval_cond like_prefix st c (Some a) v n)
              ([C_latest before; C_cluster_not except_cluster;
                C_child_of parent; C_attr_of_version; C_node_of_version]
               ++ match pathq with [] => [] | _ => [C_paths pathq] end)
            = (a_serial a =? v_serial v)
              && forallb (fun c => eval_cond like_prefix st c (Some a) v n)
                         conds).
  { intros a v n Hv Hn. unfold conds. rewrite !forallb_app. cbn [forallb].
    cbn [eval_cond].
    destruct (is_latest st before v), (negb (v_cluster v =? except_cluster)),
      (memZ (v_node v) (children_of st parent)), (a_serial a =? v_serial v),
      (n_node n =? v_node v); reflexivity. }
  intros k. rewrite distinct_keys_In, in_flat_map. split.
  - intros ([[a v] n] & Hin & Hk). apply filter_In in Hin.
    destruct Hin as (Hin & Hc). apply join_rows_attributes in Hin.
    destruct Hin as (a' & -> & Ha & Hv & Hn).
    destruct Hk as [<-|[]].
    rewrite (Hrow a' v n Hv Hn) in Hc. apply andb_prop in Hc.
    destruct Hc as (Hs%Z.eqb_eq & Hc). apply entry_conds in Hc; auto.
    destruct Hc as (_ & Hp & Hcur & Hcl & Hpath).
    exists (n_path n), (v_serial v), (a_value a').
    split; [exists n, v; auto 10|].
    apply attribute_get_In. eauto.
  - intros (path & serial & value & (n & v & Hn & Hv & [= -> ->] & Hp & Hcur
                                     & Hcl & Hpath) & Hattr).
    apply attribute_get_In in Hattr.
    destruct Hattr as (a & Ha & Hs & Hk & _).
    exists (Some a, v, n). split; [|now left].
    apply filter_In. split; [apply join_rows_attributes; eauto 10|].
    rewrite (Hrow a v n Hv Hn). apply andb_true_intro.
    split; [now apply Z.eqb_eq|].
    apply entry_conds; auto.
    split; [symmetry; apply Hcur|]. split; [exact Hp|].
    split; [exact Hcur|]. split; [exact Hcl | exact Hpath].
Qed.

End AttributeKeys.

Lemma latest_attribute_keys_entries_witness :
  pk_nodes db_attributes /\ pk_versions db_attributes /\
  exists keys,
    latest_attribute_keys starts_with db_attributes 0 Inf 1 [] = Ok keys /\
    NoDup keys /\ In (u "owner") keys.
Proof.
  assert (Hpkn : pk_nodes db_attributes) by (apply distinctZ_NoDup; reflexivity).
  assert (Hpkv : pk_versions db_attributes)
    by (apply distinctZ_NoDup; reflexivity).
  split; [exact Hpkn|]. split; [exact Hpkv|].
  destruct (latest_attribute_keys_entries starts_with db_attributes 0 Inf 1 []
              Hpkn Hpkv) as (keys & Hrun & Hnd & Hk).
  exists keys. split; [exact Hrun|]. split; [exact Hnd|].
  vm_compute in Hrun. injection Hrun as <-. right. now left.
Defined.

(** ** The statistics of the latest versions *)

Lemma max_mtime_le m vs : m <= max_mtime m vs.
Proof. induction vs as [|v vs IH]; simpl; lia. Qed.

Lemma sum_split {A} (f : A -> Z) (sel : A -> bool) l :
  sumZ (map f l)
  = sumZ (map f (filter sel l))
    + sumZ (map f (filter (fun x => negb (sel x)) l)).
Proof.
  induction l as [|x l IH]; simpl; auto. destruct (sel x); simpl; lia.
Qed.

Section StatisticsLatest.

Variable like_prefix : ustring -> ustring -> bool.

(** X21: when LIKE matches every path against itself,
    [statistics_latest] returns: the sum that it takes the size of the
    node's version from is never NULL. It returns None exactly when the
    node is missing or has no current version as of [before] outside the
    excepted cluster. Otherwise the count is the number of the current
    versions outside the cluster at the children of the node, the mtime
    is not before that of the node's version, and the size is 0 when the
    count is, and else the sum of the sizes of the current versions
    outside the cluster at the other nodes whose path matches that of
    the node. *)
Theorem statistics_latest_returns st node before except_cluster
    (Hpkn : pk_nodes st) (Hpkv : pk_versions st)
    (Hlike : forall x, like_prefix x x = true) :
  exists r,
    statistics_latest like_prefix st node before except_cluster = Returns r /\
    (r = None <->
     node_get_properties st node = None \/
     forall v, current_version st node before v ->
               v_cluster v = except_cluster) /\
    forall population size mtime,
      r = Some (population, size, mtime) ->
      exists parent path props,
        node_get_properties st node = Some (parent, path) /\
        current_version st node before props /\
        v_cluster props <> except_cluster /\
        population
        = count (latest_at st before except_cluster
                   (fun x => memZ x (children_of st node))) /\
        v_mtime props <= mtime /\
        size
        = if population =? 0 then 0
          else sumZ (map v_size
                 (filter (fun v => negb (v_node v =? node))
                    (latest_at st before except_cluster
                       (fun x => memZ x
                          (map n_node
                             (filter (fun n => like_prefix path (n_path n))
                                     (nodes st))))))).
Proof.
  unfold statistics_latest.
  destruct (node_get_properties st node) as [[parent path]|] eqn:Hnode.
  2:{ exists None. split; [reflexivity|]. split; [tauto | discriminate]. }
  set (cand := filter (fun v => (v_node v =? node)
                                && lt_bound (v_mtime v) before)
                      (versions st)).
  assert (Hcand : forall v, In v cand <->
                            In v (versions st) /\ v_node v = node /\
                            lt_bound (v_mtime v) before = true).
  { intros v. unfold cand. rewrite filter_In, andb_true_iff, Z.eqb_eq.
    tauto. }
  destruct (max_serial cand) as [m|] eqn:Hmax.
  2:{ exists None. split; [reflexivity|]. split; [|discriminate].
      split; [|reflexivity]. intros _. right. intros v (Hv & Hn & Ht & _).
      apply max_serial_nil_iff in Hmax.
      assert (Hin : In v cand) by (apply Hcand; auto).
      rewrite Hmax in Hin. contradiction. }
  destruct (max_serial_attained _ _ Hmax) as (w & Hw & Hws).
  assert (Hcur : current_version st node before w).
  { apply Hcand in Hw. destruct Hw as (Hw & Hn & Ht).
    repeat split; auto. intros x Hx Hxn Hxt. rewrite Hws.
    apply (max_serial_bound _ _ Hmax). apply Hcand. auto. }
  destruct (find (fun v => (v_serial v =? m)
                           && negb (v_cluster v =? except_cluster))
                 (versions st)) as [props|] eqn:Hfind.
  2:{ exists None. split; [reflexivity|]. split; [|discriminate].
      split; [|reflexivity]. intros _. right. intros v Hv.
      rewrite (current_version_unique st node before v w Hpkv Hv Hcur).
      pose proof (find_none _ _ Hfind w (proj1 Hcur)) as Hb. cbv beta in Hb.
      rewrite Hws, Z.eqb_refl in Hb. cbn [andb] in Hb.
      apply negb_false_iff in Hb. now apply Z.eqb_eq. }
  apply find_some in Hfind. destruct Hfind as (Hin & Hb).
  apply andb_prop in Hb. destruct Hb as (Hs%Z.eqb_eq & Hc).
  apply negb_true_iff, Z.eqb_neq in Hc.
  assert (props = w) as Hprops.
  { apply (NoDup_map_inj v_serial (versions st)); auto; [apply Hcur|].
    congruence. }
  rewrite <- Hprops in Hcur. clear w Hw Hws Hprops.
  assert (Hpn : v_node props = node) by apply Hcur.
  set (r1 := latest_at st before except_cluster
               (fun x => memZ x (children_of st node))).
  set (sel := fun x => memZ x (map n_node
                                 (filter (fun n => like_prefix path (n_path n))
                                         (nodes st)))).
  set (r2 := latest_at st before except_cluster sel).
  assert (Hin2 : In props r2).
  { unfold r2, latest_at. apply filter_In. split; [exact Hin|].
    apply andb_true_intro. split; [apply andb_true_intro; split|].
    - apply is_latest_current; auto. now rewrite Hpn.
    - apply negb_true_iff. now apply Z.eqb_neq.
    - unfold sel. apply memZ_In, in_map_iff.
      unfold node_get_properties in Hnode.
      destruct (find (fun r => n_node r =? node) (nodes st)) as [n|] eqn:Hn;
        [|discriminate].
      injection Hnode as _ Hpath. apply find_some in Hn.
      destruct Hn as (Hn & He%Z.eqb_eq). exists n. split; [congruence|].
      apply filter_In. split; [exact Hn|]. rewrite Hpath. apply Hlike. }
  assert (Hsum : sumZ (map v_size r2) - v_size props
                 = sumZ (map v_size
                           (filter (fun v => negb (v_node v =? node)) r2))).
  { rewrite (sum_split v_size (fun v => v_node v =? node) r2).
    assert (Hone : filter (fun v => v_node v =? node) r2 = [props]).
    { rewrite <- (pk_filter_singleton v_serial r2 props);
        [|now apply NoDup_map_filter|exact Hin2].
      apply filter_ext_in. intros v Hv. unfold r2, latest_at in Hv.
      apply filter_In in Hv. destruct Hv as (Hv & Hvb).
      apply andb_prop in Hvb. destruct Hvb as (Hvb & _).
      apply andb_prop in Hvb. destruct Hvb as (Hl & _).
      apply is_latest_current in Hl; auto.
      destruct (Z.eqb_spec (v_node v) node) as [Hvn|Hvn].
      - rewrite Hvn in Hl.
        rewrite (current_version_unique st node before v props Hpkv Hl Hcur).
        symmetry. apply Z.eqb_refl.
      - symmetry. apply Z.eqb_neq. intros He. apply Hvn.
        rewrite <- Hpn. f_equal.
        apply (NoDup_map_inj v_serial (versions st)); auto. }
    rewrite Hone. simpl. lia. }
  destruct (Z.eqb_spec (count r1) 0) as [Hzero|Hpos].
  - eexists. split; [reflexivity|]. split.
    + split; [discriminate|]. intros [Hnone|Hall]; [discriminate|].
      now elim Hc; apply Hall.
    + intros population size mtime [= <- <- <-].
      exists parent, path, props. split; [reflexivity|].
      split; [exact Hcur|]. split; [exact Hc|]. split; [now symmetry|].
      split; [apply max_mtime_le | reflexivity].
  - destruct r2 as [|x r2'] eqn:Hr2; [contradiction|]. rewrite <- Hr2 in *.
    eexists. split; [reflexivity|]. split.
    + split; [discriminate|]. intros [Hnone|Hall]; [discriminate|].
      now elim Hc; apply Hall.
    + intros population size mtime [= <- <- <-].
      exists parent, path, props. split; [reflexivity|].
      split; [exact Hcur|]. split; [exact Hc|]. split; [reflexivity|].
      split.
      * etransitivity; [apply (max_mtime_le (v_mtime props) r1)|].
        apply max_mtime_le.
      * destruct (Z.eqb_spec (count r1) 0); [contradiction | exact Hsum].
Qed.

End StatisticsLatest.

Lemma statistics_latest_returns_witness :
  pk_nodes db_chain /\ pk_versions db_chain /\
  (forall x, starts_with x x = true) /\
  statistics_latest starts_with db_chain 2 Inf 1 = Returns (Some (1, 7, 11)).
Proof.
  assert (Hpkn : pk_nodes db_chain) by (apply distinctZ_NoDup; reflexivity).
  assert (Hpkv : pk_versions db_chain) by (apply distinctZ_NoDup; reflexivity).
  assert (Hlike : forall x, starts_with x x = true).
  { intros x. apply starts_with_app. exists []. now rewrite app_nil_r. }
  split; [exact Hpkn|]. split; [exact Hpkv|]. split; [exact Hlike|].
  destruct (statistics_latest_returns starts_with db_chain 2 Inf 1
              Hpkn Hpkv Hlike) as (r & Hrun & _).
  rewrite Hrun. f_equal. vm_compute in Hrun. now injection Hrun as <-.
Defined.

(** ** The properties of the versions of a node *)

(** X22: [node_get_versions] gives one row for each version at the node,
    and its rows are what [version_get_properties] gives, with the same
    keys, for the serials of these versions. *)
Theorem node_get_versions_rows st node keys (Hpk : pk_versions st) :
  count (node_get_versions st node keys)
  = count (filter (fun v => v_node v =? node) (versions st)) /\
  forall row,
    In row (node_get_versions st node keys) <->
    exists v, In v (versions st) /\ v_node v = node /\
              version_get_properties_keys st (v_serial v) keys = Some row.
Proof.
  assert (Hget : forall v, In v (versions st) ->
            version_get_properties_keys st (v_serial v) keys
            = Some (if is_empty keys then version_props v
                    else select_props keys (version_props v))).
  { intros v Hv. unfold version_get_properties_keys, version_get_properties.
    now rewrite (pk_find v_serial (versions st) v Hpk Hv). }
  split.
  - unfold node_get_versions, count.
    destruct (is_empty keys); now rewrite ?length_map.
  - intros row. split.
    + intros Hin.
      assert (Hv : exists v, In v (filter (fun v => v_node v =? node)
                                          (versions st)) /\
                             row = if is_empty keys then version_props v
                                   else select_props keys (version_props v)).
      { unfold node_get_versions in Hin. destruct (is_empty keys).
        - apply in_map_iff in Hin. destruct Hin as (v & <- & Hv). eauto.
        - apply in_map_iff in Hin. destruct Hin as (p & <- & Hp).
          apply in_map_iff in Hp. destruct Hp as (v & <- & Hv). eauto. }
      destruct Hv as (v & Hv & ->). apply filter_In in Hv.
      destruct Hv as (Hv & Hn%Z.eqb_eq). exists v. auto.
    + intros (v & Hv & Hn & Hrow). rewrite (Hget v Hv) in Hrow.
      injection Hrow as <-.
      assert (Hin : In v (filter (fun v => v_node v =? node) (versions st)))
        by (apply filter_In; split; auto; now apply Z.eqb_eq).
      unfold node_get_versions. destruct (is_empty keys).
      * now apply in_map.
      * apply in_map. now apply in_map.
Qed.

Lemma node_get_versions_rows_witness :
  pk_versions db_attributes /\
  count (node_get_versions db_attributes 1 [u "size"; u "nosuch"; u "serial"])
  = 2 /\
  In [V_int 7; V_int 2]
     (node_get_versions db_attributes 1 [u "size"; u "nosuch"; u "serial"]).
Proof.
  assert (Hpk : pk_versions db_attributes)
    by (apply distinctZ_NoDup; reflexivity).
  destruct (node_get_versions_rows db_attributes 1
              [u "size"; u "nosuch"; u "serial"] Hpk) as (Hcount & Hrows).
  split; [exact Hpk|]. split; [rewrite Hcount; reflexivity|].
  apply Hrows. exists (mk_version 2 1 (u "h2") 7 (Some 1) 20 (u "user") 0).
  split; [right; now left|]. split; reflexivity.
Defined.

(** ** The terms of a filter query *)

Lemma split_on_app sep t rest :
  ~ In sep t -> split_on sep (t ++ sep :: rest) = t :: split_on sep rest.
Proof.
  induction t as [|c t IH]; intros Hsep.
  - simpl. now rewrite Z.eqb_refl.
  - cbn [app split_on].
    destruct (Z.eqb_spec c sep) as [->|_]; [elim Hsep; now left|].
    rewrite IH; [reflexivity|]. intros Hin. apply Hsep. now right.
Qed.

Lemma split_on_one sep t : ~ In sep t -> split_on sep t = [t].
Proof.
  induction t as [|c t IH]; intros Hsep; [reflexivity|].
  cbn [split_on].
  destruct (Z.eqb_spec c sep) as [->|_]; [elim Hsep; now left|].
  rewrite IH; [reflexivity|]. intros Hin. apply Hsep. now right.
Qed.

(** A term that does not start with '!'. *)
Lemma not_negated (c : Z) (t : ustring) :
  c <> 33 ->
  match c :: t with
  | 33 :: rest => (true, rest)
  | _ => (false, c :: t)
  end = (false, c :: t).
Proof.
  intros Hc. destruct c as [|p|p]; try reflexivity.
  do 6 (destruct p as [p|p|]; try reflexivity). now elim Hc.
Qed.

(** After '<' or '>', what follows is not '='. *)
Lemma take_op_lt (value : ustring) :
  (forall rest, value <> 61 :: rest) ->
  take_op (60 :: value) = (Some Op_lt, value) /\
  take_op (62 :: value) = (Some Op_gt, value).
Proof.
  intros Hv. destruct value as [|c value]; [split; reflexivity|].
  assert (Hc : c <> 61) by (intros ->; now elim (Hv value)).
  destruct c as [|p|p]; try (split; reflexivity).
  do 6 (destruct p as [p|p|]; try (split; reflexivity)). now elim Hc.
Qed.

Section FilterTerms.

Variable uni_word : Z -> bool.
Variable uni_space : Z -> bool.

Lemma take_key_app key rest :
  Forall (fun c => is_word uni_word c || (c =? 45) = true) key ->
  (forall c rest', rest = c :: rest' ->
                   is_word uni_word c || (c =? 45) = false) ->
  take_key uni_word (key ++ rest) = (key, rest).
Proof.
  intros Hkey Hrest. induction Hkey as [|c key Hc _ IH].
  - destruct rest as [|c rest]; [reflexivity|]. simpl.
    now rewrite (Hrest c rest eq_refl).
  - cbn [app take_key]. now rewrite Hc, IH.
Qed.

Lemma skip_spaces_head s :
  (forall c s', s = c :: s' -> is_space uni_space c = false) ->
  skip_spaces uni_space s = s.
Proof.
  destruct s as [|c s]; [reflexivity|]. intros H. simpl.
  now rewrite (H c s eq_refl).
Qed.

(** A term that starts with its key, or with '!' and its key. *)
Lemma match_term_key (neg : bool) key rest :
  key <> [] ->
  Forall (fun c => is_word uni_word c || (c =? 45) = true) key ->
  (forall c key', key = c :: key' -> is_space uni_space c = false) ->
  (forall c rest', rest = c :: rest' ->
                   is_word uni_word c || (c =? 45) = false) ->
  match_term uni_word uni_space
    ((if neg then [33] else []) ++ key ++ rest)
  = let (op, s3) := take_op (skip_spaces uni_space rest) in
    match take_value (skip_spaces uni_space s3) with
    | Some value => Some (neg, key, op, value)
    | None => None
    end.
Proof.
  intros Hne Hkey Hspace Hrest.
  destruct key as [|c key]; [contradiction|].
  assert (Hc : c <> 33).
  { intros ->. inversion Hkey as [|? ? H33 _]; subst.
    vm_compute in H33. discriminate. }
  assert (Hskip : skip_spaces uni_space ((c :: key) ++ rest)
                  = (c :: key) ++ rest).
  { apply skip_spaces_head. intros c' s' [= <- _]. now apply (Hspace c key). }
  unfold match_term. destruct neg.
  - change ([33] ++ (c :: key) ++ rest) with (33 :: (c :: key) ++ rest).
    cbv iota beta. rewrite Hskip, (take_key_app _ _ Hkey Hrest).
    reflexivity.
  - change ([] ++ (c :: key) ++ rest) with (c :: (key ++ rest)).
    cbv iota beta.
    match goal with
    | |- (let (neg, s1) := ?m in _) = _ =>
        assert (Hm : m = (false, c :: key ++ rest))
          by (apply not_negated; exact Hc);
        rewrite Hm
    end.
    change (c :: key ++ rest) with ((c :: key) ++ rest).
    rewrite Hskip, (take_key_app _ _ Hkey Hrest). reflexivity.
Qed.

Lemma parse_terms_cons term terms :
  parse_terms uni_word uni_space (term :: terms)
  = let '(i, e, o) := parse_terms uni_word uni_space [term] in
    let '(i', e', o') := parse_terms uni_word uni_space terms in
    (i ++ i', e ++ e', o ++ o').
Proof.
  cbn [parse_terms].
  destruct (parse_terms uni_word uni_space terms) as [[i' e'] o'].
  destruct (match_term uni_word uni_space term) as [[[[neg k] op] v]|];
    [|reflexivity].
  destruct neg; [reflexivity|]. destruct (is_empty v); [reflexivity|].
  destruct op; reflexivity.
Qed.

(** X23: how a filter query is read. For a key of word characters and
    '-': the term [key] puts the key among the included keys, [!key]
    among the excluded ones, [key OP value] among the comparisons when
    the value is not empty, and a comparison with an empty value counts
    as the bare key. The terms of a query are those between its commas,
    each read by itself. *)
Theorem filter_terms key o value
    (Hne : key <> [])
    (Hkey : Forall (fun c => is_word uni_word c || (c =? 45) = true) key)
    (Hspace : forall c key', key = c :: key' -> is_space uni_space c = false)
    (Hvalue : value <> [])
    (Hhead : forall c rest, value = c :: rest ->
                            is_space uni_space c = false /\ c <> 61)
    (Hline : ~ In 10 value) (Hcomma : ~ In 44 value) :
  _parse_filters uni_word uni_space key = ([key], [], []) /\
  _parse_filters uni_word uni_space (33 :: key) = ([], [key], []) /\
  _parse_filters uni_word uni_space (key ++ u (op_text o) ++ value)
  = ([], [], [(key, o, value)]) /\
  _parse_filters uni_word uni_space (key ++ u (op_text o)) = ([key], [], []) /\
  forall term rest,
    ~ In 44 term ->
    _parse_filters uni_word uni_space term
    = parse_terms uni_word uni_space [term] /\
    _parse_filters uni_word uni_space (term ++ 44 :: rest)
    = let '(i, e, c) := _parse_filters uni_word uni_space term in
      let '(i', e', c') := _parse_filters uni_word uni_space rest in
      (i ++ i', e ++ e', c ++ c').
Proof.
  assert (Hkc : ~ In 44 key).
  { intros Hin. rewrite Forall_forall in Hkey. apply Hkey in Hin.
    vm_compute in Hin. discriminate. }
  assert (Hoc : ~ In 44 (u (op_text o)))
    by (destruct o; vm_compute; intuition discriminate).
  assert (Hone : forall term, ~ In 44 term ->
            _parse_filters uni_word uni_space term
            = parse_terms uni_word uni_space [term])
    by (intros term Ht; unfold _parse_filters; now rewrite split_on_one).
  assert (Hop : forall c rest', u (op_text o) ++ value = c :: rest' ->
                                is_word uni_word c || (c =? 45) = false).
  { intros c rest' E. destruct o; injection E as <- _; reflexivity. }
  assert (Hop' : forall c rest', u (op_text o) = c :: rest' ->
                                 is_word uni_word c || (c =? 45) = false).
  { intros c rest' E. destruct o; injection E as <- _; reflexivity. }
  assert (Hv : skip_spaces uni_space value = value).
  { apply skip_spaces_head. intros c s' E. now apply (Hhead c s'). }
  assert (Htake : take_value value = Some value).
  { unfold take_value. destruct (memZ 10 value) eqn:E; [|reflexivity].
    apply memZ_In in E. contradiction. }
  assert (Htop : take_op (skip_spaces uni_space (u (op_text o) ++ value))
                 = (Some o, value)).
  { destruct (take_op_lt value) as (Hlt & Hgt).
    { intros rest ->. now destruct (Hhead 61 rest eq_refl). }
    destruct o; try reflexivity; [exact Hlt | exact Hgt]. }
  split; [|split; [|split; [|split]]].
  - rewrite (Hone key Hkc). cbn [parse_terms].
    pose proof (match_term_key false key [] Hne Hkey Hspace) as Hm.
    rewrite app_nil_r in Hm. cbn [app] in Hm. rewrite Hm; [reflexivity|].
    intros c rest' [=].
  - rewrite Hone by (intros [H|H]; [discriminate | contradiction]).
    cbn [parse_terms].
    pose proof (match_term_key true key [] Hne Hkey Hspace) as Hm.
    rewrite app_nil_r in Hm. cbn [app] in Hm. rewrite Hm; [reflexivity|].
    intros c rest' [=].
  - rewrite Hone.
    2:{ intros Hin. apply in_app_or in Hin. destruct Hin as [Hin|Hin]; auto.
        apply in_app_or in Hin. destruct Hin; auto. }
    cbn [parse_terms].
    pose proof (match_term_key false key (u (op_text o) ++ value) Hne Hkey
                  Hspace Hop) as Hm.
    cbn [app] in Hm. cbv zeta in Hm. rewrite Htop, Hv, Htake in Hm.
    rewrite Hm. destruct value; [contradiction | reflexivity].
  - rewrite Hone.
    2:{ intros Hin. apply in_app_or in Hin. destruct Hin; auto. }
    cbn [parse_terms].
    pose proof (match_term_key false key (u (op_text o)) Hne Hkey Hspace Hop')
      as Hm.
    cbn [app] in Hm. rewrite Hm. destruct o; reflexivity.
  - intros term rest Hterm. split; [now apply Hone|].
    rewrite (Hone term Hterm). unfold _parse_filters.
    rewrite (split_on_app 44 term rest Hterm). apply parse_terms_cons.
Qed.

End FilterTerms.

Lemma filter_terms_witness :
  _parse_filters ascii_only ascii_only (u "color") = ([u "color"], [], []) /\
  _parse_filters ascii_only ascii_only (u "!color") = ([], [u "color"], []) /\
  _parse_filters ascii_only ascii_only (u "color<=red")
  = ([], [], [(u "color", Op_le, u "red")]) /\
  _parse_filters ascii_only ascii_only (u "color<=") = ([u "color"], [], []).
Proof.
  destruct (filter_terms ascii_only ascii_only (u "color") Op_le (u "red"))
    as (H1 & H2 & H3 & H4 & _).
  - discriminate.
  - repeat constructor.
  - intros c key' [= <- _]. reflexivity.
  - discriminate.
  - intros c rest [= <- _]. split; [reflexivity | discriminate].
  - vm_compute. intuition discriminate.
  - vm_compute. intuition discriminate.
  - split; [exact H1|]. split; [exact H2|]. split; [exact H3 | exact H4].
Defined.

(** ** Paths and nodes *)

Lemma filter_true {A} (l : list A) : filter (fun _ => true) l = l.
Proof. induction l as [|x l IH]; simpl; congruence. Qed.

Lemma NoDup_map_sub {A B} (key : A -> B) (g : A -> bool) (l : list A) :
  NoDup (map key l) -> NoDup (map key (filter g l)).
Proof.
  induction l as [|x l IH]; simpl; intros Hnd; auto.
  inversion Hnd as [|? ? Hnotin Hnd']; subst.
  destruct (g x); simpl; auto. constructor; auto.
  intros Hin. apply Hnotin. apply in_map_iff in Hin.
  destruct Hin as (y & Hy & Hin). apply filter_In in Hin.
  apply in_map_iff. exists y. tauto.
Qed.

Ltac walk_rows :=
  match goal with
  | |- context [statistics_update_ancestors ?f ?n ?p ?s ?t ?c ?st] =>
      let st1 := fresh "st1" in
      let Hw := fresh "Hw" in
      destruct (statistics_update_ancestors f n p s t c st)
        as [[[] st1]| |] eqn:Hw; try discriminate;
      apply walk_same_rows in Hw
  end.

(** The operations on versions and nodes add no row to [nodes] and
    change none: the rows they leave are rows of the store. *)
Lemma mutation_nodes fuel now m st st' :
  apply_mutation fuel now m st = Ok (tt, st') ->
  exists g, nodes st' = filter g (nodes st).
Proof.
  assert (Hsame : forall s, nodes s = nodes st ->
                            exists g, nodes s = filter g (nodes st)).
  { intros s ->. exists (fun _ => true). now rewrite filter_true. }
  assert (Hdel : forall sel s, nodes s = nodes st ->
            exists g, nodes (delete_nodes sel s) = filter g (nodes st)).
  { intros sel s Hs. unfold delete_nodes. cbn [nodes delete_versions].
    rewrite Hs. eexists. reflexivity. }
  destruct m as [node hash size source muser cluster | serial | serial cluster
                | node | node before cluster | parent before cluster];
    unfold apply_mutation, discard.
  - unfold version_create, bind, get, put, ret.
    destruct (node_exists st node); [|discriminate].
    walk_rows. intros [= <-]. apply Hsame. apply Hw.
  - unfold version_remove, bind, get, put, ret.
    destruct (version_get_properties st serial) as [v|].
    2:{ intros [= <-]. now apply Hsame. }
    walk_rows. intros [= <-]. apply Hsame. apply Hw.
  - unfold version_recluster, bind, get, put, ret.
    destruct (version_get_properties st serial) as [v|].
    2:{ intros [= <-]. now apply Hsame. }
    destruct (cluster =? v_cluster v).
    { intros [= <-]. now apply Hsame. }
    walk_rows. walk_rows. intros [= <-]. apply Hsame. cbn [nodes].
    destruct Hw as (H1 & _), Hw0 as (H2 & _). congruence.
  - unfold node_remove, bind at 1 2, get at 1.
    destruct (negb _).
    { intros [= <-]. now apply Hsame. }
    unfold bind at 1.
    destruct (for_each _ _ st) as [[[] st1]| |] eqn:Hfor; try discriminate.
    apply (for_each_preserves same_rows) in Hfor;
      [|apply same_rows_refl|apply same_rows_trans|].
    2:{ intros [[population size] cluster] s s' Hrun.
        now apply walk_same_rows in Hrun. }
    unfold bind, get, put, ret. intros [= <-]. apply Hdel. apply Hfor.
  - unfold node_purge, bind, get, put, ret.
    destruct (_ =? 0).
    { intros [= <-]. now apply Hsame. }
    walk_rows. intros [= <-]. apply Hdel. apply Hw.
  - unfold node_purge_children, bind at 1 2, get at 1.
    destruct (_ =? 0).
    { intros [= <-]. now apply Hsame. }
    unfold bind at 1.
    match goal with
    | |- context [statistics_update ?n ?p ?s ?t ?c st] =>
        destruct (statistics_update n p s t c st) as [[[] sta]| |] eqn:Hu;
          try discriminate;
        apply statistics_update_same_rows in Hu
    end.
    unfold bind, get, put, ret. walk_rows. intros [= <-]. apply Hdel.
    cbn [nodes delete_versions]. destruct Hw as (-> & _). apply Hu.
Qed.

(** X24: in every store that the methods build from the initial one, no
    two nodes have the same path; so [node_lookup] and
    [node_get_properties] are inverse to each other: the path of a node
    looks up to that node, and the node that a path looks up to has that
    path. *)
Theorem node_lookup_round_trip st (Hreach : reachable st) :
  unique_paths st /\
  (forall node parent path,
     node_get_properties st node = Some (parent, path) ->
     node_lookup st path = Some node) /\
  (forall path node,
     node_lookup st path = Some node ->
     exists parent, node_get_properties st node = Some (parent, path)).
Proof.
  assert (Hinv : unique_paths st /\ pk_nodes st).
  { unfold unique_paths, pk_nodes.
    induction Hreach as
      [ | st parent path node st' _ IH Hparent Hrun
        | st fuel now m st' _ IH Hleaves Hrun
        | st serial items st' _ IH Hrun
        | st serial keys st' _ IH Hrun
        | st source dest st' _ IH Hrun
        | st node policy st' _ IH Hrun ].
    - split; repeat constructor; intros [].
    - destruct IH as (Hpaths & Hpk).
      unfold node_create, bind, get, put, ret, raise in Hrun.
      destruct (existsb _ (nodes st)) eqn:Hnew; [discriminate|].
      destruct (node_exists st parent || _); [|discriminate].
      injection Hrun as <- <-. cbn [nodes]. rewrite !map_app. split.
      + apply NoDup_snoc; auto. cbn [map n_path]. intros Hin.
        apply in_map_iff in Hin. destruct Hin as (r & Hr & Hin).
        assert (existsb (fun r => ustr_eqb (n_path r) path) (nodes st) = true)
          by (apply existsb_exists; exists r; split; auto;
              now apply ustr_eqb_eq).
        congruence.
      + apply NoDup_snoc; auto. cbn [map n_node]. intros Hin.
        apply next_rowid_fresh in Hin. lia.
    - destruct IH as (Hpaths & Hpk).
      destruct (mutation_nodes fuel now m st st' Hrun) as (g & ->).
      split; now apply NoDup_map_sub.
    - destruct (attribute_set_tables _ _ _ _ Hrun) as (-> & _). exact IH.
    - destruct (attribute_del_tables _ _ _ _ Hrun) as (-> & _). exact IH.
    - destruct (attribute_copy_tables _ _ _ _ Hrun) as (-> & _). exact IH.
    - destruct (policy_set_tables _ _ _ _ Hrun) as (-> & _). exact IH. }
  destruct Hinv as (Hpaths & Hpk). split; [exact Hpaths|]. split.
  - intros node parent path. unfold node_get_properties, node_lookup.
    destruct (find (fun r => n_node r =? node) (nodes st)) as [r|] eqn:Hr;
      [|discriminate].
    intros [= <- <-]. apply find_some in Hr. destruct Hr as (Hr & He%Z.eqb_eq).
    destruct (find (fun r0 => ustr_eqb (n_path r0) (n_path r)) (nodes st))
      as [r'|] eqn:Hr'.
    + apply find_some in Hr'. destruct Hr' as (Hr' & Hp%ustr_eqb_eq).
      rewrite (NoDup_map_inj n_path (nodes st) r' r Hpaths Hr' Hr Hp).
      now rewrite He.
    + apply (find_none _ _ Hr') in Hr.
      assert (ustr_eqb (n_path r) (n_path r) = true)
        by (now apply ustr_eqb_eq).
      congruence.
  - intros path node. unfold node_get_properties, node_lookup.
    destruct (find (fun r => ustr_eqb (n_path r) path) (nodes st))
      as [r|] eqn:Hr; [|discriminate].
    intros [= <-]. apply find_some in Hr.
    destruct Hr as (Hr & Hp%ustr_eqb_eq).
    rewrite (pk_find n_node (nodes st) r Hpk Hr).
    exists (n_parent r). now rewrite Hp.
Qed.

Lemma node_lookup_round_trip_witness :
  reachable db_nested /\
  node_get_properties db_nested 2 = Some (1, u "a/b") /\
  node_lookup db_nested (u "a/b") = Some 2.
Proof.
  assert (Hreach : reachable db_nested).
  { apply (reach_mutation
             (run (node_create 0 (u "a") ;;; node_create 1 (u "a/b")) init_db)
             3 10 (CreateVersion 2 (u "h1") 10 None (u "user") 0)).
    - apply (reach_node_create (run (node_create 0 (u "a")) init_db)
                               1 (u "a/b") 2).
      + apply (reach_node_create init_db 0 (u "a") 1);
          [apply reach_init | reflexivity | reflexivity].
      + reflexivity.
      + reflexivity.
    - exact I.
    - reflexivity. }
  split; [exact Hreach|]. split; [reflexivity|].
  destruct (node_lookup_round_trip db_nested Hreach) as (_ & Hlook & _).
  apply (Hlook 2 1 (u "a/b")). reflexivity.
Defined.

(** ** The errors of a listing *)

Section ListingErrors.

Variable like_prefix : ustring -> ustring -> bool.
Variable uni_word : Z -> bool.
Variable uni_space : Z -> bool.

(** X25: the errors of a listing, whatever the store and the other
    arguments. For a prefix whose last code point is 0xffff or more it
    raises RuntimeError, before any query is made; for another prefix
    and a filter query with a term that is read, it raises the
    OperationalError of the engine. *)
Theorem listing_errors fuel st parent prefix delimiter start limit before
    except_cluster pathq filterq
    (Hne : prefix <> []) :
  (65535 <= last prefix 0 ->
   latest_version_list like_prefix uni_word uni_space fuel st parent prefix
     delimiter start limit before except_cluster pathq filterq
   = Raise RuntimeError) /\
  (last prefix 0 < 65535 ->
   _construct_filters uni_word uni_space filterq <> None ->
   latest_version_list like_prefix uni_word uni_space fuel st parent prefix
     delimiter start limit before except_cluster pathq filterq
   = Raise OperationalError).
Proof.
  destruct (exists_last Hne) as (s & c & ->). rewrite last_last.
  unfold latest_version_list. rewrite strnextling_snoc. split.
  - intros Hc. destruct (Z.geb_spec c 65535); [reflexivity | lia].
  - intros Hc Hf. destruct (Z.geb_spec c 65535); [lia|].
    cbn [result_bind].
    destruct (_construct_filters uni_word uni_space filterq) as [subq|] eqn:E;
      [|contradiction].
    destruct (construct_filters_head _ _ _ _ E) as (c0 & rest & ->).
    assert (Hrej : forall start' limit',
              execute_select like_prefix st
                (listing_statement uni_word uni_space parent start'
                   (s ++ [c + 1]) before except_cluster pathq filterq limit')
              = Raise OperationalError).
    { intros start' limit'. unfold execute_select, listing_statement.
      rewrite E. destruct pathq; reflexivity. }
    destruct delimiter as [[|d delimiter]|]; now rewrite Hrej.
Qed.

End ListingErrors.

Lemma listing_errors_witness :
  [65535] <> [] /\ u "a" <> [] /\
  latest_version_list starts_with ascii_only ascii_only 5 db_markers
    0 [65535] None [] 10 Inf 1 [] None
  = Raise RuntimeError /\
  latest_version_list starts_with ascii_only ascii_only 5 db_markers
    0 (u "a") None [] 10 Inf 1 [] (Some (u "color"))
  = Raise OperationalError.
Proof.
  assert (H1 : [65535] <> []) by discriminate.
  assert (H2 : u "a" <> []) by discriminate.
  split; [exact H1|]. split; [exact H2|]. split.
  - apply (listing_errors starts_with ascii_only ascii_only 5 db_markers
             0 [65535] None [] 10 Inf 1 [] None H1).
    vm_compute. discriminate.
  - apply (listing_errors starts_with ascii_only ascii_only 5 db_markers
             0 (u "a") None [] 10 Inf 1 [] (Some (u "color")) H2).
    + reflexivity.
    + vm_compute. discriminate.
Defined.

(** ** Purging the children of a node that prunes leaves only *)



